(** * PortMaster-Info tools: popularity scoring, merging and identifier upkeep

    A shallow embedding of the three scripts under [tools/]:
    - [igdb_popularity.py]: the retrying HTTP request and the merge of freshly
      fetched popularity metrics into the persisted store;
    - [rank_games_by_popularity.py]: the catalogue filter and the weighted score;
    - [update_game_ids.py]: the merge into the identifier index and the removal
      of identifier fields from the per-port metadata files.

    Conventions of the embedding.
    - A Python [dict] with string keys is an association list in insertion
      order, [dict V]; its abstraction as a finite map is [to_map].
    - A Python exception is the [Raise] case of [result].
    - A Python number is an [int] (a [Z]) or a [float] (an IEEE binary64
      number, [float]); the arithmetic is Python's: an [int] that meets a
      [float] is converted first, which raises [OverflowError] beyond the
      range of a [float], and every operation on [float]s rounds.
    - A Python [str] is represented by its UTF-8 encoding, a [string] being a
      sequence of bytes; [str.isdigit] and [str.lower] read the code points
      and follow the character database of CPython 3.11 (Unicode 14.0).
    - A JSON file is the document it holds, a JSON object: reading and
      writing are not modelled beyond that, except that [sort_keys=True]
      sorts the keys, and that a file of the ports directory may also hold
      text that is not JSON or bytes that are not text, on which reading
      raises. *)

From Stdlib Require Import Ascii String ZArith Floats Uint63.
From stdpp Require Import gmap strings list fin_maps sorting pretty.

(** ** Exceptions *)

Inductive exn : Type :=
| KeyError
| ValueError
| ZeroDivisionError
| OverflowError
| UnicodeDecodeError
| HTTPError
| ConnectionError
| InvalidJSONError.

Inductive result (A : Type) : Type :=
| Ok (a : A)
| Raise (e : exn).

Arguments Ok {A} a.
Arguments Raise {A} e.

#[global] Instance result_ret : MRet result := fun A a => Ok a.

#[global] Instance result_bind : MBind result := fun A B k r =>
  match r with
  | Ok a => k a
  | Raise e => Raise e
  end.

(** A [for] loop whose body may raise: the first exception ends the loop. *)
Fixpoint for_each {A S : Type} (body : S → A → result S) (xs : list A) (s : S)
  : result S :=
  match xs with
  | [] => Ok s
  | x :: xs' => s' ← body s x ; for_each body xs' s'
  end.

(** The same loop over a state that outlives the exception, such as the
    files of a directory: the result is the state reached, and how the loop
    ended. An iteration that raises leaves the state as it found it. *)
Fixpoint for_each_state {A S : Type} (body : S → A → result S) (xs : list A)
    (s : S) : S * result unit :=
  match xs with
  | [] => (s, Ok tt)
  | x :: xs' =>
      match body s x with
      | Ok s' => for_each_state body xs' s'
      | Raise e => (s, Raise e)
      end
  end.

(** ** Python dictionaries *)

Module PyDict.

Abbreviation dict V := (list (string * V)) (only parsing).

Section ops.
Context {V : Type}.

(** [d.get(k)] *)
Fixpoint dict_get (d : dict V) (k : string) : option V :=
  match d with
  | [] => None
  | (k', v) :: d' => if decide (k' = k) then Some v else dict_get d' k
  end.

(** [k in d] *)
Definition dict_mem (d : dict V) (k : string) : bool :=
  match dict_get d k with Some _ => true | None => false end.

(** [d[k]], which raises [KeyError] on a missing key *)
Definition dict_getitem (d : dict V) (k : string) : result V :=
  match dict_get d k with Some v => Ok v | None => Raise KeyError end.

(** [d[k] = v]: an existing key keeps its position, a new key goes last *)
Fixpoint dict_set (d : dict V) (k : string) (v : V) : dict V :=
  match d with
  | [] => [(k, v)]
  | (k', v') :: d' =>
      if decide (k' = k) then (k, v) :: d' else (k', v') :: dict_set d' k v
  end.

Fixpoint dict_remove (d : dict V) (k : string) : dict V :=
  match d with
  | [] => []
  | (k', v') :: d' =>
      if decide (k' = k) then dict_remove d' k else (k', v') :: dict_remove d' k
  end.

(** [del d[k]], which raises [KeyError] on a missing key *)
Definition dict_del (d : dict V) (k : string) : result (dict V) :=
  if dict_mem d k then Ok (dict_remove d k) else Raise KeyError.

Definition dict_keys (d : dict V) : list string := map fst d.
Definition dict_values (d : dict V) : list V := map snd d.
Definition dict_items (d : dict V) : list (string * V) := d.

(** [d.update(other)] *)
Definition dict_update (d other : dict V) : dict V :=
  fold_left (fun acc kv => dict_set acc (fst kv) (snd kv)) (dict_items other) d.

(** The finite map a dictionary denotes. *)
Definition to_map (d : dict V) : gmap string V := list_to_map d.

(** Keys are unique in every dictionary Python builds. *)
Definition dict_wf (d : dict V) : Prop := NoDup (dict_keys d).

End ops.

End PyDict.

Import PyDict.

(** ** Python strings *)

(** A code point of a string and its UTF-8 encoding. *)
Definition continuation (c : ascii) : option Z :=
  let n := Z.of_N (N_of_ascii c) in
  if ((128 <=? n) && (n <? 192))%bool%Z then Some (n - 128)%Z else None.

(** [bytes.decode('utf-8')], strict: no overlong form, no surrogate, nothing
    above U+10FFFF. *)
Fixpoint utf8_decode (s : string) : option (list Z) :=
  match s with
  | EmptyString => Some []
  | String c s1 =>
      let n := Z.of_N (N_of_ascii c) in
      if (n <? 128)%Z then cons n <$> utf8_decode s1
      else if (n <? 192)%Z then None
      else if (n <? 224)%Z then
        match s1 with
        | String c1 s2 =>
            x1 ← continuation c1 ;
            let cp := ((n - 192) * 64 + x1)%Z in
            if (128 <=? cp)%Z then cons cp <$> utf8_decode s2 else None
        | _ => None
        end
      else if (n <? 240)%Z then
        match s1 with
        | String c1 (String c2 s3) =>
            x1 ← continuation c1 ;
            x2 ← continuation c2 ;
            let cp := ((n - 224) * 4096 + x1 * 64 + x2)%Z in
            if ((2048 <=? cp) && negb ((55296 <=? cp) && (cp <=? 57343)))%bool%Z
            then cons cp <$> utf8_decode s3 else None
        | _ => None
        end
      else if (n <? 248)%Z then
        match s1 with
        | String c1 (String c2 (String c3 s4)) =>
            x1 ← continuation c1 ;
            x2 ← continuation c2 ;
            x3 ← continuation c3 ;
            let cp := ((n - 240) * 262144 + x1 * 4096 + x2 * 64 + x3)%Z in
            if ((65536 <=? cp) && (cp <=? 1114111))%bool%Z
            then cons cp <$> utf8_decode s4 else None
        | _ => None
        end
      else None
  end.

Definition byte_of (n : Z) : ascii := ascii_of_N (Z.to_N n).

(** [str.encode('utf-8')] of one code point *)
Definition utf8_encode_cp (cp : Z) : string :=
  if (cp <? 128)%Z then String (byte_of cp) EmptyString
  else if (cp <? 2048)%Z then
    String (byte_of (192 + cp / 64)) (String (byte_of (128 + cp mod 64)) EmptyString)
  else if (cp <? 65536)%Z then
    String (byte_of (224 + cp / 4096))
      (String (byte_of (128 + (cp / 64) mod 64))
         (String (byte_of (128 + cp mod 64)) EmptyString))
  else
    String (byte_of (240 + cp / 262144))
      (String (byte_of (128 + (cp / 4096) mod 64))
         (String (byte_of (128 + (cp / 64) mod 64))
            (String (byte_of (128 + cp mod 64)) EmptyString))).

Definition utf8_encode (cps : list Z) : string :=
  fold_right (fun cp s => utf8_encode_cp cp +:+ s) EmptyString cps.

(** Ranges of code points, both ends included. *)
Definition in_ranges (rs : list (Z * Z)) (cp : Z) : bool :=
  existsb (fun r => ((fst r <=? cp) && (cp <=? snd r))%bool%Z) rs.

(** The characters that are digits ([Numeric_Type] Digit or Decimal). *)
Definition digit_ranges : list (Z * Z) :=
  [ (48, 57); (178, 179); (185, 185); (1632, 1641); (1776, 1785);
    (1984, 1993); (2406, 2415); (2534, 2543); (2662, 2671); (2790, 2799);
    (2918, 2927); (3046, 3055); (3174, 3183); (3302, 3311); (3430, 3439);
    (3558, 3567); (3664, 3673); (3792, 3801); (3872, 3881); (4160, 4169);
    (4240, 4249); (4969, 4977); (6112, 6121); (6160, 6169); (6470, 6479);
    (6608, 6618); (6784, 6793); (6800, 6809); (6992, 7001); (7088, 7097);
    (7232, 7241); (7248, 7257); (8304, 8304); (8308, 8313); (8320, 8329);
    (9312, 9320); (9332, 9340); (9352, 9360); (9450, 9450); (9461, 9469);
    (9471, 9471); (10102, 10110); (10112, 10120); (10122, 10130);
    (42528, 42537); (43216, 43225); (43264, 43273); (43472, 43481);
    (43504, 43513); (43600, 43609); (44016, 44025); (65296, 65305);
    (66720, 66729); (68160, 68163); (68912, 68921); (69216, 69224);
    (69714, 69722); (69734, 69743); (69872, 69881); (69942, 69951);
    (70096, 70105); (70384, 70393); (70736, 70745); (70864, 70873);
    (71248, 71257); (71360, 71369); (71472, 71481); (71904, 71913);
    (72016, 72025); (72784, 72793); (73040, 73049); (73120, 73129);
    (92768, 92777); (92864, 92873); (93008, 93017); (120782, 120831);
    (123200, 123209); (123632, 123641); (125264, 125273); (127232, 127242);
    (130032, 130041) ]%Z.

(** [key.isdigit()]: the string is not empty and every character of it is a
    digit (Numeric_Type Digit or Decimal). *)
Definition isdigit (s : string) : bool :=
  match utf8_decode s with
  | Some (cp :: cps) => forallb (in_ranges digit_ranges) (cp :: cps)
  | _ => false
  end.

(** The characters that have a lower-case form of one code point, in rows
    (first, last, step, offset): every [step]-th code point from [first] to
    [last] maps to itself plus [offset]. *)
Definition lower_rows : list (Z * Z * Z * Z) :=
  [ (65, 90, 1, 32); (192, 214, 1, 32); (216, 222, 1, 32); (256, 302, 2, 1);
    (306, 310, 2, 1); (313, 327, 2, 1); (330, 374, 2, 1);
    (376, 376, 1, -121); (377, 381, 2, 1); (385, 385, 1, 210);
    (386, 388, 2, 1); (390, 390, 1, 206); (391, 391, 1, 1);
    (393, 394, 1, 205); (395, 395, 1, 1); (398, 398, 1, 79);
    (399, 399, 1, 202); (400, 400, 1, 203); (401, 401, 1, 1);
    (403, 403, 1, 205); (404, 404, 1, 207); (406, 406, 1, 211);
    (407, 407, 1, 209); (408, 408, 1, 1); (412, 412, 1, 211);
    (413, 413, 1, 213); (415, 415, 1, 214); (416, 420, 2, 1);
    (422, 422, 1, 218); (423, 423, 1, 1); (425, 425, 1, 218);
    (428, 428, 1, 1); (430, 430, 1, 218); (431, 431, 1, 1);
    (433, 434, 1, 217); (435, 437, 2, 1); (439, 439, 1, 219);
    (440, 440, 1, 1); (444, 444, 1, 1); (452, 452, 1, 2); (453, 453, 1, 1);
    (455, 455, 1, 2); (456, 456, 1, 1); (458, 458, 1, 2); (459, 475, 2, 1);
    (478, 494, 2, 1); (497, 497, 1, 2); (498, 500, 2, 1); (502, 502, 1, -97);
    (503, 503, 1, -56); (504, 542, 2, 1); (544, 544, 1, -130);
    (546, 562, 2, 1); (570, 570, 1, 10795); (571, 571, 1, 1);
    (573, 573, 1, -163); (574, 574, 1, 10792); (577, 577, 1, 1);
    (579, 579, 1, -195); (580, 580, 1, 69); (581, 581, 1, 71);
    (582, 590, 2, 1); (880, 882, 2, 1); (886, 886, 1, 1); (895, 895, 1, 116);
    (902, 902, 1, 38); (904, 906, 1, 37); (908, 908, 1, 64);
    (910, 911, 1, 63); (913, 929, 1, 32); (931, 939, 1, 32);
    (975, 975, 1, 8); (984, 1006, 2, 1); (1012, 1012, 1, -60);
    (1015, 1015, 1, 1); (1017, 1017, 1, -7); (1018, 1018, 1, 1);
    (1021, 1023, 1, -130); (1024, 1039, 1, 80); (1040, 1071, 1, 32);
    (1120, 1152, 2, 1); (1162, 1214, 2, 1); (1216, 1216, 1, 15);
    (1217, 1229, 2, 1); (1232, 1326, 2, 1); (1329, 1366, 1, 48);
    (4256, 4293, 1, 7264); (4295, 4295, 1, 7264); (4301, 4301, 1, 7264);
    (5024, 5103, 1, 38864); (5104, 5109, 1, 8); (7312, 7354, 1, -3008);
    (7357, 7359, 1, -3008); (7680, 7828, 2, 1); (7838, 7838, 1, -7615);
    (7840, 7934, 2, 1); (7944, 7951, 1, -8); (7960, 7965, 1, -8);
    (7976, 7983, 1, -8); (7992, 7999, 1, -8); (8008, 8013, 1, -8);
    (8025, 8031, 2, -8); (8040, 8047, 1, -8); (8072, 8079, 1, -8);
    (8088, 8095, 1, -8); (8104, 8111, 1, -8); (8120, 8121, 1, -8);
    (8122, 8123, 1, -74); (8124, 8124, 1, -9); (8136, 8139, 1, -86);
    (8140, 8140, 1, -9); (8152, 8153, 1, -8); (8154, 8155, 1, -100);
    (8168, 8169, 1, -8); (8170, 8171, 1, -112); (8172, 8172, 1, -7);
    (8184, 8185, 1, -128); (8186, 8187, 1, -126); (8188, 8188, 1, -9);
    (8486, 8486, 1, -7517); (8490, 8490, 1, -8383); (8491, 8491, 1, -8262);
    (8498, 8498, 1, 28); (8544, 8559, 1, 16); (8579, 8579, 1, 1);
    (9398, 9423, 1, 26); (11264, 11311, 1, 48); (11360, 11360, 1, 1);
    (11362, 11362, 1, -10743); (11363, 11363, 1, -3814);
    (11364, 11364, 1, -10727); (11367, 11371, 2, 1);
    (11373, 11373, 1, -10780); (11374, 11374, 1, -10749);
    (11375, 11375, 1, -10783); (11376, 11376, 1, -10782);
    (11378, 11378, 1, 1); (11381, 11381, 1, 1); (11390, 11391, 1, -10815);
    (11392, 11490, 2, 1); (11499, 11501, 2, 1); (11506, 11506, 1, 1);
    (42560, 42604, 2, 1); (42624, 42650, 2, 1); (42786, 42798, 2, 1);
    (42802, 42862, 2, 1); (42873, 42875, 2, 1); (42877, 42877, 1, -35332);
    (42878, 42886, 2, 1); (42891, 42891, 1, 1); (42893, 42893, 1, -42280);
    (42896, 42898, 2, 1); (42902, 42920, 2, 1); (42922, 42922, 1, -42308);
    (42923, 42923, 1, -42319); (42924, 42924, 1, -42315);
    (42925, 42925, 1, -42305); (42926, 42926, 1, -42308);
    (42928, 42928, 1, -42258); (42929, 42929, 1, -42282);
    (42930, 42930, 1, -42261); (42931, 42931, 1, 928); (42932, 42946, 2, 1);
    (42948, 42948, 1, -48); (42949, 42949, 1, -42307);
    (42950, 42950, 1, -35384); (42951, 42953, 2, 1); (42960, 42960, 1, 1);
    (42966, 42968, 2, 1); (42997, 42997, 1, 1); (65313, 65338, 1, 32);
    (66560, 66599, 1, 40); (66736, 66771, 1, 40); (66928, 66938, 1, 39);
    (66940, 66954, 1, 39); (66956, 66962, 1, 39); (66964, 66965, 1, 39);
    (68736, 68786, 1, 64); (71840, 71871, 1, 32); (93760, 93791, 1, 32);
    (125184, 125217, 1, 34) ]%Z.

(** The characters that are cased and not case-ignorable, and those that
    are case-ignorable. *)
Definition cased_ranges : list (Z * Z) :=
  [ (65, 90); (97, 122); (170, 170); (181, 181); (186, 186); (192, 214);
    (216, 246); (248, 442); (444, 447); (452, 659); (661, 687); (880, 883);
    (886, 887); (891, 893); (895, 895); (902, 902); (904, 906); (908, 908);
    (910, 929); (931, 1013); (1015, 1153); (1162, 1327); (1329, 1366);
    (1376, 1416); (4256, 4293); (4295, 4295); (4301, 4301); (4304, 4346);
    (4349, 4351); (5024, 5109); (5112, 5117); (7296, 7304); (7312, 7354);
    (7357, 7359); (7424, 7467); (7531, 7543); (7545, 7578); (7680, 7957);
    (7960, 7965); (7968, 8005); (8008, 8013); (8016, 8023); (8025, 8025);
    (8027, 8027); (8029, 8029); (8031, 8061); (8064, 8116); (8118, 8124);
    (8126, 8126); (8130, 8132); (8134, 8140); (8144, 8147); (8150, 8155);
    (8160, 8172); (8178, 8180); (8182, 8188); (8450, 8450); (8455, 8455);
    (8458, 8467); (8469, 8469); (8473, 8477); (8484, 8484); (8486, 8486);
    (8488, 8488); (8490, 8493); (8495, 8500); (8505, 8505); (8508, 8511);
    (8517, 8521); (8526, 8526); (8544, 8575); (8579, 8580); (9398, 9449);
    (11264, 11387); (11390, 11492); (11499, 11502); (11506, 11507);
    (11520, 11557); (11559, 11559); (11565, 11565); (42560, 42605);
    (42624, 42651); (42786, 42863); (42865, 42887); (42891, 42894);
    (42896, 42954); (42960, 42961); (42963, 42963); (42965, 42969);
    (42997, 42998); (43002, 43002); (43824, 43866); (43872, 43880);
    (43888, 43967); (64256, 64262); (64275, 64279); (65313, 65338);
    (65345, 65370); (66560, 66639); (66736, 66771); (66776, 66811);
    (66928, 66938); (66940, 66954); (66956, 66962); (66964, 66965);
    (66967, 66977); (66979, 66993); (66995, 67001); (67003, 67004);
    (68736, 68786); (68800, 68850); (71840, 71903); (93760, 93823);
    (119808, 119892); (119894, 119964); (119966, 119967); (119970, 119970);
    (119973, 119974); (119977, 119980); (119982, 119993); (119995, 119995);
    (119997, 120003); (120005, 120069); (120071, 120074); (120077, 120084);
    (120086, 120092); (120094, 120121); (120123, 120126); (120128, 120132);
    (120134, 120134); (120138, 120144); (120146, 120485); (120488, 120512);
    (120514, 120538); (120540, 120570); (120572, 120596); (120598, 120628);
    (120630, 120654); (120656, 120686); (120688, 120712); (120714, 120744);
    (120746, 120770); (120772, 120779); (122624, 122633); (122635, 122654);
    (125184, 125251); (127280, 127305); (127312, 127337); (127344, 127369) ]%Z.

Definition case_ignorable_ranges : list (Z * Z) :=
  [ (39, 39); (46, 46); (58, 58); (94, 94); (96, 96); (168, 168); (173, 173);
    (175, 175); (180, 180); (183, 184); (688, 879); (884, 885); (890, 890);
    (900, 901); (903, 903); (1155, 1161); (1369, 1369); (1375, 1375);
    (1425, 1469); (1471, 1471); (1473, 1474); (1476, 1477); (1479, 1479);
    (1524, 1524); (1536, 1541); (1552, 1562); (1564, 1564); (1600, 1600);
    (1611, 1631); (1648, 1648); (1750, 1757); (1759, 1768); (1770, 1773);
    (1807, 1807); (1809, 1809); (1840, 1866); (1958, 1968); (2027, 2037);
    (2042, 2042); (2045, 2045); (2070, 2093); (2137, 2139); (2184, 2184);
    (2192, 2193); (2200, 2207); (2249, 2306); (2362, 2362); (2364, 2364);
    (2369, 2376); (2381, 2381); (2385, 2391); (2402, 2403); (2417, 2417);
    (2433, 2433); (2492, 2492); (2497, 2500); (2509, 2509); (2530, 2531);
    (2558, 2558); (2561, 2562); (2620, 2620); (2625, 2626); (2631, 2632);
    (2635, 2637); (2641, 2641); (2672, 2673); (2677, 2677); (2689, 2690);
    (2748, 2748); (2753, 2757); (2759, 2760); (2765, 2765); (2786, 2787);
    (2810, 2815); (2817, 2817); (2876, 2876); (2879, 2879); (2881, 2884);
    (2893, 2893); (2901, 2902); (2914, 2915); (2946, 2946); (3008, 3008);
    (3021, 3021); (3072, 3072); (3076, 3076); (3132, 3132); (3134, 3136);
    (3142, 3144); (3146, 3149); (3157, 3158); (3170, 3171); (3201, 3201);
    (3260, 3260); (3263, 3263); (3270, 3270); (3276, 3277); (3298, 3299);
    (3328, 3329); (3387, 3388); (3393, 3396); (3405, 3405); (3426, 3427);
    (3457, 3457); (3530, 3530); (3538, 3540); (3542, 3542); (3633, 3633);
    (3636, 3642); (3654, 3662); (3761, 3761); (3764, 3772); (3782, 3782);
    (3784, 3789); (3864, 3865); (3893, 3893); (3895, 3895); (3897, 3897);
    (3953, 3966); (3968, 3972); (3974, 3975); (3981, 3991); (3993, 4028);
    (4038, 4038); (4141, 4144); (4146, 4151); (4153, 4154); (4157, 4158);
    (4184, 4185); (4190, 4192); (4209, 4212); (4226, 4226); (4229, 4230);
    (4237, 4237); (4253, 4253); (4348, 4348); (4957, 4959); (5906, 5908);
    (5938, 5939); (5970, 5971); (6002, 6003); (6068, 6069); (6071, 6077);
    (6086, 6086); (6089, 6099); (6103, 6103); (6109, 6109); (6155, 6159);
    (6211, 6211); (6277, 6278); (6313, 6313); (6432, 6434); (6439, 6440);
    (6450, 6450); (6457, 6459); (6679, 6680); (6683, 6683); (6742, 6742);
    (6744, 6750); (6752, 6752); (6754, 6754); (6757, 6764); (6771, 6780);
    (6783, 6783); (6823, 6823); (6832, 6862); (6912, 6915); (6964, 6964);
    (6966, 6970); (6972, 6972); (6978, 6978); (7019, 7027); (7040, 7041);
    (7074, 7077); (7080, 7081); (7083, 7085); (7142, 7142); (7144, 7145);
    (7149, 7149); (7151, 7153); (7212, 7219); (7222, 7223); (7288, 7293);
    (7376, 7378); (7380, 7392); (7394, 7400); (7405, 7405); (7412, 7412);
    (7416, 7417); (7468, 7530); (7544, 7544); (7579, 7679); (8125, 8125);
    (8127, 8129); (8141, 8143); (8157, 8159); (8173, 8175); (8189, 8190);
    (8203, 8207); (8216, 8217); (8228, 8228); (8231, 8231); (8234, 8238);
    (8288, 8292); (8294, 8303); (8305, 8305); (8319, 8319); (8336, 8348);
    (8400, 8432); (11388, 11389); (11503, 11505); (11631, 11631);
    (11647, 11647); (11744, 11775); (11823, 11823); (12293, 12293);
    (12330, 12333); (12337, 12341); (12347, 12347); (12441, 12446);
    (12540, 12542); (40981, 40981); (42232, 42237); (42508, 42508);
    (42607, 42610); (42612, 42621); (42623, 42623); (42652, 42655);
    (42736, 42737); (42752, 42785); (42864, 42864); (42888, 42890);
    (42994, 42996); (43000, 43001); (43010, 43010); (43014, 43014);
    (43019, 43019); (43045, 43046); (43052, 43052); (43204, 43205);
    (43232, 43249); (43263, 43263); (43302, 43309); (43335, 43345);
    (43392, 43394); (43443, 43443); (43446, 43449); (43452, 43453);
    (43471, 43471); (43493, 43494); (43561, 43566); (43569, 43570);
    (43573, 43574); (43587, 43587); (43596, 43596); (43632, 43632);
    (43644, 43644); (43696, 43696); (43698, 43700); (43703, 43704);
    (43710, 43711); (43713, 43713); (43741, 43741); (43756, 43757);
    (43763, 43764); (43766, 43766); (43867, 43871); (43881, 43883);
    (44005, 44005); (44008, 44008); (44013, 44013); (64286, 64286);
    (64434, 64450); (65024, 65039); (65043, 65043); (65056, 65071);
    (65106, 65106); (65109, 65109); (65279, 65279); (65287, 65287);
    (65294, 65294); (65306, 65306); (65342, 65342); (65344, 65344);
    (65392, 65392); (65438, 65439); (65507, 65507); (65529, 65531);
    (66045, 66045); (66272, 66272); (66422, 66426); (67456, 67461);
    (67463, 67504); (67506, 67514); (68097, 68099); (68101, 68102);
    (68108, 68111); (68152, 68154); (68159, 68159); (68325, 68326);
    (68900, 68903); (69291, 69292); (69446, 69456); (69506, 69509);
    (69633, 69633); (69688, 69702); (69744, 69744); (69747, 69748);
    (69759, 69761); (69811, 69814); (69817, 69818); (69821, 69821);
    (69826, 69826); (69837, 69837); (69888, 69890); (69927, 69931);
    (69933, 69940); (70003, 70003); (70016, 70017); (70070, 70078);
    (70089, 70092); (70095, 70095); (70191, 70193); (70196, 70196);
    (70198, 70199); (70206, 70206); (70367, 70367); (70371, 70378);
    (70400, 70401); (70459, 70460); (70464, 70464); (70502, 70508);
    (70512, 70516); (70712, 70719); (70722, 70724); (70726, 70726);
    (70750, 70750); (70835, 70840); (70842, 70842); (70847, 70848);
    (70850, 70851); (71090, 71093); (71100, 71101); (71103, 71104);
    (71132, 71133); (71219, 71226); (71229, 71229); (71231, 71232);
    (71339, 71339); (71341, 71341); (71344, 71349); (71351, 71351);
    (71453, 71455); (71458, 71461); (71463, 71467); (71727, 71735);
    (71737, 71738); (71995, 71996); (71998, 71998); (72003, 72003);
    (72148, 72151); (72154, 72155); (72160, 72160); (72193, 72202);
    (72243, 72248); (72251, 72254); (72263, 72263); (72273, 72278);
    (72281, 72283); (72330, 72342); (72344, 72345); (72752, 72758);
    (72760, 72765); (72767, 72767); (72850, 72871); (72874, 72880);
    (72882, 72883); (72885, 72886); (73009, 73014); (73018, 73018);
    (73020, 73021); (73023, 73029); (73031, 73031); (73104, 73105);
    (73109, 73109); (73111, 73111); (73459, 73460); (78896, 78904);
    (92912, 92916); (92976, 92982); (92992, 92995); (94031, 94031);
    (94095, 94111); (94176, 94177); (94179, 94180); (110576, 110579);
    (110581, 110587); (110589, 110590); (113821, 113822); (113824, 113827);
    (118528, 118573); (118576, 118598); (119143, 119145); (119155, 119170);
    (119173, 119179); (119210, 119213); (119362, 119364); (121344, 121398);
    (121403, 121452); (121461, 121461); (121476, 121476); (121499, 121503);
    (121505, 121519); (122880, 122886); (122888, 122904); (122907, 122913);
    (122915, 122916); (122918, 122922); (123184, 123197); (123566, 123566);
    (123628, 123631); (125136, 125142); (125252, 125259); (127995, 127999);
    (917505, 917505); (917536, 917631); (917760, 917999) ]%Z.

(** The lower-case mapping of one character outside its context: one code
    point, or two for U+0130. *)
Definition to_lower_full (cp : Z) : list Z :=
  if (cp =? 304)%Z then [105; 775]%Z
  else
    match
      find (fun r =>
              match r with
              | (first, last, step, _) =>
                  ((first <=? cp) && (cp <=? last) &&
                   ((cp - first) mod step =? 0))%bool%Z
              end) lower_rows
    with
    | Some (_, _, _, delta) => [(cp + delta)%Z]
    | None => [cp]
    end.

(** The capital sigma U+03A3 becomes the final sigma U+03C2 when a cased
    character precedes it, case-ignorable characters apart, and no cased
    character follows it, case-ignorable characters apart; it becomes U+03C3
    otherwise. *)
Fixpoint skip_ignorable (cps : list Z) : list Z :=
  match cps with
  | cp :: cps' =>
      if in_ranges case_ignorable_ranges cp then skip_ignorable cps' else cps
  | [] => []
  end.

Definition lower_sigma (before_rev after : list Z) : Z :=
  let final_sigma :=
    match skip_ignorable before_rev with
    | cp :: _ => in_ranges cased_ranges cp
    | [] => false
    end in
  let final_sigma :=
    if final_sigma then
      match skip_ignorable after with
      | cp :: _ => negb (in_ranges cased_ranges cp)
      | [] => true
      end
    else false in
  if final_sigma then 962%Z else 963%Z.

Fixpoint lower_from (before_rev rest : list Z) : list Z :=
  match rest with
  | [] => []
  | cp :: after =>
      (if (cp =? 931)%Z then [lower_sigma before_rev after]
       else to_lower_full cp) ++ lower_from (cp :: before_rev) after
  end.

(** [s.lower()] *)
Definition lower (s : string) : string :=
  match utf8_decode s with
  | Some cps => utf8_encode (lower_from [] cps)
  | None => s
  end.

(** ** Python numbers *)

Inductive pynum : Type :=
| PyInt (z : Z)
| PyFloat (f : float).

(** [float(z)]: the nearest [float], ties to even; [OverflowError] when that
    is beyond the largest [float]. *)
Definition float_of_int (z : Z) : result float :=
  match binary_normalize prec emax z 0 false with
  | S754_infinity _ => Raise OverflowError
  | sf => Ok (SF2Prim sf)
  end.

(** The operand of an arithmetic operation whose other operand is a
    [float]. *)
Definition as_float (x : pynum) : result float :=
  match x with
  | PyInt z => float_of_int z
  | PyFloat f => Ok f
  end.

(** [x * y], [x + y] and [x / y] where [y] is a [float]; the division raises
    [ZeroDivisionError] when [y] is zero. *)
Definition mul_float (x : pynum) (y : float) : result float :=
  a ← as_float x ; Ok (a * y)%float.

Definition add_float (x : pynum) (y : float) : result float :=
  a ← as_float x ; Ok (a + y)%float.

Definition div_float (x : pynum) (y : float) : result float :=
  a ← as_float x ;
  if (y =? 0)%float then Raise ZeroDivisionError else Ok (a / y)%float.

(** ** rank_games_by_popularity.py *)

(** The weights of the metric codes. *)
Definition METRIC_WEIGHTS : dict float :=
  [ ("1", 1); ("2", 2); ("3", 5); ("4", 4); ("5", 3);
    ("6", 3); ("7", 1); ("8", 2); ("9", 4); ("10", 2.5) ]%float.

(** [max(xs)]: the first greatest element; [ValueError] on an empty sequence *)
Definition py_max (xs : list float) : result float :=
  match xs with
  | [] => Raise ValueError
  | x :: xs' =>
      Ok (fold_left (fun best y => if (best <? y)%float then y else best) xs' x)
  end.

(** [METRIC_WEIGHTS.get(metric_id, 1.0)] *)
Definition weight_of (metric_id : string) : float :=
  default 1%float (dict_get METRIC_WEIGHTS metric_id).

(** The body of the loop: [score += value * weight]. *)
Definition add_metric (score : pynum) (item : string * pynum) : result pynum :=
  let weight := weight_of (fst item) in
  product ← mul_float (snd item) weight ;
  score ← add_float score product ;
  Ok (PyFloat score).

(** An empty mapping returns the integer 0 before anything else; otherwise
    the loop accumulates [value * weight] from the integer 0 and the sum is
    divided by [len(metrics) * max_weight]. *)
Definition calculate_popularity_score (metrics : dict pynum) : result pynum :=
  match metrics with
  | [] => Ok (PyInt 0)
  | _ =>
      score ← for_each add_metric (dict_items metrics) (PyInt 0) ;
      max_weight ← py_max (dict_values METRIC_WEIGHTS) ;
      divisor ← mul_float (PyInt (Z.of_nat (length metrics))) max_weight ;
      avg_score ← div_float score divisor ;
      Ok (PyFloat avg_score)
  end.

(** *** Catalogue filter *)

(** The ["attr"] object of one catalogue entry; a field that is absent is
    [None]. *)
Record port_attr : Type := PortAttr {
  attr_title : option string;
  attr_rtr : option bool;
  attr_genres : option (list string);
  attr_availability : option string
}.

Record port_info_t : Type := PortInfo { info_attr : option port_attr }.

(** The content of [ports_info.json]; [None] is a document without a
    ["ports"] member. *)
Record ports_info_t : Type := PortsInfo { ports : option (dict port_info_t) }.

(** One element of the list [get_port_data] returns. *)
Record port : Type := Port {
  name : string;
  title : string;
  rtr : bool;
  genres : list string;
  availability : option string
}.

(** [port_info.get('attr', {})] *)
Definition get_attr (port_info : port_info_t) : port_attr :=
  default (PortAttr None None None None) (info_attr port_info).

(** [s.replace('.zip', '')]: every occurrence, left to right *)
Fixpoint remove_zip (s : string) : string :=
  match s with
  | String "." (String "z" (String "i" (String "p" s'))) => remove_zip s'
  | String c s' => String c (remove_zip s')
  | EmptyString => EmptyString
  end.

(** [x in xs] on a list of strings *)
Definition str_in (x : string) (xs : list string) : bool :=
  existsb (String.eqb x) xs.

(** Truth value of an optional string argument: [None] and [''] are false. *)
Definition str_truthy (s : option string) : bool :=
  match s with
  | None => false
  | Some s => negb (String.eqb s "")
  end.

(** One iteration of the loop of [get_port_data]; a [continue] leaves
    [port_data] as it is. *)
Definition get_port_data_body (only_rtr : bool) (genre_filter : option string)
    (port_data : list port) (item : string * port_info_t) : list port :=
  let port_name := fst item in
  let port_info := snd item in
  let port_key := remove_zip port_name in
  if (only_rtr && negb (default false (attr_rtr (get_attr port_info))))%bool
  then port_data
  else
    if (str_truthy genre_filter &&
        negb (str_in (lower (default "" genre_filter))
                (map lower (default [] (attr_genres (get_attr port_info))))))%bool
    then port_data
    else
      port_data ++
      [ {| name := port_key;
           title := default port_key (attr_title (get_attr port_info));
           rtr := default false (attr_rtr (get_attr port_info));
           genres := default [] (attr_genres (get_attr port_info));
           availability := attr_availability (get_attr port_info) |} ].

Definition get_port_data (ports_info : option ports_info_t) (only_rtr : bool)
    (genre_filter : option string) : list port :=
  match ports_info with
  | None => []
  | Some info =>
      match ports info with
      | None => []
      | Some entries =>
          fold_left (get_port_data_body only_rtr genre_filter)
                    (dict_items entries) []
      end
  end.

(** ** igdb_popularity.py *)

(** *** Retrying request *)

Record response : Type := Response { status_code : Z; body : string }.

(** What one call of [requests.request] does: it returns a response or
    raises a network-level exception. *)
Inductive outcome : Type :=
| Responds (resp : response)
| Fails.

(** The observable effects of [retry_request]: the number of requests issued
    and the durations slept, oldest first. *)
Record world : Type := World { requests_made : nat; slept : list Z }.

(** The transport answers the [n]-th request of a run (from 0). *)
Definition transport : Type := nat → outcome.

Definition request (t : transport) (w : world) : outcome * world :=
  (t (requests_made w),
   {| requests_made := S (requests_made w); slept := slept w |}).

Definition sleep (secs : Z) (w : world) : world :=
  {| requests_made := requests_made w; slept := slept w ++ [secs] |}.

(** [resp.raise_for_status()] of the requests library raises [HTTPError]
    exactly for the status codes 400 to 599. *)
Definition raise_for_status (resp : response) : result unit :=
  if ((400 <=? status_code resp)%Z && (status_code resp <? 600)%Z)%bool
  then Raise HTTPError else Ok tt.

(** How one iteration of the loop ends. *)
Inductive flow : Type :=
| Next
| Return (r : option response).

(** The [try] block of one attempt. *)
Definition try_block (t : transport) (attempt : nat) (w : world)
  : world * result flow :=
  match request t w with
  | (Fails, w) => (w, Raise ConnectionError)
  | (Responds resp, w) =>
      if ((status_code resp =? 400)%Z && (attempt <? 4)%nat)%bool
      then (sleep (2 ^ Z.of_nat attempt) w, Ok Next)
      else (w, _ ← raise_for_status resp ; Ok (Return (Some resp)))
  end.

(** One attempt: [except Exception] catches whatever the [try] block raised,
    sleeps and lets the loop go on. *)
Definition attempt_body (t : transport) (attempt : nat) (w : world)
  : world * result flow :=
  match try_block t attempt w with
  | (w, Ok f) => (w, Ok f)
  | (w, Raise _) => (sleep (2 ^ Z.of_nat attempt) w, Ok Next)
  end.

Fixpoint retry_loop (t : transport) (attempts : list nat) (w : world)
  : world * result (option response) :=
  match attempts with
  | [] => (w, Ok None)
  | attempt :: rest =>
      match attempt_body t attempt w with
      | (w, Raise e) => (w, Raise e)
      | (w, Ok (Return r)) => (w, Ok r)
      | (w, Ok Next) => retry_loop t rest w
      end
  end.

Definition retry_request (t : transport) (w : world)
  : world * result (option response) :=
  retry_loop t (seq 0 5) w.

(** *** Merge into the persisted store *)

(** [json.dump(..., sort_keys=True)] followed by [json.load]: the keys come
    back in lexicographic order. *)
Definition key_le {V : Type} (x y : string * V) : Prop :=
  String.leb (fst x) (fst y) = true.

#[global] Instance key_le_dec {V : Type} : RelDecision (@key_le V).
Proof. intros x y. unfold key_le. apply _. Defined.

Definition sort_keys {V : Type} (d : dict V) : dict V := merge_sort key_le d.

Section merger.
(** The metric sub-mapping of one entry; the merge never looks inside. *)
Context {M : Type}.

(** A loaded store: either top-level member may be missing. *)
Record existing_data_t : Type := ExistingData {
  existing_types : option (dict string);
  existing_metrics : option (dict M)
}.

(** The store [main] writes. *)
Record output_t : Type := Output {
  popularity_types : dict string;
  popularity_metrics : dict M
}.

(** [if existing_data:] is true of a store that has a member. (A store with
    members of other names only would count as well; it takes the same
    defaults as the empty store and both branches then write the same
    mappings.) *)
Definition has_members (existing_data : existing_data_t) : bool :=
  (bool_decide (is_Some (existing_types existing_data)) ||
   bool_decide (is_Some (existing_metrics existing_data)))%bool.

(** The body of the loop over [existing_keys]. *)
Definition reconcile_key (igdb_mapping : dict string)
    (existing_metrics : dict M) (key : string) : result (dict M) :=
  if isdigit key then
    if dict_mem igdb_mapping key then
      game_key ← dict_getitem igdb_mapping key ;
      existing_metrics ←
        (if negb (dict_mem existing_metrics game_key)
         then
           metrics ← dict_getitem existing_metrics key ;
           Ok (dict_set existing_metrics game_key metrics)
         else Ok existing_metrics) ;
      dict_del existing_metrics key
    else Ok existing_metrics
  else Ok existing_metrics.

Definition reconcile_keys (igdb_mapping : dict string)
    (existing_metrics : dict M) : result (dict M) :=
  let existing_keys := dict_keys existing_metrics in
  for_each (reconcile_key igdb_mapping) existing_keys existing_metrics.

(** The loop that writes every freshly fetched entry over the store. *)
Definition overlay (existing_metrics metrics_by_game : dict M) : dict M :=
  fold_left (fun em kv => dict_set em (fst kv) (snd kv))
            (dict_items metrics_by_game) existing_metrics.

(** The part of [main] between the fetches and the write. *)
Definition merge (igdb_mapping : dict string) (metrics_by_game : dict M)
    (types_dict : dict string) (existing_data : existing_data_t)
  : result output_t :=
  if has_members existing_data then
    let existing_metrics := default [] (existing_metrics existing_data) in
    existing_metrics ← reconcile_keys igdb_mapping existing_metrics ;
    let metrics_by_game := overlay existing_metrics metrics_by_game in
    let existing_types := default [] (existing_types existing_data) in
    let types_dict := dict_update types_dict existing_types in
    Ok {| popularity_types := types_dict;
          popularity_metrics := metrics_by_game |}
  else
    Ok {| popularity_types := types_dict;
          popularity_metrics := metrics_by_game |}.

(** The store as the next run loads it from the file [main] wrote: both
    members are there, their keys sorted; a sub-mapping comes back as it was
    written. *)
Definition reload (output : output_t) : existing_data_t :=
  {| existing_types := Some (sort_keys (popularity_types output));
     existing_metrics := Some (sort_keys (popularity_metrics output)) |}.

End merger.

Arguments existing_data_t : clear implicits.
Arguments output_t : clear implicits.

(** ** update_game_ids.py *)

Section game_ids.
(** The value of an identifier field, an integer or a string in the files.
    The scripts only compare such values, with [!=], which on integers and
    on strings is the negation of equality. *)
Context {V : Type} `{EqDecision V}.

(** *** Merge into the identifier index *)

(** The counters [extract_game_ids] reports. *)
Record merge_state : Type := MergeState {
  merged_game_ids : dict (dict V);
  new_entries : nat;
  updated_entries : nat
}.

(** The test that guards the write of one field of an entry that exists. *)
Definition field_changed (entry : dict V) (field : string) (value : V) : bool :=
  (negb (dict_mem entry field) ||
   negb (bool_decide (dict_get entry field = Some value)))%bool.

(** The inner loop, over the fields of one freshly extracted entry; the
    state is the entry in the index and [updated_entries]. *)
Definition merge_field (st : dict V * nat) (fv : string * V) : dict V * nat :=
  if field_changed (fst st) (fst fv) (snd fv)
  then (dict_set (fst st) (fst fv) (snd fv), S (snd st))
  else st.

Definition merge_fields (entry : dict V) (port_ids : dict V) (updated : nat)
  : dict V * nat :=
  fold_left merge_field (dict_items port_ids) (entry, updated).

(** The outer loop body. *)
Definition merge_entry (st : merge_state) (item : string * dict V)
  : result merge_state :=
  let port_name := fst item in
  let port_ids := snd item in
  if negb (dict_mem (merged_game_ids st) port_name) then
    Ok {| merged_game_ids := dict_set (merged_game_ids st) port_name port_ids;
          new_entries := S (new_entries st);
          updated_entries := updated_entries st |}
  else
    entry ← dict_getitem (merged_game_ids st) port_name ;
    let r := merge_fields entry port_ids (updated_entries st) in
    Ok {| merged_game_ids := dict_set (merged_game_ids st) port_name (fst r);
          new_entries := new_entries st;
          updated_entries := snd r |}.

(** The merge of [extract_game_ids]: [existing_game_ids] is the loaded index,
    [new_game_ids] what the scan of the ports found. *)
Definition merge_game_ids (existing_game_ids new_game_ids : dict (dict V))
  : result merge_state :=
  for_each merge_entry (dict_items new_game_ids)
    {| merged_game_ids := existing_game_ids;
       new_entries := 0;
       updated_entries := 0 |}.

(** *** Removal of the identifier fields *)

Definition removal_fields : list string :=
  ["igdb_id"; "steam_id"; "itchio_url"; "igdb_visits"].

(** A parsed [port.json]: its ["attr"] object, when it has one, and the rest
    of the document, which the script does not read. *)
Context {R : Type}.

Record port_json : Type := PortJson {
  attr : option (dict V);
  other_members : R
}.

(** A file, by what reading it gives: [Unparseable] is a file of text that
    is not a JSON document, on which [json.load] raises [JSONDecodeError];
    [Undecodable] is a file of bytes that are not text in the encoding, on
    which it raises [UnicodeDecodeError]; [Json] is a file that holds a JSON
    document, which is an object. *)
Inductive file_content : Type :=
| Unparseable
| Undecodable
| Json (port_data : port_json).

(** The ports directory: what [os.listdir] returns, which of these names are
    directories, and the files by (directory, file name). *)
Record ports_dir : Type := PortsDir {
  listing : list string;
  isdir : string → bool;
  files : gmap (string * string) file_content
}.

(** [os.rename(src, dst)] of an existing file; [dst] is replaced. *)
Definition rename (src dst : string * string)
    (fs : gmap (string * string) file_content)
  : gmap (string * string) file_content :=
  match fs !! src with
  | Some c => <[dst := c]> (delete src fs)
  | None => fs
  end.

(** The loop over the removal fields: the state is the document and
    [modified]. *)
Definition remove_field (st : port_json * bool) (field : string)
  : result (port_json * bool) :=
  if dict_mem (default [] (attr (fst st))) field then
    match attr (fst st) with
    | None => Raise KeyError
    | Some a =>
        a' ← dict_del a field ;
        Ok ({| attr := Some a'; other_members := other_members (fst st) |},
            true)
    end
  else Ok st.

(** The body of the loop over the ports; the state is the files and
    [modified_files]. Of the exceptions of the read, the [try] block catches
    [JSONDecodeError] alone; whatever is raised is raised before the
    iteration has touched a file. *)
Definition remove_ids_from_port (is_dir : string → bool)
    (st : gmap (string * string) file_content * nat) (port_name : string)
  : result (gmap (string * string) file_content * nat) :=
  if negb (is_dir port_name) then Ok st
  else
    let port_json_path := (port_name, "port.json") in
    match fst st !! port_json_path with
    | None => Ok st
    | Some Unparseable => Ok st
    | Some Undecodable => Raise UnicodeDecodeError
    | Some (Json port_data) =>
        match for_each remove_field removal_fields (port_data, false) with
        | Raise e => Raise e
        | Ok (port_data, modified) =>
            if modified then
              let backup_path := (port_name, "port.json" +:+ ".bak") in
              let fs := rename port_json_path backup_path (fst st) in
              let fs := <[port_json_path := Json port_data]> fs in
              Ok (fs, S (snd st))
            else Ok st
        end
    end.

(** [remove_ids_from_ports]: the files and [modified_files] when the loop
    ends, and how it ends. *)
Definition remove_ids_from_ports (d : ports_dir)
  : (gmap (string * string) file_content * nat) * result unit :=
  for_each_state (remove_ids_from_port (isdir d)) (listing d) (files d, 0%nat).

End game_ids.

Arguments merge_state : clear implicits.
Arguments port_json : clear implicits.
Arguments file_content : clear implicits.
Arguments ports_dir : clear implicits.

(** ** The rest of the scripts *)

(** *** Identifier mapping *)

(** The value of a field of [game_ids.json]. *)
Inductive json_scalar : Type :=
| JNull
| JInt (z : Z)
| JStr (s : string).

(** Truth value: [None], [0] and [''] are false. *)
Definition py_truthy (v : json_scalar) : bool :=
  match v with
  | JNull => false
  | JInt z => negb (z =? 0)%Z
  | JStr s => negb (String.eqb s "")
  end.

(** [str(v)] *)
Definition py_str (v : json_scalar) : string :=
  match v with
  | JNull => "None"
  | JInt z => pretty z
  | JStr s => s
  end.

(** The loop body of [extract_igdb_ids]: the state is [igdb_mapping] and
    [game_count]. *)
Definition extract_igdb_id (st : dict string * nat)
    (item : string * dict json_scalar) : result (dict string * nat) :=
  let game_key := fst item in
  let game_data := snd item in
  let game_count := S (snd st) in
  if dict_mem game_data "igdb_id" then
    v ← dict_getitem game_data "igdb_id" ;
    if py_truthy v then
      v ← dict_getitem game_data "igdb_id" ;
      let igdb_id := py_str v in
      Ok (dict_set (fst st) igdb_id game_key, game_count)
    else Ok (fst st, game_count)
  else Ok (fst st, game_count).

(** [extract_igdb_ids], from the parsed file on. *)
Definition extract_igdb_ids (game_ids_json : dict (dict json_scalar))
  : result (dict string) :=
  st ← for_each extract_igdb_id (dict_items game_ids_json) ([], 0%nat) ;
  Ok (fst st).

(** *** Fetching the metrics *)

(** One record of the [popularity_primitives] endpoint and one of the
    [popularity_types] endpoint, with the fields the script reads. *)
Record primitive : Type := Primitive { popularity_type : Z; value : pynum }.
Record type_record : Type := TypeRecord { type_id : Z; type_name : string }.

(** [bool(resp)] of a response is [resp.ok]: [raise_for_status] accepts it. *)
Definition response_ok (resp : response) : bool :=
  match raise_for_status resp with
  | Ok _ => true
  | Raise _ => false
  end.

(** The exceptions that are a [requests.RequestException]. *)
Definition is_request_exception (e : exn) : bool :=
  match e with
  | HTTPError | ConnectionError | InvalidJSONError => true
  | _ => false
  end.

Section fetcher.
(** [resp.json()] at either endpoint: the records of the body, or the
    exception ([ValueError]) of a body that is not JSON. *)
Variable primitives_of : response → result (list primitive).
Variable types_of : response → result (list type_record).
(** [resp.json()["access_token"]] at the token endpoint: the token, or the
    exception of a body that is not JSON or that has no such member. *)
Variable token_of : response → result string.

(** What [fetch_popularity_data] accumulates: [metrics_by_game] and
    [type_ids]. *)
Definition fetched : Type := (dict (dict pynum) * gset Z)%type.

(** The loop over the records of one game. *)
Definition record_primitive (game_key : string) (st : fetched) (p : primitive)
  : result fetched :=
  let tid := pretty (popularity_type p) in
  entry ← dict_getitem (fst st) game_key ;
  Ok (dict_set (fst st) game_key (dict_set entry tid (value p)),
      {[ popularity_type p ]} ∪ snd st).

(** The body of the loop over [igdb_mapping.items()]. *)
Definition fetch_game (t : transport) (w : world) (st : fetched)
    (item : string * string) : world * result fetched :=
  let game_key := snd item in
  let w := sleep 1 w in
  match retry_request t w with
  | (w, Raise e) => (w, Raise e)
  | (w, Ok None) => (w, Ok st)
  | (w, Ok (Some resp)) =>
      if negb (response_ok resp) then (w, Ok st)
      else
        (w,
         primitives ← primitives_of resp ;
         match primitives with
         | [] => Ok st
         | _ =>
             for_each (record_primitive game_key) primitives
               (dict_set (fst st) game_key [], snd st)
         end)
  end.

Fixpoint fetch_games (t : transport) (items : list (string * string))
    (w : world) (st : fetched) : world * result fetched :=
  match items with
  | [] => (w, Ok st)
  | item :: rest =>
      match fetch_game t w st item with
      | (w, Raise e) => (w, Raise e)
      | (w, Ok st) => fetch_games t rest w st
      end
  end.

Definition fetch_popularity_data (t : transport) (igdb_mapping : dict string)
    (w : world) : world * result fetched :=
  fetch_games t (dict_items igdb_mapping) w ([], ∅).

Definition fetch_popularity_types (t : transport) (w : world)
  : world * result (dict string) :=
  match retry_request t w with
  | (w, Raise e) => (w, Raise e)
  | (w, Ok None) => (w, Ok [])
  | (w, Ok (Some resp)) =>
      if response_ok resp then
        (w,
         types ← types_of resp ;
         Ok (fold_left
               (fun d r => dict_set d (pretty (type_id r)) (type_name r))
               types []))
      else (w, Ok [])
  end.

(** [get_access_token]: one request, outside [retry_request]; [None] stands
    for [sys.exit(1)], which ends the run when the request, the status check
    or the reading of the body raises a [RequestException]. (The client
    identifier and secret are constants of the script, and not empty.) *)
Definition get_access_token (t : transport) (w : world)
  : world * result (option string) :=
  let (w, r) :=
    match request t w with
    | (Fails, w) => (w, Raise ConnectionError)
    | (Responds resp, w) => (w, _ ← raise_for_status resp ; token_of resp)
    end in
  match r with
  | Ok token => (w, Ok (Some token))
  | Raise e => if is_request_exception e then (w, Ok None) else (w, Raise e)
  end.

(** How a run of [main] ends: [sys.exit] with a code, or the store it
    writes. *)
Inductive run_end : Type :=
| Exit (code : Z)
| Wrote (output : output_t (list (string * pynum))).

(** [main], from the parsed arguments on: [game_ids_json] is the parsed
    identifier index ([None] when the file is missing or is not JSON, the
    two failures [extract_igdb_ids] catches), [existing_data] the prior
    store (without members when there is none to load). *)
Definition main_run (t : transport)
    (game_ids_json : option (dict (dict json_scalar)))
    (existing_data : existing_data_t (list (string * pynum))) (w : world)
  : world * result run_end :=
  match get_access_token t w with
  | (w, Raise e) => (w, Raise e)
  | (w, Ok None) => (w, Ok (Exit 1))
  | (w, Ok (Some access_token)) =>
      match game_ids_json with
      | None => (w, Ok (Exit 1))
      | Some games =>
          match extract_igdb_ids games with
          | Raise e => (w, Raise e)
          | Ok [] => (w, Ok (Exit 1))
          | Ok igdb_mapping =>
              match fetch_popularity_data t igdb_mapping w with
              | (w, Raise e) => (w, Raise e)
              | (w, Ok (metrics_by_game, type_ids)) =>
                  match fetch_popularity_types t w with
                  | (w, Raise e) => (w, Raise e)
                  | (w, Ok types_dict) =>
                      (w,
                       output ← merge igdb_mapping metrics_by_game types_dict
                                  existing_data ;
                       Ok (Wrote output))
                  end
              end
          end
      end
  end.

End fetcher.

(** *** Ranking *)

(** One element of [scored_ports]: the five fields copied from the port,
    the score and the metrics under their display names. *)
Record scored_port : Type := ScoredPort {
  port_of : port;
  score : pynum;
  metrics : dict pynum
}.

(** The loop that renames the metrics: an unknown code is shown as
    ["Metric <code>"]. *)
Definition name_metric (popularity_types : dict string)
    (named_metrics : dict pynum) (kv : string * pynum) : dict pynum :=
  let metric_name :=
    default ("Metric " +:+ fst kv) (dict_get popularity_types (fst kv)) in
  dict_set named_metrics metric_name (snd kv).

(** The body of the loop over [port_data]. *)
Definition score_port
    (popularity_data : existing_data_t (list (string * pynum)))
    (p : port) : result scored_port :=
  let popularity_metrics := default [] (existing_metrics popularity_data) in
  let popularity_types := default [] (existing_types popularity_data) in
  let metrics := default [] (dict_get popularity_metrics (name p)) in
  score ← calculate_popularity_score metrics ;
  let named_metrics :=
    fold_left (name_metric popularity_types) (dict_items metrics) [] in
  Ok {| port_of := p; score := score; metrics := named_metrics |}.

(** The order of an [int] and a [float], which Python decides exactly, on
    the values; NaN is not ordered. *)
Definition int_compare_float (z : Z) (f : float) : option comparison :=
  match Prim2SF f with
  | S754_nan => None
  | S754_infinity s => Some (if s then Gt else Lt)
  | S754_zero _ => Some (z ?= 0)%Z
  | S754_finite s m e =>
      let v := if s then Zneg m else Zpos m in
      Some (if (0 <=? e)%Z then (z ?= v * 2 ^ e)%Z
            else (z * 2 ^ (- e) ?= v)%Z)
  end.

(** [x < y] *)
Definition py_lt (x y : pynum) : bool :=
  match x, y with
  | PyInt a, PyInt b => (a <? b)%Z
  | PyFloat a, PyFloat b => (a <? b)%float
  | PyInt a, PyFloat b => bool_decide (int_compare_float a b = Some Lt)
  | PyFloat a, PyInt b => bool_decide (int_compare_float b a = Some Gt)
  end.

Definition is_nan_num (x : pynum) : bool :=
  match x with
  | PyInt _ => false
  | PyFloat f => is_nan f
  end.

(** [sorted(scored_ports, key=score, reverse=True)]. Python's sort is stable,
    also in reverse: entries of equal score keep their order. When no score
    is NaN the scores are totally ordered and the result is the one list
    that is in descending order and stable, which an insertion from the
    right builds. When a score is NaN, [<] is no order: what the sort
    returns then depends on how it merges its runs, and is left out of the
    model ([None]). *)
Fixpoint insert_desc (x : scored_port) (l : list scored_port)
  : list scored_port :=
  match l with
  | [] => [x]
  | y :: l' =>
      if py_lt (score x) (score y) then y :: insert_desc x l'
      else x :: y :: l'
  end.

Definition sorted_desc (l : list scored_port) : option (list scored_port) :=
  if existsb (fun x => is_nan_num (score x)) l then None
  else Some (foldr insert_desc [] l).

(** [rank_ports_by_popularity]; [Ok None] when the ports are scored and
    their order is outside the model. *)
Definition rank_ports_by_popularity (port_data : list port)
    (popularity_data : existing_data_t (list (string * pynum)))
  : result (option (list scored_port)) :=
  scored_ports ←
    for_each (fun acc p => s ← score_port popularity_data p ; Ok (acc ++ [s]))
             port_data [] ;
  Ok (sorted_desc scored_ports).

(** *** Scanning the ports for identifiers *)

Section scan.
Context {V : Type} `{EqDecision V} {R : Type}.

Definition id_fields : list string := ["igdb_id"; "steam_id"; "itchio_url"].

(** What the scan of [extract_game_ids] accumulates. *)
Record scan_state : Type := ScanState {
  new_game_ids : dict (dict V);
  stats : dict nat;
  total_ports : nat;
  ports_with_ids : nat
}.

(** The loop over [id_fields] for one port: the state is [port_ids] and
    [stats]. *)
Definition extract_field (port_data : port_json V R) (st : dict V * dict nat)
    (field : string) : result (dict V * dict nat) :=
  if dict_mem (default [] (attr port_data)) field then
    match attr port_data with
    | None => Raise KeyError
    | Some a =>
        v ← dict_getitem a field ;
        n ← dict_getitem (snd st) field ;
        Ok (dict_set (fst st) field v, dict_set (snd st) field (S n))
    end
  else Ok st.

(** The body of the loop over the ports directory. *)
Definition scan_port (is_dir : string → bool)
    (fs : gmap (string * string) (file_content V R))
    (st : scan_state) (port_name : string) : result scan_state :=
  if negb (is_dir port_name) then Ok st
  else
    match fs !! (port_name, "port.json") with
    | None => Ok st
    | Some content =>
        let total_ports := S (total_ports st) in
        match content with
        | Unparseable =>
            Ok {| new_game_ids := new_game_ids st; stats := stats st;
                  total_ports := total_ports;
                  ports_with_ids := ports_with_ids st |}
        | Undecodable => Raise UnicodeDecodeError
        | Json port_data =>
            match for_each (extract_field port_data) id_fields ([], stats st) with
            | Raise e => Raise e
            | Ok (port_ids, stats) =>
                match port_ids with
                | [] =>
                    Ok {| new_game_ids := new_game_ids st; stats := stats;
                          total_ports := total_ports;
                          ports_with_ids := ports_with_ids st |}
                | _ =>
                    Ok {| new_game_ids :=
                            dict_set (new_game_ids st) port_name port_ids;
                          stats := stats;
                          total_ports := total_ports;
                          ports_with_ids := S (ports_with_ids st) |}
                end
            end
        end
    end.

Definition scan_ports (d : ports_dir V R) : result scan_state :=
  for_each (scan_port (isdir d) (files d)) (listing d)
    {| new_game_ids := [];
       stats := map (fun field => (field, 0%nat)) id_fields;
       total_ports := 0;
       ports_with_ids := 0 |}.

(** [extract_game_ids]: the scan, then the merge into the loaded index
    [existing_game_ids]; the merged index is what it writes. An exception
    ends the run before anything is written. *)
Definition extract_game_ids (d : ports_dir V R)
    (existing_game_ids : dict (dict V)) : result (merge_state V) :=
  scanned ← scan_ports d ;
  merge_game_ids existing_game_ids (new_game_ids scanned).

(** [main], from the parsed arguments on: the index it writes, when it gets
    that far, the files of the ports directory afterwards, and how the run
    ends. *)
Definition main_update (d : ports_dir V R) (existing_game_ids : dict (dict V))
    (remove_flag : bool)
  : option (dict (dict V)) * gmap (string * string) (file_content V R)
    * result unit :=
  match extract_game_ids d existing_game_ids with
  | Raise e => (None, files d, Raise e)
  | Ok st =>
      if remove_flag then
        let r := remove_ids_from_ports d in
        (Some (merged_game_ids st), fst (fst r), snd r)
      else (Some (merged_game_ids st), files d, Ok tt)
  end.

End scan.

Arguments scan_state : clear implicits.

(** *** The run of the ranking script *)

(** [main] of the ranking script, from the loaded files on: [None] is a file
    that is missing or is not JSON, the two failures [load_data] catches, or
    one that holds an empty document, which the script takes for a failure
    too. The result is the ranking it writes, as
    [rank_ports_by_popularity] gives it, or [None] when it returns without
    writing. *)
Definition main_rank
    (popularity_data : option (existing_data_t (list (string * pynum))))
    (ports_info : option ports_info_t) (only_rtr : bool)
    (genre_filter : option string)
  : result (option (option (list scored_port))) :=
  match popularity_data with
  | None => Ok None
  | Some popularity_data =>
      match ports_info with
      | None => Ok None
      | Some info =>
          match get_port_data (Some info) only_rtr genre_filter with
          | [] => Ok None
          | port_data =>
              ranked_ports ← rank_ports_by_popularity port_data popularity_data ;
              Ok (Some ranked_ports)
          end
      end
  end.

(** ** The specification's wording, for comparison with the code *)

(** "Σ over present metrics of value × weight(code)", where the weight is
    that of the table and 1.0 for a code the table does not list. The
    arithmetic is the program's: an integer value stands for the nearest
    [float] ([to_float]), every product and every sum is rounded, and the
    sum is taken in the order of the mapping, from 0. *)
Definition table_weight (code : string) : float :=
  match to_map METRIC_WEIGHTS !! code with
  | Some w => w
  | None => 1%float
  end.

Definition to_float (x : pynum) : float :=
  match x with
  | PyInt z => SF2Prim (binary_normalize prec emax z 0 false)
  | PyFloat f => f
  end.

Definition weighted_sum (metrics : dict pynum) : float :=
  fold_left
    (fun sum kv => (sum + to_float (snd kv) * table_weight (fst kv))%float)
    metrics 0%float.

(** "max weight in the table" *)
Definition is_max_weight (m : float) : Prop :=
  m ∈ dict_values METRIC_WEIGHTS ∧
  ∀ w, w ∈ dict_values METRIC_WEIGHTS → (w <=? m)%float = true.

(** "score = Σ divided by (count of present metrics × max weight); entries
    with zero metrics score exactly 0" *)
Definition spec_score (max_weight : float) (metrics : dict pynum) : pynum :=
  match metrics with
  | [] => PyInt 0
  | _ =>
      PyFloat (weighted_sum metrics /
               (to_float (PyInt (Z.of_nat (length metrics))) * max_weight))%float
  end.

(** The numbers of a mapping are within the range of a [float]: every
    integer among the values converts, and so does the count of the
    metrics. *)
Definition in_float_range (metrics : dict pynum) : Prop :=
  (∀ kv, kv ∈ metrics → ∃ f, as_float (snd kv) = Ok f) ∧
  ∃ n, float_of_int (Z.of_nat (length metrics)) = Ok n.

(** The ready-to-run test and the genre test of the filter, and their
    conjunction. The genre is compared in lower case for equality with a
    member of the entry's genres; a genre counts as given when the argument
    is a non-empty string. *)
Definition passes_rtr (only_rtr : bool) (port_info : port_info_t) : Prop :=
  only_rtr = true → attr_rtr (get_attr port_info) = Some true.

Definition passes_genre (genre_filter : option string) (port_info : port_info_t)
  : Prop :=
  ∀ genre, genre_filter = Some genre → genre ≠ "" →
    ∃ g, g ∈ default [] (attr_genres (get_attr port_info)) ∧ lower g = lower genre.

Definition retained (only_rtr : bool) (genre_filter : option string)
    (item : string * port_info_t) : Prop :=
  passes_rtr only_rtr (snd item) ∧ passes_genre genre_filter (snd item).

(** The element of the result that a retained catalogue entry becomes. *)
Definition make_port (item : string * port_info_t) : port :=
  let a := get_attr (snd item) in
  {| name := remove_zip (fst item);
     title := default (remove_zip (fst item)) (attr_title a);
     rtr := default false (attr_rtr a);
     genres := default [] (attr_genres a);
     availability := attr_availability a |}.

(** A failed attempt, in each of its classes: a network-level exception, or
    a response whose status [raise_for_status] rejects (the bad-request
    status 400 among them). *)
Definition failed (o : outcome) : Prop :=
  match o with
  | Fails => True
  | Responds resp => raise_for_status resp = Raise HTTPError
  end.

(** A legacy key of the store: a purely numeric key that the current
    external-identifier mapping knows. *)
Definition legacy (igdb_mapping : dict string) (key : string) : bool :=
  (isdigit key && dict_mem igdb_mapping key)%bool.

(** No entry name of the run (a name the identifier mapping maps to, or a key
    of the fetched metrics) is itself a legacy key. *)
Definition names_not_legacy {M : Type} (igdb_mapping : dict string)
    (metrics_by_game : dict M) : Prop :=
  ∀ key, legacy igdb_mapping key = true →
    (key ∉ dict_values igdb_mapping) ∧ (key ∉ dict_keys metrics_by_game).

(** Two written stores hold the same mappings. *)
Definition same_store {M : Type} (o1 o2 : output_t M) : Prop :=
  to_map (popularity_types o1) = to_map (popularity_types o2) ∧
  to_map (popularity_metrics o1) = to_map (popularity_metrics o2).

(** The fields of a freshly extracted entry whose value differs from the
    index entry's or that the index entry lacks, counted. *)
Definition changed_fields {V : Type} `{EqDecision V} (entry port_ids : dict V)
  : nat :=
  length (filter (fun fv => dict_get entry (fst fv) ≠ Some (snd fv)) port_ids).

(** The freshly extracted entries that the index did not have, counted, and
    the changed fields of those it had. *)
Definition new_count {V : Type} (existing new : dict (dict V)) : nat :=
  length (filter (fun item => dict_get existing (fst item) = None) new).

Definition updated_count {V : Type} `{EqDecision V}
    (existing new : dict (dict V)) : nat :=
  sum_list_with
    (fun item =>
       match dict_get existing (fst item) with
       | Some entry => changed_fields entry (snd item)
       | None => 0%nat
       end) new.

(** A document has one of the removal fields; the document without them;
    and the files after the removal has handled one port directory. *)
Definition has_removal_field {V R : Type} (port_data : port_json V R) : bool :=
  existsb (dict_mem (default [] (attr port_data))) removal_fields.

Definition without_removal_fields {V R : Type} (port_data : port_json V R)
  : port_json V R :=
  {| attr := filter (fun kv => fst kv ∉ removal_fields) <$> attr port_data;
     other_members := other_members port_data |}.

(** The metadata of a listed port cannot be read: its directory has a
    [port.json] that is not text in the encoding. The run ends there. *)
Definition unreadable {V R : Type} (is_dir : string → bool)
    (fs : gmap (string * string) (file_content V R)) (port_name : string)
  : bool :=
  is_dir port_name &&
  match fs !! (port_name, "port.json") with
  | Some Undecodable => true
  | _ => false
  end.

(** The names of a listing that a run gets to: those before the first whose
    metadata cannot be read. *)
Fixpoint handled {V R : Type} (is_dir : string → bool)
    (fs : gmap (string * string) (file_content V R)) (names : list string)
  : list string :=
  match names with
  | [] => []
  | port_name :: rest =>
      if unreadable is_dir fs port_name then []
      else port_name :: handled is_dir fs rest
  end.

(** The metadata of every listed port can be read. *)
Definition all_readable {V R : Type} (d : ports_dir V R) : Prop :=
  ∀ q, q ∈ listing d → unreadable (isdir d) (files d) q = false.

Definition processed {V R : Type} (is_dir : string → bool) (port_name : string)
    (fs : gmap (string * string) (file_content V R))
  : gmap (string * string) (file_content V R) :=
  if is_dir port_name then
    match fs !! (port_name, "port.json") with
    | Some (Json port_data) =>
        if has_removal_field port_data then
          <[(port_name, "port.json") := Json (without_removal_fields port_data)]>
            (<[(port_name, "port.json.bak") := Json port_data]>
               (delete (port_name, "port.json") fs))
        else fs
    | _ => fs
    end
  else fs.

(** ** Sample data *)

(** One entry's metrics, as the store holds them. *)
Abbreviation metrics_t := (list (string * pynum)) (only parsing).

Definition sample_metrics : metrics_t := [("1", PyInt 12); ("3", PyFloat 4.5)].
Definition sample_fresh_metrics : metrics_t := [("1", PyInt 15)].

(** A run whose identifier mapping sends the ids 7 and 2048 to the ports
    "2048" and "foo", over a store that still has the legacy key 7. *)
Definition chained_mapping : dict string := [("7", "2048"); ("2048", "foo")].

Definition chained_prior : existing_data_t metrics_t :=
  {| existing_types := Some [("1", "Visits")];
     existing_metrics := Some [("7", sample_metrics)] |}.

(** A run over a store with one legacy key and one canonical key. *)
Definition sample_mapping : dict string := [("123", "doom"); ("456", "celeste")].

Definition sample_prior : existing_data_t metrics_t :=
  {| existing_types := Some [("1", "Visits"); ("3", "Playing")];
     existing_metrics :=
       Some [("celeste", sample_metrics); ("123", sample_metrics)] |}.

Definition sample_fresh : dict metrics_t := [("celeste", sample_fresh_metrics)].

Definition sample_types : dict string := [("1", "Page visits"); ("4", "Played")].

(** An identifier index and a scan of the ports that changes one field of
    an entry, adds a field to it, and brings one new entry. *)
Definition sample_index : dict (dict string) :=
  [ ("doom", [("igdb_id", "123"); ("steam_id", "2280")]);
    ("quake", [("steam_id", "2310")]) ].

Definition sample_scan : dict (dict string) :=
  [ ("doom", [("igdb_id", "379"); ("steam_id", "2280"); ("itchio_url", "u")]);
    ("celeste", [("igdb_id", "26226")]) ].

(** A ports directory with three ports: one whose metadata has identifier
    fields, one whose metadata has none, one whose metadata does not parse. *)
Definition sample_port_json : port_json string (list string) :=
  {| attr := Some [("title", "Doom"); ("igdb_id", "379"); ("rtr", "false");
                   ("igdb_visits", "8")];
     other_members := ["doom.sh"] |}.

Definition sample_ports_dir : ports_dir string (list string) :=
  {| listing := ["doom"; "quake"; "broken"; "README.md"];
     isdir := fun n => negb (String.eqb n "README.md");
     files :=
       {[ ("doom", "port.json") := Json sample_port_json;
          ("doom", "doom.sh") := Unparseable;
          ("quake", "port.json") :=
             Json {| attr := Some [("title", "Quake")]; other_members := [] |};
          ("broken", "port.json") := Unparseable ]} |}.

(** A ports directory whose second port has metadata that is not text: the
    scripts get to the first port and end at the second with an exception,
    before the third. *)
Definition garbled_ports_dir : ports_dir string (list string) :=
  {| listing := ["doom"; "garbled"; "quake"];
     isdir := fun _ => true;
     files :=
       {[ ("doom", "port.json") := Json sample_port_json;
          ("garbled", "port.json") := Undecodable;
          ("quake", "port.json") :=
             Json {| attr := Some [("title", "Quake"); ("steam_id", "2310")];
                     other_members := [] |} ]} |}.

(** ** What the further properties speak of *)

(** The exponential backoff of an attempt, in seconds. *)
Definition backoff (attempts : list nat) : list Z :=
  map (fun a => (2 ^ Z.of_nat a)%Z) attempts.

(** A game claims a key of the identifier mapping: its identifier is set
    (present and true) and reads as that key. *)
Definition claims_id (igdb_id : string) (item : string * dict json_scalar)
  : Prop :=
  ∃ v, dict_get (snd item) "igdb_id" = Some v ∧ py_truthy v = true ∧
       py_str v = igdb_id.

(** The metrics of one game, as the records of its answer give them. *)
Definition metrics_of (primitives : list primitive) (entry : dict pynum)
  : dict pynum :=
  fold_left (fun e p => dict_set e (pretty (popularity_type p)) (value p))
            primitives entry.

(** What holds of the accumulated metrics throughout the sweep: the keys are
    unique and among the given entry names, no entry is empty, and every
    metric code of an entry is the decimal of a code in [type_ids]. *)
Definition fetch_inv (names : list string) (st : fetched) : Prop :=
  dict_wf (fst st) ∧
  ∀ g m, dict_get (fst st) g = Some m →
    g ∈ names ∧ m ≠ [] ∧
    ∀ tid v, dict_get m tid = Some v → ∃ z, z ∈ snd st ∧ pretty z = tid.

(** The metrics stored for a port, the score of the port by the formula,
    and the entry that the loop computes for it. *)
Definition port_metrics
    (popularity_data : existing_data_t (list (string * pynum))) (p : port)
  : dict pynum :=
  default [] (dict_get (default [] (existing_metrics popularity_data)) (name p)).

Definition entry_score
    (popularity_data : existing_data_t (list (string * pynum))) (p : port)
  : pynum :=
  spec_score 5%float (port_metrics popularity_data p).

Definition scored_entry
    (popularity_data : existing_data_t (list (string * pynum))) (p : port)
  : scored_port :=
  {| port_of := p;
     score := entry_score popularity_data p;
     metrics :=
       fold_left (name_metric (default [] (existing_types popularity_data)))
         (port_metrics popularity_data p) [] |}.

(** A port can be ranked: the numbers of its metrics are within the range of
    a [float], and its score is not NaN. *)
Definition rankable
    (popularity_data : existing_data_t (list (string * pynum))) (p : port)
  : Prop :=
  in_float_range (port_metrics popularity_data p) ∧
  is_nan_num (entry_score popularity_data p) = false.

(** [x <= y] and [x == y] between scores, as [<] decides them. *)
Definition py_le (x y : pynum) : Prop := py_lt y x = false.
Definition py_eq (x y : pynum) : Prop := py_lt x y = false ∧ py_lt y x = false.

(** The identifier fields of an ["attr"] object, in the order of
    [id_fields]. *)
Definition port_ids_of {V : Type} (a : dict V) : dict V :=
  omap (fun field => pair field <$> dict_get a field) id_fields.

(** What the scan records for a name of the listing. *)
Definition scanned_ids {V R : Type} (is_dir : string → bool)
    (fs : gmap (string * string) (file_content V R)) (port_name : string)
  : option (dict V) :=
  if is_dir port_name then
    match fs !! (port_name, "port.json") with
    | Some (Json port_data) =>
        match port_ids_of (default [] (attr port_data)) with
        | [] => None
        | port_ids => Some port_ids
        end
    | _ => None
    end
  else None.

(** The counters have a cell for every identifier field. *)
Definition stats_ok (stats : dict nat) : Prop :=
  ∀ field, field ∈ id_fields → is_Some (dict_get stats field).

(** A string has a dot. *)
Fixpoint has_dot (s : string) : bool :=
  match s with
  | EmptyString => false
  | String c s' => (Ascii.eqb c "." || has_dot s')%bool
  end.

(** ** More sample data *)

(** A [game_ids.json] with an integer identifier, an unset one and a text
    identifier. *)
Definition sample_game_ids : dict (dict json_scalar) :=
  [ ("doom", [("igdb_id", JInt 379); ("steam_id", JInt 2280)]);
    ("nameless", [("igdb_id", JInt 0)]);
    ("celeste", [("steam_id", JInt 504230); ("igdb_id", JStr "26226")]) ].

(** A transport that answers every request with status 200, and parsers that
    read one record of type 3, value 12, and one type name from any body. *)
Definition sample_transport : transport :=
  fun _ => Responds (Response 200 "[...]").

Definition sample_primitives_of (resp : response) : result (list primitive) :=
  Ok [Primitive 3 (PyFloat 12)].

Definition sample_types_of (resp : response) : result (list type_record) :=
  Ok [TypeRecord 3 "Playing"].

(** A network without answers, and one that answers the first request and
    no other; a token endpoint whose body holds a token. *)
Definition dead_transport : transport := fun _ => Fails.

Definition token_transport : transport :=
  fun n => match n with
           | O => Responds (Response 200 "{...}")
           | S _ => Fails
           end.

Definition sample_token_of (resp : response) : result string := Ok "token".

(** Three ports of the catalogue: the store of the sample run has metrics
    for the second alone. *)
Definition sample_ports : list port :=
  [ Port "quake" "Quake" true ["fps"] None;
    Port "celeste" "Celeste" true ["platformer"] None;
    Port "doom" "Doom" false ["fps"] None ].

(** * Properties *)

(** ** Dictionaries *)

Section dict_facts.
Context {V : Type}.
Implicit Types (d : dict V) (k : string) (v : V).

Lemma to_map_lookup d k : to_map d !! k = dict_get d k.
Proof.
  unfold to_map. induction d as [|[k' v'] d IH]; simpl; [done|].
  destruct (decide (k' = k)) as [->|Hne].
  - by rewrite lookup_insert_eq.
  - by rewrite lookup_insert_ne.
Qed.

Lemma dict_mem_true d k : dict_mem d k = true ↔ is_Some (dict_get d k).
Proof.
  unfold dict_mem. destruct (dict_get d k) as [v|]; split; intros H.
  - by exists v.
  - done.
  - done.
  - by destruct H.
Qed.

Lemma dict_mem_false d k : dict_mem d k = false ↔ dict_get d k = None.
Proof. unfold dict_mem. by destruct (dict_get d k). Qed.

Lemma dict_mem_keys d k : dict_mem d k = true ↔ k ∈ dict_keys d.
Proof.
  rewrite dict_mem_true. unfold dict_keys.
  induction d as [|[k' v'] d IH]; simpl.
  - split; [by intros [? ?] | by intros ?%elem_of_nil].
  - rewrite elem_of_cons. destruct (decide (k' = k)) as [->|Hne].
    + split; [by left | by eexists].
    + rewrite IH. split; [by right | by intros [->|?]].
Qed.

Lemma dict_get_set d k v k' :
  dict_get (dict_set d k v) k' = if decide (k = k') then Some v else dict_get d k'.
Proof.
  induction d as [|[k0 v0] d IH]; simpl.
  - by destruct (decide (k = k')).
  - destruct (decide (k0 = k)) as [->|Hne]; simpl.
    + by destruct (decide (k = k')).
    + rewrite IH. destruct (decide (k0 = k')) as [->|Hne'];
        destruct (decide (k = k')); congruence.
Qed.

Lemma dict_get_remove d k k' :
  dict_get (dict_remove d k) k' = if decide (k = k') then None else dict_get d k'.
Proof.
  induction d as [|[k0 v0] d IH]; simpl.
  - by destruct (decide (k = k')).
  - destruct (decide (k0 = k)) as [->|Hne]; simpl.
    + rewrite IH. by destruct (decide (k = k')).
    + rewrite IH. destruct (decide (k0 = k')) as [->|Hne'];
        destruct (decide (k = k')); congruence.
Qed.

Lemma dict_keys_set d k v :
  dict_keys (dict_set d k v) =
  if dict_mem d k then dict_keys d else dict_keys d ++ [k].
Proof.
  unfold dict_keys, dict_mem. induction d as [|[k0 v0] d IH]; simpl; [done|].
  destruct (decide (k0 = k)) as [->|Hne]; simpl; [done|].
  rewrite IH. by destruct (dict_get d k).
Qed.

Lemma dict_keys_remove d k k' :
  k' ∈ dict_keys (dict_remove d k) ↔ k' ∈ dict_keys d ∧ k' ≠ k.
Proof.
  rewrite <- !dict_mem_keys, !dict_mem_true, dict_get_remove.
  destruct (decide (k = k')) as [->|Hne].
  - split; [by intros [? ?] | by intros [_ ?]].
  - split; [intros H; split; [done | congruence] | by intros [? _]].
Qed.

Lemma dict_wf_set d k v : dict_wf d → dict_wf (dict_set d k v).
Proof.
  unfold dict_wf. intros Hwf. rewrite dict_keys_set.
  destruct (dict_mem d k) eqn:Hm; [done|].
  apply NoDup_app. split; [done|]. split; [|apply NoDup_singleton].
  intros x Hx ->%list_elem_of_singleton.
  apply dict_mem_keys in Hx. congruence.
Qed.

Lemma dict_wf_remove d k : dict_wf d → dict_wf (dict_remove d k).
Proof.
  unfold dict_wf, dict_keys. induction d as [|[k0 v0] d IH]; simpl; [done|].
  intros [Hnin Hnd]%NoDup_cons. destruct (decide (k0 = k)); simpl; [by apply IH|].
  apply NoDup_cons. split; [|by apply IH].
  intros Hin. apply Hnin. by apply (dict_keys_remove d k k0).
Qed.

Lemma dict_get_None_keys d k : dict_get d k = None ↔ k ∉ dict_keys d.
Proof.
  rewrite <- dict_mem_keys, <- dict_mem_false. by destruct (dict_mem d k).
Qed.

(** Writing the items of one dictionary over another, as the loops of the
    scripts and [dict.update] do. *)
Lemma dict_get_fold_set (other : dict V) d k :
  dict_wf other →
  dict_get (fold_left (fun acc kv => dict_set acc (fst kv) (snd kv)) other d) k =
  match dict_get other k with Some v => Some v | None => dict_get d k end.
Proof.
  unfold dict_wf, dict_keys. revert d.
  induction other as [|[k0 v0] other IH]; intros d Hwf; simpl; [done|].
  apply NoDup_cons in Hwf as [Hnin Hnd].
  rewrite IH by done. rewrite dict_get_set. cbn [fst snd].
  destruct (decide (k0 = k)) as [->|Hne]; [|done].
  simpl in Hnin. apply dict_get_None_keys in Hnin. by rewrite Hnin.
Qed.

Lemma dict_wf_fold_set (other : dict V) d :
  dict_wf d →
  dict_wf (fold_left (fun acc kv => dict_set acc (fst kv) (snd kv)) other d).
Proof.
  revert d. induction other as [|[k0 v0] other IH]; intros d Hwf; simpl; [done|].
  apply IH. by apply dict_wf_set.
Qed.

Lemma dict_fold_set_keeps (other : dict V) d k :
  is_Some (dict_get d k) →
  is_Some (dict_get (fold_left (fun acc kv => dict_set acc (fst kv) (snd kv))
                               other d) k).
Proof.
  revert d. induction other as [|[k0 v0] other IH]; intros d Hk; simpl; [done|].
  apply IH. rewrite dict_get_set. by destruct (decide (k0 = k)).
Qed.

Lemma dict_get_update d other k :
  dict_wf other →
  dict_get (dict_update d other) k =
  match dict_get other k with Some v => Some v | None => dict_get d k end.
Proof. apply dict_get_fold_set. Qed.

(** Sorting the keys changes the order of a dictionary only. *)
Lemma sort_keys_perm d : sort_keys d ≡ₚ d.
Proof. unfold sort_keys. apply merge_sort_Permutation. Qed.

Lemma dict_wf_sort_keys d : dict_wf d → dict_wf (sort_keys d).
Proof.
  unfold dict_wf, dict_keys. intros Hwf.
  by rewrite (fmap_Permutation fst _ _ (sort_keys_perm d)).
Qed.

Lemma dict_get_sort_keys d k :
  dict_wf d → dict_get (sort_keys d) k = dict_get d k.
Proof.
  intros Hwf. rewrite <- !to_map_lookup. unfold to_map.
  rewrite (list_to_map_proper (M := gmap string) (sort_keys d) d); [done| |].
  - by apply dict_wf_sort_keys.
  - apply sort_keys_perm.
Qed.

End dict_facts.

(** ** Binary64 rounding *)

Section rounding.
Local Open Scope Z_scope.

Lemma digits2_pos_log2 (p : positive) :
  Zpos (digits2_pos p) = Z.log2 (Zpos p) + 1.
Proof.
  induction p as [p IH|p IH|]; simpl; [| |done].
  - destruct p; simpl in *; lia.
  - destruct p; simpl in *; lia.
Qed.

Lemma shr_1_m (mrs : shr_record) :
  0 ≤ shr_m mrs → shr_m (shr_1 mrs) = Z.div2 (shr_m mrs).
Proof.
  destruct mrs as [m r s]; simpl. intros Hm.
  destruct m as [|[p|p|]|p]; simpl; try done; lia.
Qed.

Lemma iter_shr_1_m (k : positive) (mrs : shr_record) :
  0 ≤ shr_m mrs →
  shr_m (SpecFloat.iter_pos shr_1 k mrs) = Z.shiftr (shr_m mrs) (Zpos k).
Proof.
  revert mrs. induction k as [k IH|k IH|]; intros mrs Hm; simpl SpecFloat.iter_pos.
  - assert (H1 : 0 ≤ shr_m (shr_1 mrs)).
    { rewrite shr_1_m by done. apply Z.div2_nonneg. done. }
    assert (H2 : 0 ≤ shr_m (SpecFloat.iter_pos shr_1 k (shr_1 mrs))).
    { rewrite IH by done. apply Z.shiftr_nonneg. done. }
    rewrite IH by done. rewrite IH by done. rewrite shr_1_m by done.
    rewrite Z.div2_spec. rewrite !Z.shiftr_shiftr by lia.
    f_equal. lia.
  - assert (H2 : 0 ≤ shr_m (SpecFloat.iter_pos shr_1 k mrs)).
    { rewrite IH by done. apply Z.shiftr_nonneg. done. }
    rewrite IH by done. rewrite IH by done.
    rewrite !Z.shiftr_shiftr by lia. f_equal. lia.
  - rewrite shr_1_m by done. by rewrite Z.div2_spec.
Qed.

Lemma round_nearest_even_cases (m : Z) (l : location) :
  round_nearest_even m l = m ∨ round_nearest_even m l = m + 1.
Proof.
  destruct l as [|[]]; simpl; auto. destruct (Z.even m); auto.
Qed.

Lemma shr_record_of_loc_m m l : shr_m (shr_record_of_loc m l) = m.
Proof. by destruct l as [|[]]. Qed.

Lemma shr_fexp_spec (m e : Z) (l : location) :
  0 ≤ m →
  let k := fexp prec emax (Zdigits2 m + e) - e in
  shr_fexp prec emax m e l =
  if decide (0 < k)
  then (SpecFloat.iter_pos shr_1 (Z.to_pos k) (shr_record_of_loc m l), e + k)
  else (shr_record_of_loc m l, e).
Proof.
  intros Hm k. unfold shr_fexp. fold k. unfold shr.
  destruct k as [|p|p]; simpl; done.
Qed.

Lemma shr_fexp_m (m e : Z) (l : location) :
  0 ≤ m →
  let k := fexp prec emax (Zdigits2 m + e) - e in
  shr_m (fst (shr_fexp prec emax m e l)) = (if decide (0 < k) then Z.shiftr m k else m) ∧
  snd (shr_fexp prec emax m e l) = (if decide (0 < k) then e + k else e).
Proof.
  intros Hm k. rewrite shr_fexp_spec by done. fold k.
  destruct (decide (0 < k)) as [Hk|Hk]; simpl.
  - rewrite iter_shr_1_m by (rewrite shr_record_of_loc_m; done).
    rewrite shr_record_of_loc_m. rewrite Z2Pos.id by done. done.
  - by rewrite shr_record_of_loc_m.
Qed.

Lemma Zdigits2_log2 (m : Z) : 0 < m → Zdigits2 m = Z.log2 m + 1.
Proof. destruct m as [|p|p]; try lia. intros _. apply digits2_pos_log2. Qed.

Ltac fnum :=
  unfold fexp, SpecFloat.emin, prec, emax in *;
  change IntDef.Z.max with Z.max in *;
  change IntDef.Z.sub with Z.sub in *;
  change IntDef.Z.add with Z.add in *.

(** Rounding a positive mantissa of at least [prec] digits, in the normal
    range: the result is a normal number, or the infinity. *)
Lemma binary_round_aux_normal (mx : positive) (ex : Z) :
  prec ≤ Zpos (digits2_pos mx) →
  emin ≤ Zpos (digits2_pos mx) + ex - prec →
  ∃ m e, Zpos (digits2_pos m) = prec ∧
    Zpos (digits2_pos mx) + ex - prec ≤ e ≤ Zpos (digits2_pos mx) + ex - prec + 1 ∧
    binary_round_aux prec emax false (Zpos mx) ex loc_Exact =
    if e <=? emax - prec then S754_finite false m e else S754_infinity false.
Proof.
  intros Hd Hn. remember (Zpos (digits2_pos mx)) as d eqn:Hd0.
  assert (Hlog : Z.log2 (Zpos mx) = d - 1) by (rewrite digits2_pos_log2 in Hd0; lia).
  assert (Hf : fexp prec emax (d + ex) - ex = d - prec) by (fnum; lia).
  unfold binary_round_aux.
  rewrite (shr_fexp_spec (Zpos mx) ex loc_Exact) by lia.
  simpl Zdigits2. rewrite <- Hd0. rewrite Hf.
  destruct (decide (0 < d - prec)) as [Hk|Hk]; cbv beta iota zeta.
  - set (mrs' := SpecFloat.iter_pos shr_1 (Z.to_pos (d - prec))
                   (shr_record_of_loc (Zpos mx) loc_Exact)).
    assert (Hm1 : shr_m mrs' = Z.shiftr (Zpos mx) (d - prec)).
    { unfold mrs'. rewrite iter_shr_1_m by (simpl; lia). simpl shr_m.
      by rewrite Z2Pos.id. }
    assert (Hne : shr_m mrs' ≠ 0).
    { rewrite Hm1, Z.shiftr_eq_0_iff. fnum. lia. }
    assert (Hnn : 0 ≤ shr_m mrs') by (rewrite Hm1; apply Z.shiftr_nonneg; lia).
    assert (Hl : Z.log2 (shr_m mrs') = prec - 1).
    { rewrite Hm1, Z.log2_shiftr by lia. fnum. lia. }
    pose proof (Z.log2_spec (shr_m mrs') ltac:(lia)) as Hs. rewrite Hl in Hs.
    replace (Z.succ (prec - 1)) with prec in Hs by lia.
    set (mr := round_nearest_even (shr_m mrs') (loc_of_shr_record mrs')).
    assert (Hr : mr = shr_m mrs' ∨ mr = shr_m mrs' + 1) by apply round_nearest_even_cases.
    rewrite (shr_fexp_spec mr) by lia.
    destruct (decide (mr < 2 ^ prec)) as [Hlt|Hge].
    + assert (Hlr : Z.log2 mr = prec - 1).
      { apply Z.log2_unique; [fnum; lia|].
        replace (Z.succ (prec - 1)) with prec by lia. lia. }
      rewrite Zdigits2_log2 by lia. rewrite Hlr.
      rewrite decide_False by (fnum; lia). cbv beta iota zeta.
      rewrite shr_record_of_loc_m.
      destruct mr as [|pr|pr] eqn:Hmr; [lia| |lia].
      exists pr, (ex + (d - prec)). rewrite digits2_pos_log2, Hlr.
      split; [lia|]. split; [lia|done].
    + assert (Hmr : mr = 2 ^ prec) by lia.
      rewrite Hmr.
      change (Zdigits2 (2 ^ prec)) with (prec + 1).
      assert (Hf2 : fexp prec emax (prec + 1 + (ex + (d - prec))) - (ex + (d - prec)) = 1)
        by (fnum; lia).
      rewrite Hf2. rewrite decide_True by lia. cbv beta iota zeta.
      change (shr_m (SpecFloat.iter_pos shr_1 (Z.to_pos 1)
                       (shr_record_of_loc (2 ^ prec) loc_Exact)))
        with (Zpos (Z.to_pos (2 ^ (prec - 1)))).
      cbv beta iota.
      exists (Z.to_pos (2 ^ (prec - 1))), (ex + (d - prec) + 1).
      split; [done|]. split; [lia|done].
  - assert (Hdp : d = prec) by lia.
    change (round_nearest_even (shr_m (shr_record_of_loc (Zpos mx) loc_Exact))
              (loc_of_shr_record (shr_record_of_loc (Zpos mx) loc_Exact)))
      with (Zpos mx).
    rewrite (shr_fexp_spec (Zpos mx)) by lia. simpl Zdigits2. rewrite <- Hd0.
    rewrite Hf. rewrite decide_False by done. cbv beta iota zeta.
    simpl shr_m. cbv beta iota.
    exists mx, ex. rewrite <- Hd0. split; [done|]. split; [lia|done].
Qed.

Lemma iter_xO_pow2 (p k : positive) :
  Zpos (Pos.iter xO p k) = Zpos p * 2 ^ Zpos k.
Proof.
  induction k as [|k IH] using Pos.peano_ind.
  - simpl. lia.
  - rewrite Pos.iter_succ, Pos2Z.inj_xO, IH, Pos2Z.inj_succ, Z.pow_succ_r by lia. lia.
Qed.

(** The conversion of a positive integer: a normal number, of exponent -52
    at least, or the infinity. *)
Lemma binary_normalize_pos (p : positive) :
  ∃ m e, Zpos (digits2_pos m) = prec ∧ - 52 ≤ e ∧
    binary_normalize prec emax (Zpos p) 0 false =
    if e <=? emax - prec then S754_finite false m e else S754_infinity false.
Proof.
  unfold binary_normalize, binary_round.
  remember (Zpos (digits2_pos p)) as d eqn:Hd0.
  assert (Hd1 : 1 ≤ d) by lia.
  assert (Hf : fexp prec emax (d + 0) = d - prec) by (fnum; lia).
  rewrite Hf. unfold shl_align.
  destruct (d - prec - 0) as [|k|k] eqn:Hk.
  - destruct (binary_round_aux_normal p 0) as (m & e & Hm & He & Hr);
      rewrite <- ?Hd0; [fnum; lia|fnum; lia|].
    exists m, e. rewrite <- Hd0 in He. split; [done|]. split; [fnum; lia|done].
  - destruct (binary_round_aux_normal p 0) as (m & e & Hm & He & Hr);
      rewrite <- ?Hd0; [fnum; lia|fnum; lia|].
    exists m, e. rewrite <- Hd0 in He. split; [done|]. split; [fnum; lia|done].
  - assert (Hdig : Zpos (digits2_pos (Pos.iter xO p k)) = prec).
    { rewrite digits2_pos_log2, iter_xO_pow2, Z.log2_mul_pow2 by lia.
      rewrite digits2_pos_log2 in Hd0. fnum. lia. }
    destruct (binary_round_aux_normal (Pos.iter xO p k) (d - prec))
      as (m & e & Hm & He & Hr); rewrite ?Hdig; [lia|fnum; lia|].
    exists m, e. rewrite Hdig in He. split; [done|]. split; [fnum; lia|done].
Qed.

(** The product of two normal numbers of exponent -52 at least is a normal
    number or the infinity: it is neither zero nor negative. *)
Lemma SFmul_normal (m : positive) (e : Z) (mw : positive) (ew : Z) :
  Zpos (digits2_pos m) = prec → - 52 ≤ e →
  Zpos (digits2_pos mw) = prec → - 52 ≤ ew →
  ∃ m' e',
    SFmul prec emax (S754_finite false m e) (S754_finite false mw ew) =
    if e' <=? emax - prec then S754_finite false m' e' else S754_infinity false.
Proof.
  intros Hm He Hmw Hew. unfold SFmul. simpl xorb.
  assert (Hd : 2 * prec - 1 ≤ Zpos (digits2_pos (m * mw))).
  { rewrite digits2_pos_log2 in *. rewrite Pos2Z.inj_mul.
    pose proof (Z.log2_mul_below (Zpos m) (Zpos mw) ltac:(lia) ltac:(lia)). lia. }
  destruct (binary_round_aux_normal (m * mw) (e + ew)) as (m' & e' & _ & _ & Hr);
    [fnum; lia|fnum; lia|].
  by exists m', e'.
Qed.

(** [float(z)] of a positive integer, when it does not overflow. *)
Lemma float_of_int_pos (p : positive) (f : float) :
  float_of_int (Zpos p) = Ok f →
  ∃ m e, Prim2SF f = S754_finite false m e ∧
         Zpos (digits2_pos m) = prec ∧ - 52 ≤ e.
Proof.
  unfold float_of_int.
  destruct (binary_normalize_pos p) as (m & e & Hm & He & ->).
  destruct (e <=? emax - prec) eqn:Hle; [|done].
  intros [= <-]. exists m, e. split; [|done].
  change (Z.ldexp (of_uint63 (of_pos m)) e) with (SF2Prim (S754_finite false m e)).
  apply Prim2SF_SF2Prim. unfold valid_binary, bounded, canonical_mantissa.
  rewrite Hm, Hle, andb_true_r. apply Z.eqb_eq. fnum. lia.
Qed.

End rounding.

(** ** The score *)

Lemma max_weight_shipped : py_max (dict_values METRIC_WEIGHTS) = Ok 5%float.
Proof. reflexivity. Qed.

Lemma max_weight_in_table : (5%float : float) ∈ dict_values METRIC_WEIGHTS.
Proof. simpl. do 2 apply list_elem_of_further. apply list_elem_of_here. Qed.

Lemma is_max_weight_5 : is_max_weight 5%float.
Proof.
  split.
  - apply max_weight_in_table.
  - intros w Hw. simpl in Hw.
    repeat (apply elem_of_cons in Hw as [->|Hw]; [reflexivity|]).
    by apply elem_of_nil in Hw.
Qed.

Lemma is_max_weight_unique (m : float) : is_max_weight m → m = 5%float.
Proof.
  intros [Hin Hmax]. specialize (Hmax 5%float).
  specialize (Hmax max_weight_in_table). simpl in Hin.
  repeat (apply elem_of_cons in Hin as [->|Hin]; [done || (vm_compute in Hmax; done)|]).
  by apply elem_of_nil in Hin.
Qed.

Lemma weight_of_table (code : string) : weight_of code = table_weight code.
Proof.
  unfold weight_of, table_weight. rewrite to_map_lookup.
  by destruct (dict_get METRIC_WEIGHTS code).
Qed.

(** A conversion raises nothing but [OverflowError]. *)
Lemma as_float_cases (x : pynum) :
  as_float x = Ok (to_float x) ∨ as_float x = Raise OverflowError.
Proof.
  destruct x as [z|f]; simpl; [|by left]. unfold float_of_int.
  destruct (binary_normalize prec emax z 0 false); auto.
Qed.

Lemma as_float_to_float (x : pynum) (f : float) :
  as_float x = Ok f → to_float x = f.
Proof. destruct (as_float_cases x) as [-> | ->]; congruence. Qed.

#[local] Instance as_float_ok_dec (x : pynum) : Decision (∃ f, as_float x = Ok f).
Proof.
  destruct (as_float x) as [f|e] eqn:H.
  - left. by exists f.
  - right. intros [f Hf]. done.
Defined.

(** The divisor: the count of a non-empty mapping times the maximum weight
    is neither zero nor negative. *)
Lemma divisor_pos (z : Z) (n : float) :
  (0 < z)%Z → float_of_int z = Ok n →
  (0 <? n * 5)%float = true ∧ (n * 5 =? 0)%float = false.
Proof.
  intros Hz Hn. destruct z as [|p|p]; [lia| |lia].
  destruct (float_of_int_pos p n Hn) as (m & e & Hf & Hm & He).
  rewrite FloatAxioms.ltb_spec, FloatAxioms.eqb_spec, FloatAxioms.mul_spec, Hf.
  change (Prim2SF 5) with (S754_finite false 5629499534213120 (-50)).
  change (Prim2SF 0) with (S754_zero false). unfold SF64mul.
  destruct (SFmul_normal m e 5629499534213120 (-50) Hm He) as (m' & e' & ->);
    [done|done|].
  by destruct (e' <=? emax - prec)%Z.
Qed.

Lemma add_metric_float (acc : float) (code : string) (v : pynum) :
  add_metric (PyFloat acc) (code, v) =
  a ← as_float v ; Ok (PyFloat (acc + a * weight_of code)%float).
Proof. unfold add_metric, mul_float, add_float. simpl. by destruct (as_float v). Qed.

(** The loop, from a [float]: either every value converts and the sum comes
    out, or the first value that does not convert raises. *)
Lemma score_loop (metrics : dict pynum) (acc : float) :
  if decide (Forall (fun kv => ∃ f, as_float (snd kv) = Ok f) metrics)
  then for_each add_metric metrics (PyFloat acc) =
       Ok (PyFloat
             (fold_left
                (fun sum kv => (sum + to_float (snd kv) * table_weight (fst kv))%float)
                metrics acc))
  else for_each add_metric metrics (PyFloat acc) = Raise OverflowError.
Proof.
  revert acc. induction metrics as [|[code v] metrics IH]; intros acc.
  - rewrite decide_True by constructor. done.
  - simpl for_each. rewrite add_metric_float.
    destruct (as_float_cases v) as [Hv|Hv]; rewrite Hv; simpl.
    + specialize (IH (acc + to_float v * weight_of code)%float).
      destruct (decide (Forall _ metrics)) as [Hall|Hall].
      * rewrite decide_True; [|constructor; [by exists (to_float v)|done]].
        rewrite IH. by rewrite weight_of_table.
      * rewrite decide_False; [done|]. intros H. by inversion H.
    + rewrite decide_False; [done|]. intros H. inversion H as [|?? [f Hf]]; subst.
      simpl in Hf. congruence.
Qed.

Lemma score_loop_start (metrics : dict pynum) :
  metrics ≠ [] →
  for_each add_metric metrics (PyInt 0) = for_each add_metric metrics (PyFloat 0).
Proof. by destruct metrics. Qed.

Lemma in_float_range_values (metrics : dict pynum) :
  in_float_range metrics →
  Forall (fun kv => ∃ f, as_float (snd kv) = Ok f) metrics.
Proof. intros [H _]. by apply Forall_forall. Qed.

(** The score with the shipped table. *)
Lemma score_shipped (metrics : dict pynum) :
  in_float_range metrics →
  calculate_popularity_score metrics = Ok (spec_score 5 metrics).
Proof.
  intros Hr. destruct metrics as [|kv metrics]; [done|].
  pose proof (in_float_range_values _ Hr) as Hall. destruct Hr as [_ [n Hn]].
  unfold calculate_popularity_score, spec_score, dict_items.
  remember (kv :: metrics) as l eqn:Hl.
  assert (Hne : l ≠ []) by (by subst).
  rewrite score_loop_start by done.
  pose proof (score_loop l 0) as Hloop.
  rewrite decide_True in Hloop by done. rewrite Hloop.
  rewrite max_weight_shipped.
  unfold mbind, result_bind, mul_float, div_float, as_float.
  rewrite Hn. unfold mbind, result_bind.
  destruct (divisor_pos (Z.of_nat (length l)) n) as [_ ->];
    [subst; simpl; lia|done|].
  by rewrite (as_float_to_float (PyInt _) n Hn).
Qed.

(** A mapping with a number beyond the range of a [float] has no score. *)
Lemma score_overflow (metrics : dict pynum) :
  metrics ≠ [] → ¬ in_float_range metrics →
  calculate_popularity_score metrics = Raise OverflowError.
Proof.
  intros Hne Hr. destruct metrics as [|kv metrics]; [done|].
  unfold calculate_popularity_score, dict_items.
  remember (kv :: metrics) as l eqn:Hl.
  rewrite score_loop_start by done.
  pose proof (score_loop l 0) as Hloop.
  destruct (decide (Forall _ l)) as [Hall|Hall].
  - rewrite Hloop, max_weight_shipped.
    unfold mbind, result_bind, mul_float.
    destruct (as_float_cases (PyInt (Z.of_nat (length l)))) as [Hn|Hn];
      rewrite Hn; [|done].
    destruct Hr. split; [by apply Forall_forall|]. by eexists.
  - by rewrite Hloop.
Qed.

#[local] Instance in_float_range_dec (metrics : dict pynum) :
  Decision (in_float_range metrics).
Proof.
  unfold in_float_range.
  destruct (decide (Forall (fun kv => ∃ f, as_float (snd kv) = Ok f) metrics))
    as [Hall|Hall].
  - destruct (float_of_int (Z.of_nat (length metrics))) as [n|e] eqn:Hn.
    + left. split; [by apply Forall_forall|by exists n].
    + right. intros [_ [n Hn']]. done.
  - right. intros [H _]. by apply Hall, Forall_forall.
Defined.

(** C1, amended. For every metric mapping whose numbers are within the range
    of a [float], the computed score is the weighted sum of the present
    metrics (weight 1.0 for a code outside the table) divided by the number
    of metrics times the maximum weight of the table, in binary64
    arithmetic, the sum taken in the order of the mapping; a mapping with an
    integer beyond that range raises [OverflowError] and has no score; the
    empty mapping scores the integer 0; and the metrics 3 -> 10, 4 -> 10
    score exactly 9.0 with the shipped table, where code 3 weighs 5.0 and
    code 4 weighs 4.0, be the values integers or floats. *)
Theorem calculate_popularity_score_spec :
  (∀ (max_weight : float) (metrics : dict pynum),
      is_max_weight max_weight → in_float_range metrics →
      calculate_popularity_score metrics = Ok (spec_score max_weight metrics)) ∧
  (∀ metrics : dict pynum,
      metrics ≠ [] → ¬ in_float_range metrics →
      calculate_popularity_score metrics = Raise OverflowError) ∧
  calculate_popularity_score [] = Ok (PyInt 0) ∧
  table_weight "3" = 5%float ∧ table_weight "4" = 4%float ∧
  calculate_popularity_score [("3", PyInt 10); ("4", PyInt 10)]
  = Ok (PyFloat 9) ∧
  calculate_popularity_score [("3", PyFloat 10); ("4", PyFloat 10)]
  = Ok (PyFloat 9).
Proof.
  split; [|split; [|split; [|split; [|split; [|split]]]]].
  - intros max_weight metrics Hmax Hr.
    rewrite (is_max_weight_unique _ Hmax). by apply score_shipped.
  - apply score_overflow.
  - reflexivity.
  - reflexivity.
  - reflexivity.
  - vm_compute. reflexivity.
  - vm_compute. reflexivity.
Qed.

Lemma calculate_popularity_score_spec_witness :
  is_max_weight 5%float ∧ in_float_range [("1", PyInt 7); ("10", PyFloat 0.5)] ∧
  calculate_popularity_score [("1", PyInt 7); ("10", PyFloat 0.5)] =
  Ok (spec_score 5%float [("1", PyInt 7); ("10", PyFloat 0.5)]).
Proof.
  assert (Hr : in_float_range [("1", PyInt 7); ("10", PyFloat 0.5)]).
  { split.
    - intros kv Hkv. apply elem_of_cons in Hkv as [->|Hkv]; [by eexists|].
      apply list_elem_of_singleton in Hkv as ->. by eexists.
    - by eexists. }
  split; [apply is_max_weight_5|]. split; [exact Hr|].
  apply (proj1 calculate_popularity_score_spec 5%float _ is_max_weight_5 Hr).
Defined.

(** C1 as stated fails. An integer metric of 10^400 cannot be converted to a
    [float]: the scorer raises and computes no score. And where it computes
    one, the score is the formula in binary64 and not in exact arithmetic:
    the single metric 1 -> 7 scores the [float] 6305039478318694 / 2^52,
    which is not 7/5. *)
Lemma calculate_popularity_score_inexact :
  calculate_popularity_score [("3", PyInt (10 ^ 400))] = Raise OverflowError ∧
  calculate_popularity_score [("1", PyInt 7)]
  = Ok (PyFloat 0x1.6666666666666p+0) ∧
  Prim2SF 0x1.6666666666666p+0 = S754_finite false 6305039478318694 (-52) ∧
  (6305039478318694 * 5 ≠ 7 * 2 ^ 52)%Z.
Proof.
  split; [vm_compute; reflexivity|]. split; [vm_compute; reflexivity|].
  split; [vm_compute; reflexivity|]. vm_compute. discriminate.
Qed.

(** C10, amended. The scorer never divides by zero: the table is not empty,
    its weights are positive and its maximum is 5.0; the divisor of every
    non-empty mapping, the count times that maximum, is strictly positive;
    so [ZeroDivisionError] is never raised. The scorer returns a number for
    every mapping whose numbers are within the range of a [float], and
    raises [OverflowError] for every other. *)
Theorem calculate_popularity_score_total :
  py_max (dict_values METRIC_WEIGHTS) = Ok 5%float ∧
  (∀ w, w ∈ dict_values METRIC_WEIGHTS → (0 <? w)%float = true) ∧
  (∀ (metrics : dict pynum) (n : float),
     metrics ≠ [] →
     float_of_int (Z.of_nat (length metrics)) = Ok n →
     (0 <? n * 5)%float = true ∧ (n * 5 =? 0)%float = false) ∧
  (∀ metrics : dict pynum,
     calculate_popularity_score metrics ≠ Raise ZeroDivisionError) ∧
  (∀ metrics : dict pynum,
     in_float_range metrics →
     ∃ score, calculate_popularity_score metrics = Ok score) ∧
  (∀ metrics : dict pynum,
     ¬ in_float_range metrics →
     calculate_popularity_score metrics = Raise OverflowError).
Proof.
  split; [apply max_weight_shipped|]. split; [|split; [|split; [|split]]].
  - intros w Hw. simpl in Hw.
    repeat (apply elem_of_cons in Hw as [->|Hw]; [reflexivity|]).
    by apply elem_of_nil in Hw.
  - intros metrics n Hne Hn.
    apply (divisor_pos (Z.of_nat (length metrics)) n); [|done].
    destruct metrics; [done|]. simpl. lia.
  - intros metrics. destruct (decide (in_float_range metrics)) as [Hr|Hr].
    + by rewrite score_shipped.
    + destruct metrics as [|kv metrics]; [done|].
      by rewrite score_overflow.
  - intros metrics Hr. rewrite score_shipped by done. by eexists.
  - intros metrics Hr. apply score_overflow; [|done].
    intros ->. apply Hr. split; [|by eexists].
    intros kv Hkv. by apply elem_of_nil in Hkv.
Qed.

(** C10 as stated fails: the score is not a real number for every mapping.
    The metrics 3 -> 2^1023 and 4 -> -2^1023, two [float]s, score NaN (the
    products overflow to the two infinities, whose sum is NaN), and an
    integer metric of 10^400 has no score at all. *)
Lemma calculate_popularity_score_not_a_number :
  calculate_popularity_score
    [("3", PyFloat 0x1p+1023); ("4", PyFloat (-0x1p+1023))] = Ok (PyFloat nan) ∧
  calculate_popularity_score [("3", PyInt (10 ^ 400))] = Raise OverflowError.
Proof. split; vm_compute; reflexivity. Qed.

(** ** The catalogue filter *)

Lemma str_in_elem_of (x : string) (xs : list string) :
  str_in x xs = true ↔ x ∈ xs.
Proof.
  unfold str_in. rewrite existsb_exists. split.
  - intros (y & Hy & ->%String.eqb_eq). by apply list_elem_of_In.
  - intros Hx. exists x. split; [by apply list_elem_of_In | apply String.eqb_refl].
Qed.

Lemma rtr_test_spec (only_rtr : bool) (port_info : port_info_t) :
  (only_rtr && negb (default false (attr_rtr (get_attr port_info))))%bool = false
  ↔ passes_rtr only_rtr port_info.
Proof.
  unfold passes_rtr. destruct only_rtr; simpl.
  - destruct (attr_rtr (get_attr port_info)) as [[]|]; simpl; split; try done.
    + intros H. specialize (H eq_refl). congruence.
    + intros H. specialize (H eq_refl). congruence.
  - split; [by intros _ ? | done].
Qed.

Lemma genre_test_spec (genre_filter : option string) (port_info : port_info_t) :
  (str_truthy genre_filter &&
   negb (str_in (lower (default "" genre_filter))
           (map lower (default [] (attr_genres (get_attr port_info))))))%bool
  = false
  ↔ passes_genre genre_filter port_info.
Proof.
  unfold passes_genre, str_truthy.
  set (gs := default [] (attr_genres (get_attr port_info))).
  destruct genre_filter as [genre|]; simpl; [|split; [by intros _ ? ? | done]].
  destruct (String.eqb_spec genre "") as [->|Hne]; simpl.
  - split; [by intros _ ? [= <-] ? | done].
  - rewrite negb_false_iff, str_in_elem_of. split.
    + intros Hin g' [= <-] _.
      apply (list_elem_of_fmap_1 (B := string)) in Hin as (g & Hg & Hin).
      by exists g.
    + intros H. destruct (H genre eq_refl Hne) as (g & Hin & Hg).
      rewrite <- Hg. by apply (list_elem_of_fmap_2 (B := string)).
Qed.

#[local] Instance retained_dec only_rtr genre_filter item :
  Decision (retained only_rtr genre_filter item).
Proof.
  unfold retained.
  destruct ((only_rtr && negb (default false (attr_rtr (get_attr (snd item)))))%bool)
    eqn:Hr.
  - right. intros [H%rtr_test_spec _]. congruence.
  - apply rtr_test_spec in Hr.
    destruct ((str_truthy genre_filter &&
      negb (str_in (lower (default "" genre_filter))
         (map lower (default [] (attr_genres (get_attr (snd item)))))))%bool) eqn:Hg.
    + right. intros [_ H%genre_test_spec]. congruence.
    + apply genre_test_spec in Hg. by left.
Defined.

(** The loop appends the retained entries, in order. *)
Lemma get_port_data_loop only_rtr genre_filter (entries : dict port_info_t)
    (port_data : list port) :
  fold_left (get_port_data_body only_rtr genre_filter) entries port_data =
  port_data ++ map make_port (filter (retained only_rtr genre_filter) entries).
Proof.
  revert port_data. induction entries as [|item rest IH]; intros port_data.
  - simpl. by rewrite app_nil_r.
  - simpl fold_left. rewrite IH. rewrite filter_cons.
    unfold get_port_data_body at 1.
    destruct ((only_rtr && negb _)%bool) eqn:Hr.
    + rewrite decide_False; [done|].
      intros [H%rtr_test_spec _]. congruence.
    + destruct ((str_truthy genre_filter && negb _)%bool) eqn:Hg.
      * rewrite decide_False; [done|].
        intros [_ H%genre_test_spec]. congruence.
      * rewrite decide_True.
        { simpl. by rewrite <- app_assoc. }
        split; [by apply rtr_test_spec | by apply genre_test_spec].
Qed.


(** ** The retrying request *)

(** An attempt issues exactly one request and never lets an exception out. *)
Lemma attempt_body_request (t : transport) (attempt : nat) (w : world) :
  ∃ w' f, attempt_body t attempt w = (w', Ok f) ∧
          requests_made w' = S (requests_made w).
Proof.
  unfold attempt_body, try_block, request.
  destruct (t (requests_made w)) as [resp|]; [|by eexists _, _].
  destruct ((status_code resp =? 400)%Z && (attempt <? 4)%nat)%bool;
    [by eexists _, _|].
  destruct (raise_for_status resp); by eexists _, _.
Qed.

(** A failed attempt of any class sleeps [2 ^ attempt] seconds and goes on. *)
Lemma attempt_body_failed (t : transport) (attempt : nat) (w : world) :
  failed (t (requests_made w)) →
  attempt_body t attempt w =
  ({| requests_made := S (requests_made w);
      slept := slept w ++ [(2 ^ Z.of_nat attempt)%Z] |}, Ok Next).
Proof.
  unfold failed, attempt_body, try_block, request.
  destruct (t (requests_made w)) as [resp|]; [|done].
  intros Hraise.
  destruct ((status_code resp =? 400)%Z && (attempt <? 4)%nat)%bool; [done|].
  by rewrite Hraise.
Qed.

Lemma retry_loop_bounded (t : transport) (attempts : list nat) (w : world) :
  (requests_made (fst (retry_loop t attempts w))
     ≤ requests_made w + length attempts)%nat ∧
  ∃ r, snd (retry_loop t attempts w) = Ok r.
Proof.
  revert w. induction attempts as [|attempt rest IH]; intros w; simpl.
  - split; [lia | by eexists].
  - destruct (attempt_body_request t attempt w) as (w' & f & -> & Hreq).
    destruct f as [|r]; simpl.
    + destruct (IH w') as [Hle Hok]. split; [lia | done].
    + split; [lia | by eexists].
Qed.

Lemma retry_loop_all_failed (t : transport) (attempts : list nat) (w : world) :
  (∀ i, (i < length attempts)%nat → failed (t (requests_made w + i)%nat)) →
  retry_loop t attempts w =
  ({| requests_made := requests_made w + length attempts;
      slept := slept w ++ map (fun a => (2 ^ Z.of_nat a)%Z) attempts |},
   Ok None).
Proof.
  revert w. induction attempts as [|attempt rest IH]; intros w Hfail; simpl.
  - rewrite Nat.add_0_r, app_nil_r. by destruct w.
  - rewrite attempt_body_failed.
    2:{ specialize (Hfail 0%nat). rewrite Nat.add_0_r in Hfail.
        apply Hfail. simpl. lia. }
    rewrite IH; simpl.
    + f_equal. f_equal; [lia | by rewrite <- app_assoc].
    + intros i Hi. specialize (Hfail (S i)).
      replace (requests_made w + S i)%nat
        with (S (requests_made w + i)) in Hfail by lia.
      apply Hfail. simpl. lia.
Qed.

(** C2. The retrying request issues at most 5 requests and never raises;
    when the 5 attempts all fail, whatever the class of each failure (status
    400, another error status, a network-level exception), it returns
    [None], having issued exactly 5 requests. *)
Theorem retry_request_bounded (t : transport) (w : world) :
  (requests_made (fst (retry_request t w)) ≤ requests_made w + 5)%nat ∧
  (∃ r, snd (retry_request t w) = Ok r) ∧
  ((∀ i, (i < 5)%nat → failed (t (requests_made w + i)%nat)) →
   snd (retry_request t w) = Ok None ∧
   requests_made (fst (retry_request t w)) = (requests_made w + 5)%nat ∧
   slept (fst (retry_request t w)) = slept w ++ [1; 2; 4; 8; 16]%Z) ∧
  (∀ resp, failed (Responds resp) ↔ (400 ≤ status_code resp < 600)%Z).
Proof.
  unfold retry_request.
  destruct (retry_loop_bounded t (seq 0 5) w) as [Hle Hok].
  split; [exact Hle|]. split; [exact Hok|]. split.
  - intros Hfail. rewrite retry_loop_all_failed by exact Hfail. by simpl.
  - intros resp. unfold failed, raise_for_status.
    destruct (400 <=? status_code resp)%Z eqn:H1;
      destruct (status_code resp <? 600)%Z eqn:H2; simpl; split;
      try done; try lia.
Qed.

(** ** The merge into the persisted store *)

Lemma for_each_app {A S : Type} (body : S → A → result S) (xs ys : list A) (s : S) :
  for_each body (xs ++ ys) s = (s' ← for_each body xs s ; for_each body ys s').
Proof.
  revert s. induction xs as [|x xs IH]; intros s; simpl; [done|].
  destruct (body s x) as [s'|e]; simpl; [apply IH | done].
Qed.

Lemma dict_get_values {V : Type} (d : dict V) (k : string) (v : V) :
  dict_get d k = Some v → v ∈ dict_values d.
Proof.
  unfold dict_values. induction d as [|[k0 v0] d IH]; simpl; [done|].
  destruct (decide (k0 = k)); [intros [= ->]; by left | intros H; right; auto].
Qed.

Section merger_facts.
Context {M : Type}.
Implicit Types (igdb : dict string) (em : dict M) (key : string).

Lemma reconcile_key_other igdb em key :
  legacy igdb key = false → reconcile_key igdb em key = Ok em.
Proof.
  unfold legacy, reconcile_key.
  destruct (isdigit key); [|done]. by destruct (dict_mem igdb key).
Qed.

Lemma reconcile_key_legacy igdb em key (g : string) (m : M) :
  isdigit key = true → dict_get igdb key = Some g → dict_get em key = Some m →
  reconcile_key igdb em key =
  Ok (dict_remove (if dict_mem em g then em else dict_set em g m) key).
Proof.
  intros Hd Hg Hm. unfold reconcile_key, dict_getitem, dict_del.
  rewrite Hd. unfold dict_mem at 1. rewrite Hg. cbn [mbind result_bind].
  destruct (dict_mem em g) eqn:Hmem; cbn [negb mbind result_bind].
  - unfold dict_mem. by rewrite Hm.
  - rewrite Hm. cbn [mbind result_bind]. unfold dict_mem.
    rewrite dict_get_set. destruct (decide (g = key)); [done|]. by rewrite Hm.
Qed.

Lemma legacy_true igdb key :
  legacy igdb key = true →
  isdigit key = true ∧ ∃ g, dict_get igdb key = Some g.
Proof.
  unfold legacy. intros [Hd Hm]%andb_true_iff. split; [done|].
  by apply dict_mem_true in Hm as [g Hg]; exists g.
Qed.

(** What one iteration does to the lookups of the store. *)
Lemma reconcile_key_lookup igdb em key em' x :
  is_Some (dict_get em key) →
  reconcile_key igdb em key = Ok em' →
  dict_get em' x =
  if legacy igdb key then
    if decide (key = x) then None
    else if decide (dict_get igdb key = Some x) then
           match dict_get em x with Some v => Some v | None => dict_get em key end
         else dict_get em x
  else dict_get em x.
Proof.
  intros [m Hm]. destruct (legacy igdb key) eqn:Hleg.
  - destruct (legacy_true _ _ Hleg) as (Hd & g & Hg).
    rewrite (reconcile_key_legacy _ _ _ g m) by done. intros [= <-].
    rewrite dict_get_remove. destruct (decide (key = x)) as [|Hne]; [done|].
    rewrite Hg. destruct (dict_mem em g) eqn:Hmem.
    + destruct (decide (Some g = Some x)) as [[= ->]|]; [|done].
      apply dict_mem_true in Hmem as [v Hv]. by rewrite Hv.
    + rewrite dict_get_set. apply dict_mem_false in Hmem.
      destruct (decide (g = x)) as [->|Hgx].
      * rewrite decide_True by done. by rewrite Hmem, Hm.
      * rewrite decide_False; [done | congruence].
  - rewrite reconcile_key_other by done. by intros [= <-].
Qed.

Lemma reconcile_key_wf igdb em key em' :
  dict_wf em → reconcile_key igdb em key = Ok em' → dict_wf em'.
Proof.
  intros Hwf. unfold reconcile_key, dict_getitem, dict_del.
  destruct (isdigit key); [|by intros [= <-]].
  destruct (dict_mem igdb key); [|by intros [= <-]].
  destruct (dict_get igdb key) as [g|]; [|done]. cbn [mbind result_bind].
  destruct (dict_mem em g); cbn [negb mbind result_bind].
  - destruct (dict_mem em key); [|done]. intros [= <-]. by apply dict_wf_remove.
  - destruct (dict_get em key) as [m|]; [|done]. cbn [mbind result_bind].
    destruct (dict_mem _ key); [|done]. intros [= <-].
    by apply dict_wf_remove, dict_wf_set.
Qed.

Lemma reconcile_key_ok igdb em key :
  is_Some (dict_get em key) → ∃ em', reconcile_key igdb em key = Ok em'.
Proof.
  intros [m Hm]. destruct (legacy igdb key) eqn:Hleg.
  - destruct (legacy_true _ _ Hleg) as (Hd & g & Hg).
    rewrite (reconcile_key_legacy _ _ _ g m) by done. by eexists.
  - rewrite reconcile_key_other by done. by eexists.
Qed.

(** The loop over a list of distinct keys that are all in the store: it
    raises nothing; an entry that is not a legacy key under iteration keeps
    its value; and every entry of the result is such an entry or stands under
    a name of the identifier mapping. *)
Lemma reconcile_loop igdb (ks : list string) em :
  NoDup ks → (∀ k, k ∈ ks → is_Some (dict_get em k)) →
  ∃ em', for_each (reconcile_key igdb) ks em = Ok em' ∧
    (dict_wf em → dict_wf em') ∧
    (∀ x v, dict_get em x = Some v → x ∉ ks ∨ legacy igdb x = false →
            dict_get em' x = Some v) ∧
    (∀ x v, dict_get em' x = Some v →
            (dict_get em x = Some v ∧ (x ∉ ks ∨ legacy igdb x = false)) ∨
            x ∈ dict_values igdb).
Proof.
  revert em. induction ks as [|key rest IH]; intros em Hnd Hin.
  - exists em. simpl. repeat split; [done|done|]. intros x v Hx. left.
    split; [done|]. left. apply not_elem_of_nil.
  - apply NoDup_cons in Hnd as [Hkey Hnd].
    assert (Hsome : is_Some (dict_get em key)) by (apply Hin; by left).
    destruct (reconcile_key_ok igdb em key Hsome) as [em1 Hstep].
    pose proof (reconcile_key_lookup igdb em key em1) as Hlook.
    destruct (IH em1 Hnd) as (em' & Hloop & Hwf & Hkeep & Hfrom).
    { intros k Hk. rewrite (Hlook k Hsome Hstep).
      assert (Hk' : is_Some (dict_get em k)) by (apply Hin; by right).
      destruct (legacy igdb key); [|done].
      destruct (decide (key = k)) as [->|_]; [done|].
      destruct (decide _); [|done]. destruct Hk' as [v ->]. by eexists. }
    exists em'. simpl. rewrite Hstep. cbn [mbind result_bind].
    split; [done|]. split; [|split].
    + intros Hem. apply Hwf. by eapply reconcile_key_wf.
    + intros x v Hx Hor. apply Hkeep.
      * rewrite (Hlook x Hsome Hstep). destruct (legacy igdb key) eqn:Hleg; [|done].
        destruct (decide (key = x)) as [<-|Hne].
        { destruct Hor as [Hnin|Hnl]; [|congruence].
          exfalso. apply Hnin. by left. }
        destruct (decide _); [by rewrite Hx | done].
      * destruct Hor as [Hnin|Hnl]; [left | by right].
        intros Hr. apply Hnin. by right.
    + intros x v Hx. destruct (Hfrom x v Hx) as [[Hx1 Hor]|Hval]; [|by right].
      rewrite (Hlook x Hsome Hstep) in Hx1.
      destruct (legacy igdb key) eqn:Hleg.
      * destruct (decide (key = x)) as [|Hne]; [done|].
        destruct (decide (dict_get igdb key = Some x)) as [Hg|_].
        { right. by eapply dict_get_values. }
        left. split; [done|]. destruct Hor as [Hnin|Hnl]; [left | by right].
        by intros [->|?]%elem_of_cons.
      * left. split; [done|]. destruct (decide (key = x)) as [<-|Hne]; [by right|].
        destruct Hor as [Hnin|Hnl]; [left | by right].
        by intros [->|?]%elem_of_cons.
Qed.

(** A store without legacy keys passes through the loop unchanged. *)
Lemma reconcile_loop_id igdb (ks : list string) em :
  (∀ k, k ∈ ks → legacy igdb k = false) →
  for_each (reconcile_key igdb) ks em = Ok em.
Proof.
  induction ks as [|key rest IH]; intros Hno; simpl; [done|].
  rewrite reconcile_key_other by (apply Hno; by left).
  cbn [mbind result_bind]. apply IH. intros k Hk. apply Hno. by right.
Qed.

Lemma keys_present em k : k ∈ dict_keys em → is_Some (dict_get em k).
Proof. intros Hk. by apply dict_mem_true, dict_mem_keys. Qed.

Lemma reconcile_keys_spec igdb em :
  dict_wf em →
  ∃ em', reconcile_keys igdb em = Ok em' ∧ dict_wf em' ∧
    (∀ x v, dict_get em x = Some v → legacy igdb x = false →
            dict_get em' x = Some v) ∧
    (∀ x v, dict_get em' x = Some v →
            (dict_get em x = Some v ∧ legacy igdb x = false) ∨
            x ∈ dict_values igdb).
Proof.
  intros Hwf. unfold reconcile_keys.
  destruct (reconcile_loop igdb (dict_keys em) em Hwf (keys_present em))
    as (em' & Hloop & Hwf' & Hkeep & Hfrom).
  exists em'. split; [done|]. split; [by apply Hwf'|]. split.
  - intros x v Hx Hleg. apply Hkeep; [done | by right].
  - intros x v Hx. destruct (Hfrom x v Hx) as [[Hx1 [Hnin|Hnl]]|Hval];
      [|by left|by right].
    exfalso. apply Hnin. apply dict_mem_keys, dict_mem_true. by eexists.
Qed.

Lemma overlay_lookup em (fresh : dict M) x :
  dict_wf fresh →
  dict_get (overlay em fresh) x =
  match dict_get fresh x with Some v => Some v | None => dict_get em x end.
Proof. apply dict_get_fold_set. Qed.

(** C3. Legacy-key reconciliation, key by key: when the loop reaches a key
    of the prior metrics that is purely numeric and known to the identifier
    mapping, the key still holds its prior sub-mapping; the iteration copies
    that sub-mapping under the canonical name only if the store has no entry
    of that name, and deletes the numeric key whether it copied or not; every
    other entry is left as it was. *)
Theorem reconcile_numeric_key igdb (prior : dict M) (before after : list string)
    key (g : string) (m : M) :
  dict_wf prior →
  dict_keys prior = before ++ key :: after →
  isdigit key = true →
  dict_get igdb key = Some g →
  dict_get prior key = Some m →
  ∃ em1 em2,
    for_each (reconcile_key igdb) before prior = Ok em1 ∧
    dict_get em1 key = Some m ∧
    reconcile_key igdb em1 key = Ok em2 ∧
    reconcile_keys igdb prior = for_each (reconcile_key igdb) after em2 ∧
    dict_get em2 key = None ∧
    (g ≠ key →
     dict_get em2 g =
     match dict_get em1 g with Some old => Some old | None => Some m end) ∧
    (∀ x, x ≠ key → x ≠ g → dict_get em2 x = dict_get em1 x).
Proof.
  intros Hwf Hkeys Hd Hg Hm.
  assert (Hnd : NoDup (before ++ key :: after)) by (by rewrite <- Hkeys).
  apply NoDup_app in Hnd as (Hnd1 & Hdisj & _).
  assert (Hnin : key ∉ before).
  { intros Hin. apply (Hdisj key Hin). by left. }
  destruct (reconcile_loop igdb before prior Hnd1) as (em1 & Hloop & _ & Hkeep & _).
  { intros k Hk. apply keys_present. rewrite Hkeys. apply elem_of_app. by left. }
  assert (Hm1 : dict_get em1 key = Some m) by (apply Hkeep; [done | by left]).
  pose proof (reconcile_key_legacy igdb em1 key g m Hd Hg Hm1) as Hstep.
  eexists em1, _. split; [done|]. split; [done|]. split; [exact Hstep|].
  split; [|split; [|split]].
  - unfold reconcile_keys. rewrite Hkeys, for_each_app, Hloop.
    cbn [mbind result_bind for_each]. by rewrite Hstep.
  - rewrite dict_get_remove. by rewrite decide_True.
  - intros Hne. rewrite dict_get_remove, decide_False by done.
    destruct (dict_mem em1 g) eqn:Hmem.
    + apply dict_mem_true in Hmem as [v Hv]. by rewrite Hv.
    + rewrite dict_get_set, decide_True by done.
      apply dict_mem_false in Hmem. by rewrite Hmem.
  - intros x Hx Hxg. rewrite dict_get_remove, decide_False by done.
    destruct (dict_mem em1 g); [done|].
    by rewrite dict_get_set, decide_False.
Qed.

(** C4. A canonical (non-numeric) entry name of the prior store is a key of
    the merged output; its sub-mapping there is the freshly fetched one when
    the name was fetched this run, and the prior one otherwise. *)
Theorem merge_keeps_canonical igdb (fresh : dict M) (types : dict string)
    (e : existing_data_t M) (prior : dict M) (x : string) (m : M) :
  existing_metrics e = Some prior →
  dict_wf prior → dict_wf fresh →
  isdigit x = false →
  dict_get prior x = Some m →
  ∃ out, merge igdb fresh types e = Ok out ∧
    dict_get (popularity_metrics out) x =
    match dict_get fresh x with Some new => Some new | None => Some m end.
Proof.
  intros He Hwf Hwff Hd Hx. unfold merge, has_members. rewrite He.
  rewrite (bool_decide_eq_true_2 (is_Some (Some prior))) by done.
  rewrite orb_true_r. cbn [default from_option id].
  destruct (reconcile_keys_spec igdb prior Hwf) as (em' & -> & _ & Hkeep & _).
  cbn [mbind result_bind]. eexists. split; [done|]. cbn [popularity_metrics].
  rewrite overlay_lookup by done.
  destruct (dict_get fresh x); [done|].
  apply Hkeep; [done|]. unfold legacy. by rewrite Hd.
Qed.

(** The types of the merged output. *)
Lemma merge_types_lookup igdb (fresh : dict M) (types : dict string)
    (e : existing_data_t M) (out : output_t M) (k : string) :
  dict_wf (default [] (existing_types e)) →
  merge igdb fresh types e = Ok out →
  dict_get (popularity_types out) k =
  match dict_get (default [] (existing_types e)) k with
  | Some name => Some name
  | None => dict_get types k
  end.
Proof.
  intros Hwt. unfold merge. destruct (has_members e) eqn:Hmem.
  - destruct (reconcile_keys igdb _) as [em'|]; [|done].
    cbn [mbind result_bind]. intros [= <-]. cbn [popularity_types].
    by rewrite dict_get_update.
  - intros [= <-]. cbn [popularity_types].
    unfold has_members in Hmem. apply orb_false_iff in Hmem as [Hty _].
    destruct (existing_types e); [done|]. done.
Qed.

Lemma merge_ok igdb (fresh : dict M) (types : dict string) (e : existing_data_t M) :
  dict_wf (default [] (existing_metrics e)) →
  ∃ out, merge igdb fresh types e = Ok out.
Proof.
  intros Hwf. unfold merge. destruct (has_members e); [|by eexists].
  destruct (reconcile_keys_spec igdb _ Hwf) as (em' & -> & _).
  by eexists.
Qed.

(** C6. Type-name reconciliation: the merged type mapping has every key of
    the freshly fetched and of the prior mapping, and on a key of both the
    prior name is the one kept. *)
Theorem merge_types_prior_wins igdb (fresh : dict M) (types : dict string)
    (e : existing_data_t M) :
  dict_wf (default [] (existing_metrics e)) →
  dict_wf (default [] (existing_types e)) →
  ∃ out, merge igdb fresh types e = Ok out ∧
    (∀ k name, dict_get (default [] (existing_types e)) k = Some name →
               dict_get (popularity_types out) k = Some name) ∧
    (∀ k name, dict_get types k = Some name →
               is_Some (dict_get (popularity_types out) k)) ∧
    (∀ k name, dict_get types k = Some name →
               dict_get (default [] (existing_types e)) k = None →
               dict_get (popularity_types out) k = Some name).
Proof.
  intros Hwm Hwt. destruct (merge_ok igdb fresh types e Hwm) as [out Hout].
  exists out. split; [done|].
  pose proof (fun k => merge_types_lookup igdb fresh types e out k Hwt Hout) as Hl.
  split; [|split].
  - intros k name Hk. by rewrite Hl, Hk.
  - intros k name Hk. rewrite Hl, Hk.
    destruct (dict_get (default [] (existing_types e)) k); by eexists.
  - intros k name Hk Hnone. by rewrite Hl, Hnone.
Qed.

(** What the first merge establishes when no entry name is a legacy key. *)
Lemma merge_first igdb (fresh : dict M) (types : dict string)
    (e : existing_data_t M) :
  dict_wf fresh → dict_wf types →
  dict_wf (default [] (existing_metrics e)) →
  names_not_legacy igdb fresh →
  ∃ out, merge igdb fresh types e = Ok out ∧
    dict_wf (popularity_metrics out) ∧
    dict_wf (popularity_types out) ∧
    (∀ k, k ∈ dict_keys (popularity_metrics out) → legacy igdb k = false) ∧
    (∀ x v, dict_get fresh x = Some v →
            dict_get (popularity_metrics out) x = Some v) ∧
    (∀ k name, dict_get types k = Some name →
               is_Some (dict_get (popularity_types out) k)).
Proof.
  intros Hwff Hwft Hwfm Hnames.
  assert (Hfresh : ∀ k, k ∈ dict_keys fresh → legacy igdb k = false).
  { intros k Hk. destruct (legacy igdb k) eqn:Hleg; [|done].
    by destruct (Hnames k Hleg) as [_ Hnin]. }
  unfold merge. destruct (has_members e).
  - destruct (reconcile_keys_spec igdb _ Hwfm) as (em' & -> & Hwf' & _ & Hfrom).
    cbn [mbind result_bind]. eexists. split; [done|].
    cbn [popularity_metrics popularity_types].
    split; [by apply dict_wf_fold_set|]. split; [by apply dict_wf_fold_set|].
    split; [|split].
    + intros k [v Hk]%keys_present. rewrite overlay_lookup in Hk by done.
      destruct (dict_get fresh k) eqn:Hf.
      * apply Hfresh, dict_mem_keys, dict_mem_true. by eexists.
      * destruct (Hfrom k v Hk) as [[_ Hleg]|Hval]; [done|].
        destruct (legacy igdb k) eqn:Hleg; [|done].
        by destruct (Hnames k Hleg) as [Hnin _].
    + intros x v Hx. by rewrite overlay_lookup, Hx.
    + intros k name Hk. apply dict_fold_set_keeps. by eexists.
  - eexists. split; [done|]. cbn [popularity_metrics popularity_types].
    repeat split; try done; intros k name Hk; by eexists.
Qed.

(** C5, amended. The merge is idempotent provided no entry name of the run
    (a name the identifier mapping maps to, or a key of the fetched metrics)
    is itself a purely numeric key of the identifier mapping: merging again,
    with the written output as the prior store and the same fresh inputs,
    yields a store with the same type names and the same metrics. *)
Theorem merge_idempotent igdb (fresh : dict M) (types : dict string)
    (e : existing_data_t M) :
  dict_wf fresh → dict_wf types →
  dict_wf (default [] (existing_metrics e)) →
  names_not_legacy igdb fresh →
  ∃ out1 out2,
    merge igdb fresh types e = Ok out1 ∧
    merge igdb fresh types (reload out1) = Ok out2 ∧
    same_store out2 out1.
Proof.
  intros Hwff Hwft Hwfm Hnames.
  destruct (merge_first igdb fresh types e Hwff Hwft Hwfm Hnames)
    as (out1 & Hout1 & Hwm1 & Hwt1 & Hleg & Hdom & Hty).
  exists out1. unfold merge at 2. unfold has_members, reload.
  cbn [existing_types existing_metrics default from_option id].
  rewrite (bool_decide_eq_true_2 (is_Some (Some _))) by done. cbn [orb].
  unfold reconcile_keys. rewrite reconcile_loop_id.
  2:{ intros k Hk. apply Hleg. unfold dict_keys in *.
      by rewrite (fmap_Permutation fst _ _ (sort_keys_perm _)) in Hk. }
  cbn [mbind result_bind]. eexists. split; [done|]. split; [done|].
  split; cbn [popularity_types popularity_metrics]; apply map_eq; intros k;
    rewrite !to_map_lookup.
  - rewrite dict_get_update by (by apply dict_wf_sort_keys).
    rewrite dict_get_sort_keys by done.
    destruct (dict_get (popularity_types out1) k) eqn:Hk; [done|].
    destruct (dict_get types k) as [name|] eqn:Hf; [|done].
    destruct (Hty k name Hf) as [? ?]. congruence.
  - rewrite overlay_lookup by done. rewrite dict_get_sort_keys by done.
    destruct (dict_get fresh k) as [v|] eqn:Hf; [|done].
    symmetry. by apply Hdom.
Qed.

End merger_facts.

Lemma sample_names_not_legacy : names_not_legacy sample_mapping sample_fresh.
Proof.
  intros key [Hd Hm]%andb_true_iff. apply dict_mem_keys in Hm.
  unfold sample_mapping, dict_keys in Hm. simpl in Hm.
  apply elem_of_cons in Hm as [->|Hm]; [|apply elem_of_cons in Hm as [->|Hm]].
  - split; apply (bool_decide_eq_true_1 _); reflexivity.
  - split; apply (bool_decide_eq_true_1 _); reflexivity.
  - by apply elem_of_nil in Hm.
Qed.

Lemma sample_wf {V : Type} (d : dict V) :
  bool_decide (NoDup (dict_keys d)) = true → dict_wf d.
Proof. apply bool_decide_eq_true_1. Qed.

Lemma reconcile_numeric_key_witness :
  ∃ em1 em2 : dict metrics_t,
    for_each (reconcile_key sample_mapping) ["celeste"]
      [("celeste", sample_metrics); ("123", sample_metrics)] = Ok em1 ∧
    dict_get em1 "123" = Some sample_metrics ∧
    reconcile_key sample_mapping em1 "123" = Ok em2 ∧
    reconcile_keys sample_mapping
      [("celeste", sample_metrics); ("123", sample_metrics)] =
      for_each (reconcile_key sample_mapping) [] em2 ∧
    dict_get em2 "123" = None ∧
    ("doom" ≠ "123" →
     dict_get em2 "doom" =
     match dict_get em1 "doom" with
     | Some old => Some old
     | None => Some sample_metrics
     end) ∧
    (∀ x, x ≠ "123" → x ≠ "doom" → dict_get em2 x = dict_get em1 x).
Proof.
  apply (reconcile_numeric_key sample_mapping
           [("celeste", sample_metrics); ("123", sample_metrics)]
           ["celeste"] [] "123" "doom" sample_metrics).
  - apply sample_wf. reflexivity.
  - reflexivity.
  - reflexivity.
  - reflexivity.
  - reflexivity.
Defined.

Lemma merge_keeps_canonical_witness :
  ∃ out, merge sample_mapping sample_fresh sample_types sample_prior = Ok out ∧
    dict_get (popularity_metrics out) "celeste" =
    match dict_get sample_fresh "celeste" with
    | Some new => Some new
    | None => Some sample_metrics
    end.
Proof.
  apply (merge_keeps_canonical sample_mapping sample_fresh sample_types
           sample_prior [("celeste", sample_metrics); ("123", sample_metrics)]
           "celeste" sample_metrics).
  - reflexivity.
  - apply sample_wf. reflexivity.
  - apply sample_wf. reflexivity.
  - reflexivity.
  - reflexivity.
Defined.

Lemma merge_types_prior_wins_witness :
  ∃ out, merge sample_mapping sample_fresh sample_types sample_prior = Ok out ∧
    dict_get (popularity_types out) "1" = Some "Visits" ∧
    dict_get (popularity_types out) "4" = Some "Played".
Proof.
  destruct (merge_types_prior_wins sample_mapping sample_fresh sample_types
              sample_prior) as (out & Hout & Hprior & _ & Hnew).
  - apply sample_wf. reflexivity.
  - apply sample_wf. reflexivity.
  - exists out. split; [exact Hout|]. split.
    + apply Hprior. reflexivity.
    + apply Hnew; reflexivity.
Defined.

Lemma merge_idempotent_witness :
  ∃ out1 out2,
    merge sample_mapping sample_fresh sample_types sample_prior = Ok out1 ∧
    merge sample_mapping sample_fresh sample_types (reload out1) = Ok out2 ∧
    same_store out2 out1.
Proof.
  apply (merge_idempotent sample_mapping sample_fresh sample_types sample_prior).
  - apply sample_wf. reflexivity.
  - apply sample_wf. reflexivity.
  - apply sample_wf. reflexivity.
  - exact sample_names_not_legacy.
Defined.

(** C5 as stated fails. The port "2048" has the identifier 7 and the port
    "foo" the identifier 2048; the prior store has the legacy key 7 and
    nothing is fetched. The first merge moves the entry under "2048"; the
    second takes "2048" for a legacy key and moves the entry under "foo". *)
Lemma merge_not_idempotent :
  dict_wf chained_mapping ∧
  dict_wf (default [] (existing_metrics chained_prior)) ∧
  ∃ out1 out2,
    merge chained_mapping [] [] chained_prior = Ok out1 ∧
    merge chained_mapping [] [] (reload out1) = Ok out2 ∧
    dict_keys (popularity_metrics out1) = ["2048"] ∧
    dict_keys (popularity_metrics out2) = ["foo"] ∧
    ¬ same_store out2 out1.
Proof.
  split; [apply sample_wf; reflexivity|]. split; [apply sample_wf; reflexivity|].
  eexists _, _. split; [vm_compute; reflexivity|].
  split; [vm_compute; reflexivity|].
  split; [reflexivity|]. split; [reflexivity|].
  intros [_ Hm]. apply (f_equal (fun m => m !! "foo")) in Hm.
  rewrite !to_map_lookup in Hm. discriminate Hm.
Qed.

(** ** The merge into the identifier index *)

Section game_ids_facts.
Context {V : Type} `{EqDecision V}.
Implicit Types (entry port_ids : dict V) (field : string) (value : V).

Lemma field_changed_spec entry field value :
  field_changed entry field value = true ↔ dict_get entry field ≠ Some value.
Proof.
  unfold field_changed, dict_mem.
  destruct (dict_get entry field) as [v|]; simpl; [|done].
  rewrite negb_true_iff, bool_decide_eq_false. done.
Qed.

(** A field that already has the extracted value is not written. *)
Lemma merge_field_same entry (updated : nat) field value :
  dict_get entry field = Some value →
  merge_field (entry, updated) (field, value) = (entry, updated).
Proof.
  intros Hg. unfold merge_field. cbn [fst snd].
  destruct (field_changed entry field value) eqn:Hc; [|done].
  by apply field_changed_spec in Hc.
Qed.

Lemma merge_field_changed entry (updated : nat) field value :
  dict_get entry field ≠ Some value →
  merge_field (entry, updated) (field, value) =
  (dict_set entry field value, S updated).
Proof.
  intros Hg. unfold merge_field. cbn [fst snd].
  by rewrite (proj2 (field_changed_spec entry field value) Hg).
Qed.

(** Writing the value a key already has changes nothing. *)
Lemma dict_set_same entry field value :
  dict_get entry field = Some value → dict_set entry field value = entry.
Proof.
  induction entry as [|[k0 v0] entry IH]; simpl; [done|].
  destruct (decide (k0 = field)) as [->|Hne].
  - by intros [= ->].
  - intros Hg. by rewrite IH.
Qed.

Lemma changed_fields_cons entry field value port_ids :
  changed_fields entry ((field, value) :: port_ids) =
  ((if decide (dict_get entry field ≠ Some value) then 1 else 0)
   + changed_fields entry port_ids)%nat.
Proof.
  unfold changed_fields. rewrite filter_cons. cbn [fst snd].
  by destruct (decide (dict_get entry field ≠ Some value)).
Qed.

Lemma changed_fields_set entry field value port_ids :
  field ∉ dict_keys port_ids →
  changed_fields (dict_set entry field value) port_ids =
  changed_fields entry port_ids.
Proof.
  unfold dict_keys. induction port_ids as [|[f v] rest IH]; intros Hnin; [done|].
  simpl in Hnin. apply not_elem_of_cons in Hnin as [Hne Hnin].
  rewrite !changed_fields_cons, IH by done.
  by rewrite dict_get_set, (decide_False (P := field = f)).
Qed.

(** The inner loop is [entry.update(port_ids)], and it counts the fields
    whose value differed or was missing. *)
Lemma merge_fields_spec entry port_ids (updated : nat) :
  dict_wf port_ids →
  merge_fields entry port_ids updated =
  (dict_update entry port_ids, (updated + changed_fields entry port_ids)%nat).
Proof.
  unfold merge_fields, dict_update, dict_items, dict_wf, dict_keys.
  revert entry updated.
  induction port_ids as [|[field value] rest IH]; intros entry updated Hwf.
  - simpl. by rewrite Nat.add_0_r.
  - simpl in Hwf. apply NoDup_cons in Hwf as [Hnin Hnd].
    rewrite changed_fields_cons. simpl fold_left.
    destruct (decide (dict_get entry field ≠ Some value)) as [Hne|Heq].
    + rewrite merge_field_changed by done. rewrite IH by done.
      rewrite changed_fields_set by done. f_equal. lia.
    + apply dec_stable in Heq.
      rewrite merge_field_same, dict_set_same by done.
      rewrite IH by done. f_equal.
Qed.

Lemma merge_entry_spec (st : merge_state V) (port_name : string) port_ids :
  dict_wf port_ids →
  merge_entry st (port_name, port_ids) =
  Ok match dict_get (merged_game_ids st) port_name with
     | None =>
         {| merged_game_ids := dict_set (merged_game_ids st) port_name port_ids;
            new_entries := S (new_entries st);
            updated_entries := updated_entries st |}
     | Some entry =>
         {| merged_game_ids :=
              dict_set (merged_game_ids st) port_name (dict_update entry port_ids);
            new_entries := new_entries st;
            updated_entries :=
              (updated_entries st + changed_fields entry port_ids)%nat |}
     end.
Proof.
  intros Hwf. unfold merge_entry, dict_getitem, dict_mem. cbn [fst snd].
  destruct (dict_get (merged_game_ids st) port_name) as [entry|]; [|done].
  cbn [negb mbind result_bind]. by rewrite merge_fields_spec.
Qed.

Lemma new_count_ext (m1 m2 new : dict (dict V)) :
  (∀ p, p ∈ dict_keys new → dict_get m1 p = dict_get m2 p) →
  new_count m1 new = new_count m2 new.
Proof.
  unfold new_count, dict_keys. induction new as [|[p ids] rest IH]; intros Hext; [done|].
  rewrite !filter_cons. cbn [fst]. rewrite (Hext p) by (by left).
  assert (Hrest : length (filter (fun item => dict_get m1 (fst item) = None) rest) =
                  length (filter (fun item => dict_get m2 (fst item) = None) rest)).
  { apply IH. intros q Hq. apply Hext. by right. }
  destruct (decide _); simpl; by rewrite Hrest.
Qed.

Lemma updated_count_ext (m1 m2 new : dict (dict V)) :
  (∀ p, p ∈ dict_keys new → dict_get m1 p = dict_get m2 p) →
  updated_count m1 new = updated_count m2 new.
Proof.
  unfold updated_count, dict_keys. induction new as [|[p ids] rest IH]; intros Hext; [done|].
  simpl. rewrite (Hext p) by (by left). f_equal. apply IH.
  intros q Hq. apply Hext. by right.
Qed.

(** The outer loop from any state: entries are added or updated in place,
    nothing else moves, and the counters count as the script reports. *)
Lemma merge_loop (new : dict (dict V)) (st0 : merge_state V) :
  dict_wf new →
  (∀ item, item ∈ new → dict_wf (snd item)) →
  ∃ st, for_each merge_entry new st0 = Ok st ∧
    (∀ p, dict_get (merged_game_ids st) p =
          match dict_get new p with
          | None => dict_get (merged_game_ids st0) p
          | Some port_ids =>
              Some match dict_get (merged_game_ids st0) p with
                   | None => port_ids
                   | Some entry => dict_update entry port_ids
                   end
          end) ∧
    new_entries st = (new_entries st0 + new_count (merged_game_ids st0) new)%nat ∧
    updated_entries st =
      (updated_entries st0 + updated_count (merged_game_ids st0) new)%nat.
Proof.
  unfold dict_wf, dict_keys. revert st0.
  induction new as [|[p0 ids0] rest IH]; intros st0 Hwf Hinner.
  - exists st0. simpl. unfold new_count, updated_count. simpl.
    repeat split; try done; lia.
  - simpl in Hwf. apply NoDup_cons in Hwf as [Hnin Hnd].
    simpl for_each. rewrite merge_entry_spec by (apply (Hinner (p0, ids0)); by left).
    cbn [mbind result_bind].
    set (st1 := match dict_get (merged_game_ids st0) p0 with
                | None => _ | Some entry => _ end).
    assert (Hother : ∀ q, q ≠ p0 →
              dict_get (merged_game_ids st1) q = dict_get (merged_game_ids st0) q).
    { intros q Hq. unfold st1.
      destruct (dict_get (merged_game_ids st0) p0); cbn [merged_game_ids];
        by rewrite dict_get_set, decide_False. }
    assert (Hrest : ∀ q, q ∈ dict_keys rest →
              dict_get (merged_game_ids st1) q = dict_get (merged_game_ids st0) q).
    { intros q Hq. apply Hother. by intros ->. }
    destruct (IH st1 Hnd) as (st & Hloop & Hget & Hnew & Hupd).
    { intros item Hitem. apply Hinner. by right. }
    exists st. split; [done|]. split; [|split].
    + intros p. rewrite Hget. simpl dict_get.
      destruct (decide (p0 = p)) as [<-|Hne].
      * apply dict_get_None_keys in Hnin. rewrite Hnin. unfold st1.
        destruct (dict_get (merged_game_ids st0) p0); cbn [merged_game_ids];
          by rewrite dict_get_set, decide_True.
      * by rewrite Hother.
    + rewrite Hnew, (new_count_ext _ _ _ Hrest). unfold new_count at 2.
      rewrite filter_cons. cbn [fst]. unfold st1.
      destruct (dict_get (merged_game_ids st0) p0) eqn:Hp0;
        cbn [new_entries].
      * rewrite decide_False by done. unfold new_count. lia.
      * rewrite decide_True by done. unfold new_count. simpl. lia.
    + rewrite Hupd, (updated_count_ext _ _ _ Hrest). unfold updated_count at 2.
      simpl. unfold st1.
      destruct (dict_get (merged_game_ids st0) p0) eqn:Hp0;
        cbn [updated_entries]; unfold updated_count; lia.
Qed.

Lemma dict_get_elem_of {A : Type} (d : dict A) (k : string) (a : A) :
  dict_get d k = Some a → (k, a) ∈ d.
Proof.
  induction d as [|[k0 a0] d IH]; simpl; [done|].
  destruct (decide (k0 = k)) as [->|Hne].
  - intros [= ->]. by left.
  - intros Hg. right. by apply IH.
Qed.

(** C8. The merge into the index removes nothing: every entry of the prior
    index is in the merged one with every field it had; an entry the index
    lacked is added with exactly its extracted fields; in an entry the index
    had, a field takes the extracted value when there is one and keeps its
    value otherwise, and it is written (and counted) only when the extracted
    value differs from the indexed one or the field was missing. *)
Theorem merge_game_ids_never_removes (existing new : dict (dict V)) :
  dict_wf new →
  (∀ item, item ∈ new → dict_wf (snd item)) →
  ∃ st, merge_game_ids existing new = Ok st ∧
    (∀ p entry, dict_get existing p = Some entry →
       ∃ entry', dict_get (merged_game_ids st) p = Some entry' ∧
         ∀ f v, dict_get entry f = Some v → is_Some (dict_get entry' f)) ∧
    (∀ p port_ids, dict_get existing p = None → dict_get new p = Some port_ids →
       dict_get (merged_game_ids st) p = Some port_ids) ∧
    (∀ p entry port_ids,
       dict_get existing p = Some entry → dict_get new p = Some port_ids →
       ∃ entry', dict_get (merged_game_ids st) p = Some entry' ∧
         ∀ f, dict_get entry' f =
              match dict_get port_ids f with
              | Some v => Some v
              | None => dict_get entry f
              end) ∧
    (∀ p, dict_get new p = None →
       dict_get (merged_game_ids st) p = dict_get existing p) ∧
    new_entries st = new_count existing new ∧
    updated_entries st = updated_count existing new ∧
    (∀ entry (updated : nat) f v,
       merge_field (entry, updated) (f, v) =
       if decide (dict_get entry f = Some v) then (entry, updated)
       else (dict_set entry f v, S updated)).
Proof.
  intros Hwf Hinner. unfold merge_game_ids, dict_items.
  destruct (merge_loop new
              {| merged_game_ids := existing; new_entries := 0;
                 updated_entries := 0 |} Hwf Hinner)
    as (st & Hloop & Hget & Hnew & Hupd).
  cbn [merged_game_ids new_entries updated_entries] in *.
  exists st. split; [done|].
  assert (Hupdate : ∀ p entry port_ids f,
            dict_get new p = Some port_ids →
            dict_get (dict_update entry port_ids) f =
            match dict_get port_ids f with
            | Some v => Some v
            | None => dict_get entry f
            end).
  { intros p entry port_ids f Hp. apply dict_get_update.
    apply (Hinner (p, port_ids)). by apply dict_get_elem_of. }
  split; [|split; [|split; [|split; [|split; [|split]]]]].
  - intros p entry Hp. rewrite Hget, Hp.
    destruct (dict_get new p) as [port_ids|] eqn:Hn.
    + eexists. split; [done|]. intros f v Hf.
      rewrite (Hupdate p) by done. rewrite Hf.
      destruct (dict_get port_ids f); by eexists.
    + exists entry. split; [done|]. intros f v Hf. by eexists.
  - intros p port_ids Hp Hn. by rewrite Hget, Hn, Hp.
  - intros p entry port_ids Hp Hn. rewrite Hget, Hn, Hp.
    eexists. split; [done|]. intros f. by apply (Hupdate p).
  - intros p Hn. by rewrite Hget, Hn.
  - by rewrite Hnew.
  - by rewrite Hupd.
  - intros entry updated f v. destruct (decide _) as [Heq|Hne].
    + by apply merge_field_same.
    + by apply merge_field_changed.
Qed.

End game_ids_facts.

Lemma merge_game_ids_never_removes_witness :
  ∃ st, merge_game_ids sample_index sample_scan = Ok st ∧
    dict_get (merged_game_ids st) "quake" = Some [("steam_id", "2310")] ∧
    dict_get (merged_game_ids st) "celeste" = Some [("igdb_id", "26226")] ∧
    new_entries st = 1%nat ∧
    updated_entries st = 2%nat.
Proof.
  destruct (merge_game_ids_never_removes sample_index sample_scan)
    as (st & Hst & _ & Hadd & _ & Hkeep & Hnew & Hupd & _).
  - apply sample_wf. reflexivity.
  - intros item Hitem. apply sample_wf.
    unfold sample_scan in Hitem.
    apply elem_of_cons in Hitem as [->|Hitem]; [reflexivity|].
    apply elem_of_cons in Hitem as [->|Hitem]; [reflexivity|].
    by apply elem_of_nil in Hitem.
  - exists st. split; [exact Hst|]. split; [|split; [|split]].
    + rewrite Hkeep; reflexivity.
    + apply Hadd; reflexivity.
    + rewrite Hnew. reflexivity.
    + rewrite Hupd. reflexivity.
Defined.

(** ** The removal of the identifier fields *)

Section removal_facts.
Context {V R : Type}.
Implicit Types (a : dict V) (port_data : port_json V R)
  (fs : gmap (string * string) (file_content V R)).

Lemma dict_remove_filter a (field : string) :
  dict_remove a field = filter (fun kv => fst kv ≠ field) a.
Proof.
  induction a as [|[k v] a IH]; simpl; [done|].
  rewrite filter_cons. cbn [fst].
  destruct (decide (k = field)) as [->|Hne].
  - by rewrite decide_False by (by intros ?).
  - rewrite decide_True by done. by rewrite IH.
Qed.

Lemma dict_remove_absent a (field : string) :
  dict_mem a field = false → dict_remove a field = a.
Proof.
  intros Hm%dict_mem_false. induction a as [|[k v] a IH]; simpl in *; [done|].
  destruct (decide (k = field)); [done|]. by rewrite IH.
Qed.

Lemma dict_get_filter_keys a (P : string → Prop) `{∀ k, Decision (P k)} (k : string) :
  dict_get (filter (fun kv => P (fst kv)) a) k =
  if decide (P k) then dict_get a k else None.
Proof.
  induction a as [|[k0 v0] a IH]; simpl.
  - by destruct (decide (P k)).
  - rewrite filter_cons. cbn [fst]. destruct (decide (P k0)) as [Hk0|Hk0]; simpl.
    + rewrite IH. destruct (decide (k0 = k)) as [->|]; [|done].
      by destruct (decide (P k)).
    + rewrite IH. destruct (decide (k0 = k)) as [->|]; [|done].
      by destruct (decide (P k)).
Qed.

(** One field: it is deleted if it is there, and [modified] records it. *)
Lemma remove_field_spec port_data (modified : bool) (field : string) :
  remove_field (port_data, modified) field =
  Ok ({| attr := (fun a => dict_remove a field) <$> attr port_data;
         other_members := other_members port_data |},
      (modified || dict_mem (default [] (attr port_data)) field)%bool).
Proof.
  destruct port_data as [a r]. unfold remove_field. cbn [fst snd attr other_members].
  destruct (dict_mem (default [] a) field) eqn:Hmem.
  - destruct a as [a|]; [|done]. cbn [default from_option id] in Hmem.
    unfold dict_del. rewrite Hmem. cbn [mbind result_bind].
    by rewrite orb_true_r.
  - rewrite orb_false_r. destruct a as [a|]; [|done].
    cbn [default from_option id] in Hmem. simpl.
    by rewrite dict_remove_absent.
Qed.

(** The loop over any list of fields deletes those fields and reports
    whether one of them was there. *)
Lemma remove_fields_loop (fields : list string) port_data (modified : bool) :
  for_each remove_field fields (port_data, modified) =
  Ok ({| attr := filter (fun kv => fst kv ∉ fields) <$> attr port_data;
         other_members := other_members port_data |},
      (modified || existsb (dict_mem (default [] (attr port_data))) fields)%bool).
Proof.
  revert port_data modified.
  induction fields as [|field rest IH]; intros [a r] modified.
  - simpl. rewrite orb_false_r. do 3 f_equal. destruct a as [a|]; [|done].
    simpl. f_equal. induction a as [|kv a IHa]; [done|].
    rewrite filter_cons_True by apply not_elem_of_nil. by f_equal.
  - simpl for_each. rewrite remove_field_spec. cbn [mbind result_bind].
    rewrite IH. cbn [attr other_members existsb]. f_equal. f_equal.
    + f_equal. destruct a as [a|]; [|done]. simpl. f_equal.
      rewrite dict_remove_filter, list_filter_filter.
      apply list_filter_iff. intros [k v]. cbn [fst]. rewrite not_elem_of_cons.
      split; [by intros [? ?] | by intros [? ?]].
    + rewrite <- orb_assoc. f_equal.
      destruct (dict_mem (default [] a) field) eqn:Hmem; [done|].
      destruct a as [a|]; [|done]. cbn [default from_option id] in Hmem.
      simpl. by rewrite dict_remove_absent.
Qed.

Lemma without_removal_fields_clean port_data :
  has_removal_field (without_removal_fields port_data) = false.
Proof.
  unfold has_removal_field, without_removal_fields. cbn [attr].
  destruct (attr port_data) as [a|]; [|done]. cbn [fmap option_fmap option_map default from_option id].
  apply not_true_is_false. intros (f & Hf & Hmem)%existsb_exists.
  apply dict_mem_true in Hmem as [v Hv].
  pose proof (dict_get_filter_keys a (fun k => k ∉ removal_fields) f) as Hget.
  cbv beta in Hget. rewrite Hget in Hv.
  destruct (decide _) as [Hnin|_]; [|done]. apply Hnin. by apply list_elem_of_In.
Qed.

(** One port: the step of the loop computes [processed], unless the
    metadata cannot be read. *)
Lemma remove_ids_from_port_spec (is_dir : string → bool) fs (n : nat)
    (port_name : string) :
  if unreadable is_dir fs port_name
  then remove_ids_from_port is_dir (fs, n) port_name = Raise UnicodeDecodeError
  else ∃ n', remove_ids_from_port is_dir (fs, n) port_name =
             Ok (processed is_dir port_name fs, n').
Proof.
  unfold remove_ids_from_port, processed, unreadable. cbn [fst snd].
  destruct (is_dir port_name); [|by eexists]. cbn [negb andb].
  destruct (fs !! (port_name, "port.json")) as [[| |port_data]|] eqn:Hf;
    [by eexists|done| |by eexists].
  rewrite remove_fields_loop. cbn [orb].
  fold (has_removal_field port_data). fold (without_removal_fields port_data).
  destruct (has_removal_field port_data); [|by eexists].
  unfold rename. rewrite Hf. by eexists.
Qed.

(** Handling one port touches no other directory. *)
Lemma processed_frame (is_dir : string → bool) fs (p q f : string) :
  q ≠ p → processed is_dir p fs !! (q, f) = fs !! (q, f).
Proof.
  intros Hne. unfold processed. destruct (is_dir p); [|done].
  destruct (fs !! (p, "port.json")) as [[| |port_data]|]; try done.
  destruct (has_removal_field port_data); [|done].
  rewrite !lookup_insert_ne by congruence. apply lookup_delete_ne. congruence.
Qed.

(** What happens in a directory depends on that directory only. *)
Lemma processed_local (is_dir : string → bool) fs1 fs2 (p f : string) :
  (∀ f', fs1 !! (p, f') = fs2 !! (p, f')) →
  processed is_dir p fs1 !! (p, f) = processed is_dir p fs2 !! (p, f).
Proof.
  intros Hsame. unfold processed. destruct (is_dir p); [|done].
  rewrite (Hsame "port.json").
  destruct (fs2 !! (p, "port.json")) as [[| |port_data]|]; try done.
  destruct (has_removal_field port_data); [|done].
  rewrite !lookup_insert, !lookup_delete, Hsame.
  repeat case_decide; done.
Qed.

(** A port that was handled is left alone when it comes up again. *)
Lemma processed_idemp (is_dir : string → bool) fs (p : string) :
  processed is_dir p (processed is_dir p fs) = processed is_dir p fs.
Proof.
  unfold processed. destruct (is_dir p) eqn:Hdir; [|done].
  destruct (fs !! (p, "port.json")) as [[| |port_data]|] eqn:Hf;
    rewrite ?Hf; try done.
  destruct (has_removal_field port_data) eqn:Hhas; [|by rewrite Hf, Hhas].
  by rewrite lookup_insert_eq, without_removal_fields_clean.
Qed.

(** Handling a port leaves the metadata that cannot be read as it is. *)
Lemma processed_unreadable (is_dir : string → bool) fs (p q : string) :
  unreadable is_dir (processed is_dir p fs) q = unreadable is_dir fs q.
Proof.
  unfold unreadable. destruct (is_dir q); [|done]. cbn [andb].
  destruct (decide (q = p)) as [->|Hne]; [|by rewrite processed_frame].
  unfold processed. destruct (is_dir p); [|done].
  destruct (fs !! (p, "port.json")) as [[| |port_data]|] eqn:Hf;
    rewrite ?Hf; try done.
  destruct (has_removal_field port_data); [|by rewrite Hf].
  by rewrite lookup_insert_eq.
Qed.

Lemma handled_processed (is_dir : string → bool) fs (p : string)
    (names : list string) :
  handled is_dir (processed is_dir p fs) names = handled is_dir fs names.
Proof.
  induction names as [|q rest IH]; simpl; [done|].
  by rewrite processed_unreadable, IH.
Qed.

Lemma handled_all (is_dir : string → bool) fs (names : list string) :
  (∀ q, q ∈ names → unreadable is_dir fs q = false) →
  handled is_dir fs names = names.
Proof.
  induction names as [|q rest IH]; intros Hall; simpl; [done|].
  rewrite Hall by (by left). f_equal. apply IH. intros q' Hq'. apply Hall.
  by right.
Qed.

Lemma handled_app (is_dir : string → bool) fs (before after : list string) :
  (∀ q, q ∈ before → unreadable is_dir fs q = false) →
  handled is_dir fs (before ++ after) = before ++ handled is_dir fs after.
Proof.
  induction before as [|q rest IH]; intros Hall; simpl; [done|].
  rewrite Hall by (by left). f_equal. apply IH. intros q' Hq'. apply Hall.
  by right.
Qed.

(** The loop over the listing: every port the run gets to is handled as if
    it were alone, no other name is touched, and the run ends with
    [UnicodeDecodeError] exactly when it does not get to every name. *)
Lemma remove_ids_loop (is_dir : string → bool) (names : list string) fs (n : nat) :
  ∃ fs' n',
    for_each_state (remove_ids_from_port is_dir) names (fs, n) =
    ((fs', n'),
     if decide (handled is_dir fs names = names) then Ok tt
     else Raise UnicodeDecodeError) ∧
    ∀ p f, fs' !! (p, f) =
           if decide (p ∈ handled is_dir fs names)
           then processed is_dir p fs !! (p, f)
           else fs !! (p, f).
Proof.
  revert fs n. induction names as [|q rest IH]; intros fs n.
  - exists fs, n. split; [done|]. intros p f.
    by rewrite decide_False by apply not_elem_of_nil.
  - simpl for_each_state. simpl handled.
    pose proof (remove_ids_from_port_spec is_dir fs n q) as Hstep.
    destruct (unreadable is_dir fs q) eqn:Hq.
    + rewrite Hstep. exists fs, n. split; [done|]. intros p f.
      by rewrite decide_False by apply not_elem_of_nil.
    + destruct Hstep as [n1 ->].
      destruct (IH (processed is_dir q fs) n1) as (fs' & n' & Hloop & Hget).
      rewrite handled_processed in Hloop, Hget.
      exists fs', n'. split.
      { rewrite Hloop. f_equal.
        destruct (decide (handled is_dir fs rest = rest)) as [He|He].
        - by rewrite decide_True by (by rewrite He).
        - rewrite decide_False; [done|]. by intros [= ?]. }
      intros p f. rewrite Hget.
      destruct (decide (p = q)) as [->|Hne].
      * rewrite (decide_True (P := q ∈ q :: _)) by (by left).
        destruct (decide (q ∈ _)); [|done]. by rewrite processed_idemp.
      * destruct (decide (p ∈ handled is_dir fs rest)) as [Hin|Hnin].
        -- rewrite decide_True by (by right). apply processed_local.
           intros f'. by apply processed_frame.
        -- rewrite decide_False by (by intros [?|?]%elem_of_cons).
           by apply processed_frame.
Qed.

(** C9. For every metadata file the removal gets to (the [port.json] of a
    listed directory, when it parses and the metadata of the directories
    listed before it can be read): if one of the removal fields is present,
    then afterwards the [.bak] sibling holds the content the file had, the
    file is the original without exactly those fields, and the rest of the
    directory is as it was; if none is present, the whole directory is as
    it was, with no backup made. This holds when the run ends, on whatever
    it ends; it ends without an exception when the metadata of the
    directories listed after can be read as well. *)
Theorem remove_ids_backs_up (d : ports_dir V R) (before after : list string)
    (p : string) port_data :
  listing d = before ++ p :: after →
  (∀ q, q ∈ before → unreadable (isdir d) (files d) q = false) →
  isdir d p = true →
  files d !! (p, "port.json") = Some (Json port_data) →
  ∃ fs' n r, remove_ids_from_ports d = ((fs', n), r) ∧
    (if has_removal_field port_data then
       fs' !! (p, "port.json.bak") = Some (Json port_data) ∧
       fs' !! (p, "port.json") = Some (Json (without_removal_fields port_data)) ∧
       (∀ f, f ≠ "port.json" → f ≠ "port.json.bak" →
             fs' !! (p, f) = files d !! (p, f))
     else
       ∀ f, fs' !! (p, f) = files d !! (p, f)) ∧
    ((∀ q, q ∈ after → unreadable (isdir d) (files d) q = false) → r = Ok tt).
Proof.
  intros Hlist Hbefore Hdir Hfile. unfold remove_ids_from_ports.
  destruct (remove_ids_loop (isdir d) (listing d) (files d) 0)
    as (fs' & n & Hloop & Hget).
  assert (Hreadable : unreadable (isdir d) (files d) p = false).
  { unfold unreadable. by rewrite Hfile, andb_false_r. }
  eexists fs', n, _. split; [exact Hloop|].
  assert (Hp : ∀ f, fs' !! (p, f) = processed (isdir d) p (files d) !! (p, f)).
  { intros f. rewrite Hget, decide_True; [done|].
    rewrite Hlist, handled_app by done. apply elem_of_app. right.
    simpl. rewrite Hreadable. by left. }
  split.
  - unfold processed in Hp. rewrite Hdir, Hfile in Hp.
    destruct (has_removal_field port_data); [|done].
    split; [|split].
    + rewrite Hp, lookup_insert_ne by done. by rewrite lookup_insert_eq.
    + by rewrite Hp, lookup_insert_eq.
    + intros f Hf Hb. rewrite Hp, !lookup_insert_ne by congruence.
      apply lookup_delete_ne. congruence.
  - intros Hafter. rewrite decide_True; [done|].
    apply handled_all. intros q Hq. rewrite Hlist in Hq.
    apply elem_of_app in Hq as [Hq|Hq]; [by apply Hbefore|].
    apply elem_of_cons in Hq as [->|Hq]; [done|by apply Hafter].
Qed.

(** A directory that holds no parsed metadata with a removal field is not
    touched, whether it is listed or not. *)
Lemma remove_ids_untouched (d : ports_dir V R) (p : string) :
  (∀ port_data, isdir d p = true →
     files d !! (p, "port.json") = Some (Json port_data) →
     has_removal_field port_data = false) →
  ∀ f, fst (fst (remove_ids_from_ports d)) !! (p, f) = files d !! (p, f).
Proof.
  intros Hnone f. unfold remove_ids_from_ports.
  destruct (remove_ids_loop (isdir d) (listing d) (files d) 0)
    as (fs' & n & Hloop & Hget).
  rewrite Hloop. cbn [fst]. rewrite Hget.
  destruct (decide (p ∈ _)); [|done].
  unfold processed. destruct (isdir d p) eqn:Hdir; [|done].
  destruct (files d !! (p, "port.json")) as [[| |port_data]|] eqn:Hf; try done.
  by rewrite (Hnone port_data).
Qed.

End removal_facts.

Lemma remove_ids_backs_up_witness :
  ∃ fs' n r, remove_ids_from_ports garbled_ports_dir = ((fs', n), r) ∧
    fs' !! ("doom", "port.json.bak") = Some (Json sample_port_json) ∧
    fs' !! ("doom", "port.json") =
      Some (Json {| attr := Some [("title", "Doom"); ("rtr", "false")];
                    other_members := ["doom.sh"] |}) ∧
    fs' !! ("doom", "doom.sh") = None.
Proof.
  destruct (remove_ids_backs_up garbled_ports_dir [] ["garbled"; "quake"]
              "doom" sample_port_json)
    as (fs' & n & r & Hrun & Hdoom & _).
  - reflexivity.
  - intros q Hq. by apply elem_of_nil in Hq.
  - reflexivity.
  - reflexivity.
  - change (has_removal_field sample_port_json) with true in Hdoom.
    destruct Hdoom as (Hbak & Hlive & Hrest).
    exists fs', n, r. split; [exact Hrun|]. split; [exact Hbak|]. split.
    + exact Hlive.
    + rewrite Hrest by done. reflexivity.
Defined.

(** * Further properties *)

(** ** The retrying request, case by case *)

(** An attempt whose response [raise_for_status] accepts returns it. *)
Lemma attempt_body_accepted (t : transport) (attempt : nat) (w : world)
    (resp : response) :
  t (requests_made w) = Responds resp →
  raise_for_status resp = Ok tt →
  attempt_body t attempt w =
  ({| requests_made := S (requests_made w); slept := slept w |},
   Ok (Return (Some resp))).
Proof.
  intros Ht Hok. unfold attempt_body, try_block, request. rewrite Ht.
  assert (Hne : (status_code resp =? 400)%Z = false).
  { apply Z.eqb_neq. intros H400. unfold raise_for_status in Hok.
    rewrite H400 in Hok. discriminate Hok. }
  rewrite Hne. cbn [andb]. by rewrite Hok.
Qed.

(** Every answer of the transport either fails or is accepted. *)
Lemma failed_or_accepted (o : outcome) :
  failed o ∨ ∃ resp, o = Responds resp ∧ raise_for_status resp = Ok tt.
Proof.
  destruct o as [resp|]; [|by left]. unfold failed, raise_for_status.
  destruct ((400 <=? status_code resp)%Z && (status_code resp <? 600)%Z)%bool
    eqn:Hs; [by left|].
  right. exists resp. split; [done|]. unfold raise_for_status. by rewrite Hs.
Qed.

(** The loop over consecutive attempts, classified: it fails [k] times,
    sleeping after each failure, and then either returns the accepted
    response of the next attempt or has run out of attempts. *)
Lemma retry_loop_cases (t : transport) (a n : nat) (w : world) :
  ∃ k, (k ≤ n)%nat ∧
    (∀ i, (i < k)%nat → failed (t (requests_made w + i)%nat)) ∧
    slept (fst (retry_loop t (seq a n) w)) = slept w ++ backoff (seq a k) ∧
    ((k = n ∧ snd (retry_loop t (seq a n) w) = Ok None ∧
      requests_made (fst (retry_loop t (seq a n) w)) = (requests_made w + n)%nat)
     ∨
     (k < n)%nat ∧ ∃ resp,
       t (requests_made w + k)%nat = Responds resp ∧
       raise_for_status resp = Ok tt ∧
       snd (retry_loop t (seq a n) w) = Ok (Some resp) ∧
       requests_made (fst (retry_loop t (seq a n) w)) = (requests_made w + k + 1)%nat).
Proof.
  revert a w. induction n as [|n IH]; intros a w.
  - exists 0%nat. split; [done|]. split; [intros i Hi; lia|].
    simpl. rewrite app_nil_r. split; [done|]. left. split; [done|].
    split; [done | lia].
  - destruct (failed_or_accepted (t (requests_made w))) as [Hf|(resp & Ht & Hok)].
    + simpl retry_loop. rewrite attempt_body_failed by done.
      set (w1 := {| requests_made := S (requests_made w);
                    slept := slept w ++ [(2 ^ Z.of_nat a)%Z] |}).
      destruct (IH (S a) w1) as (k & Hk & Hfail & Hslept & Hcase).
      exists (S k). split; [lia|]. split; [|split].
      * intros [|i] Hi; [by rewrite Nat.add_0_r|].
        replace (requests_made w + S i)%nat with (requests_made w1 + i)%nat
          by (simpl; lia).
        apply Hfail. lia.
      * rewrite Hslept. simpl. by rewrite <- app_assoc.
      * destruct Hcase as [(-> & Hnone & Hreq)|(Hlt & resp & Ht & Hok & Hsome & Hreq)].
        { left. split; [done|]. split; [done|]. rewrite Hreq. simpl. lia. }
        { right. split; [lia|]. exists resp.
          replace (requests_made w + S k)%nat with (requests_made w1 + k)%nat
            by (simpl; lia).
          split; [done|]. split; [done|]. split; [done|].
          rewrite Hreq. simpl. lia. }
    + exists 0%nat. split; [lia|]. split; [intros i Hi; lia|].
      simpl retry_loop. rewrite (attempt_body_accepted t a w resp) by done.
      simpl. rewrite app_nil_r. split; [done|]. right. split; [lia|].
      exists resp. rewrite Nat.add_0_r. repeat split; [done|done|lia].
Qed.

(** X1. [retry_request] never hands back an error response: what it returns
    is [None] or a response of one of its requests that [raise_for_status]
    accepts, that is, one whose status is outside 400..599. *)
Theorem retry_request_returns_accepted (t : transport) (w : world)
    (resp : response) :
  snd (retry_request t w) = Ok (Some resp) →
  ¬ (400 ≤ status_code resp < 600)%Z ∧
  ∃ k, (k < 5)%nat ∧ t (requests_made w + k)%nat = Responds resp ∧
       requests_made (fst (retry_request t w)) = (requests_made w + k + 1)%nat.
Proof.
  unfold retry_request. intros Hret.
  destruct (retry_loop_cases t 0 5 w) as (k & Hk & _ & _ & Hcase).
  destruct Hcase as [(_ & Hnone & _)|(Hlt & resp' & Ht & Hok & Hsome & Hreq)];
    [congruence|].
  assert (resp' = resp) as -> by congruence. split.
  - intros Hrange. unfold raise_for_status in Hok.
    destruct (400 <=? status_code resp)%Z eqn:H1;
      destruct (status_code resp <? 600)%Z eqn:H2; simpl in Hok;
      try discriminate Hok; lia.
  - by exists k.
Qed.

(** X2. The first attempt that is accepted ends the run: when the first [k]
    requests fail ([k < 5]) and the next response is accepted, that response
    is returned after [k + 1] requests and the sleeps 1, 2, ..., 2^(k-1). *)
Theorem retry_request_first_success (t : transport) (w : world) (k : nat)
    (resp : response) :
  (k < 5)%nat →
  (∀ i, (i < k)%nat → failed (t (requests_made w + i)%nat)) →
  t (requests_made w + k)%nat = Responds resp →
  raise_for_status resp = Ok tt →
  retry_request t w =
  ({| requests_made := requests_made w + k + 1;
      slept := slept w ++ backoff (seq 0 k) |}, Ok (Some resp)).
Proof.
  intros Hk Hfail Ht Hok. unfold retry_request.
  destruct (retry_loop_cases t 0 5 w) as (k' & Hk' & Hfail' & Hslept & Hcase).
  assert (Hacc : ¬ failed (Responds resp)).
  { unfold failed. rewrite Hok. discriminate. }
  assert (k' = k) as ->.
  { destruct (Nat.lt_trichotomy k' k) as [Hlt|[->|Hgt]]; [|done|].
    - exfalso. destruct Hcase as [(-> & _)|(_ & resp' & Ht' & Hok' & _)]; [lia|].
      specialize (Hfail k' Hlt). rewrite Ht' in Hfail. unfold failed in Hfail.
      congruence.
    - exfalso. specialize (Hfail' k Hgt). by rewrite Ht in Hfail'. }
  destruct Hcase as [(-> & _)|(_ & resp' & Ht' & _ & Hsome & Hreq)]; [lia|].
  assert (resp' = resp) as -> by congruence.
  destruct (retry_loop t (seq 0 5) w) as [w' r]. simpl in *. subst r.
  f_equal. destruct w' as [rq sl]. simpl in *. by subst.
Qed.

Lemma retry_request_first_success_witness :
  retry_request
    (fun n => if (n <? 2)%nat then Fails else Responds (Response 200 "[]"))
    (World 0 []) =
  ({| requests_made := 3; slept := [1; 2]%Z |},
   Ok (Some (Response 200 "[]"))).
Proof.
  apply (retry_request_first_success
           (fun n => if (n <? 2)%nat then Fails else Responds (Response 200 "[]"))
           (World 0 []) 2 (Response 200 "[]")).
  - lia.
  - intros i Hi. simpl. destruct (i <? 2)%nat eqn:Hlt; [done|].
    apply Nat.ltb_ge in Hlt. lia.
  - reflexivity.
  - reflexivity.
Defined.

Lemma retry_request_returns_accepted_witness :
  ¬ (400 ≤ 200 < 600)%Z ∧
  ∃ k, (k < 5)%nat ∧
    (fun n => if (n <? 2)%nat then Fails else Responds (Response 200 "[]"))
      (0 + k)%nat = Responds (Response 200 "[]") ∧
    requests_made
      (fst (retry_request
              (fun n => if (n <? 2)%nat then Fails else Responds (Response 200 "[]"))
              (World 0 []))) = (0 + k + 1)%nat.
Proof.
  apply (retry_request_returns_accepted
           (fun n => if (n <? 2)%nat then Fails else Responds (Response 200 "[]"))
           (World 0 []) (Response 200 "[]")).
  reflexivity.
Defined.

(** ** The identifier mapping *)

#[local] Instance claims_id_dec igdb_id item : Decision (claims_id igdb_id item).
Proof.
  unfold claims_id. destruct (dict_get (snd item) "igdb_id") as [v|].
  - destruct (py_truthy v) eqn:Ht.
    + destruct (decide (py_str v = igdb_id)) as [He|Hne].
      * left. by exists v.
      * right. intros (v' & [= <-] & _ & He). done.
    + right. intros (v' & [= <-] & Ht' & _). congruence.
  - right. by intros (v' & Hv & _).
Defined.

Lemma extract_igdb_id_spec (st : dict string * nat)
    (item : string * dict json_scalar) :
  extract_igdb_id st item =
  Ok (match dict_get (snd item) "igdb_id" with
      | Some v =>
          if py_truthy v then dict_set (fst st) (py_str v) (fst item)
          else fst st
      | None => fst st
      end, S (snd st)).
Proof.
  unfold extract_igdb_id, dict_mem, dict_getitem.
  destruct (dict_get (snd item) "igdb_id") as [v|]; [|done].
  cbn [mbind result_bind]. by destruct (py_truthy v).
Qed.

(** The loop from any state: a key is mapped to the last game that claims
    it, or left as it was when no game does. *)
Lemma extract_igdb_loop (games : dict (dict json_scalar)) (st : dict string * nat)
  : ∃ st', for_each extract_igdb_id games st = Ok st' ∧
      snd st' = (snd st + length games)%nat ∧
      (dict_wf (fst st) → dict_wf (fst st')) ∧
      ∀ igdb_id, dict_get (fst st') igdb_id =
        match last (filter (claims_id igdb_id) games) with
        | Some item => Some (fst item)
        | None => dict_get (fst st) igdb_id
        end.
Proof.
  revert st. induction games as [|item rest IH]; intros st.
  - exists st. simpl. repeat split; [lia|done].
  - simpl for_each. rewrite extract_igdb_id_spec. cbn [mbind result_bind].
    set (m1 := match dict_get (snd item) "igdb_id" with
               | Some v => if py_truthy v then _ else _ | None => _ end).
    destruct (IH (m1, S (snd st))) as (st' & Hloop & Hcount & Hwf & Hget).
    exists st'. split; [done|]. split; [simpl in *; lia|]. split.
    + intros Hst. apply Hwf. cbn [fst]. unfold m1.
      destruct (dict_get (snd item) "igdb_id") as [v|]; [|done].
      destruct (py_truthy v); [by apply dict_wf_set | done].
    + intros igdb_id. rewrite Hget. cbn [fst]. rewrite filter_cons.
      assert (Hm1 : dict_get m1 igdb_id =
                if decide (claims_id igdb_id item) then Some (fst item)
                else dict_get (fst st) igdb_id).
      { unfold m1. destruct (decide (claims_id igdb_id item)) as [(v & -> & -> & <-)|Hno].
        - by rewrite dict_get_set, decide_True.
        - destruct (dict_get (snd item) "igdb_id") as [v|] eqn:Hv; [|done].
          destruct (py_truthy v) eqn:Ht; [|done].
          rewrite dict_get_set, decide_False; [done|].
          intros He. apply Hno. by exists v. }
      rewrite Hm1. destruct (decide (claims_id igdb_id item)).
      * rewrite last_cons. by destruct (last (filter _ rest)).
      * done.
Qed.

Lemma extract_igdb_ids_lookup (games : dict (dict json_scalar)) :
  ∃ igdb_mapping, extract_igdb_ids games = Ok igdb_mapping ∧
    dict_wf igdb_mapping ∧
    ∀ igdb_id, dict_get igdb_mapping igdb_id =
               fst <$> last (filter (claims_id igdb_id) games).
Proof.
  unfold extract_igdb_ids, dict_items.
  destruct (extract_igdb_loop games ([], 0%nat)) as (st' & -> & _ & Hwf & Hget).
  cbn [mbind result_bind]. exists (fst st'). split; [done|]. split.
  - apply Hwf. apply NoDup_nil_2.
  - intros igdb_id. rewrite Hget. by destruct (last _).
Qed.

(** The last element of a list that satisfies a test, located. *)
Lemma last_filter_split {A : Type} (P : A → Prop) `{∀ x, Decision (P x)}
    (l : list A) (x : A) :
  last (filter P l) = Some x →
  ∃ l1 l2, l = l1 ++ x :: l2 ∧ P x ∧ ∀ y, y ∈ l2 → ¬ P y.
Proof.
  induction l as [|y l' IH] using rev_ind; [done|].
  rewrite filter_app, filter_cons, filter_nil.
  destruct (decide (P y)) as [Hy|Hy].
  - rewrite last_snoc. intros [= <-]. exists l', []. split; [done|].
    split; [done|]. by intros z ?%elem_of_nil.
  - rewrite app_nil_r. intros Hlast.
    destruct (IH Hlast) as (l1 & l2 & -> & Hx & Hl2).
    exists l1, (l2 ++ [y]). split; [by rewrite <- app_assoc|]. split; [done|].
    intros z [Hz|Hz%list_elem_of_singleton]%elem_of_app; [by apply Hl2|].
    by subst z.
Qed.

(** X3. The identifier mapping has exactly the keys that some game claims
    (its [igdb_id] is present, true and reads as the key), and a key stands
    for the last game of the file that claims it; no exception is raised. *)
Theorem extract_igdb_ids_last_wins (games : dict (dict json_scalar)) :
  ∃ igdb_mapping, extract_igdb_ids games = Ok igdb_mapping ∧
    (∀ igdb_id game_key, dict_get igdb_mapping igdb_id = Some game_key →
       ∃ before game_data after,
         games = before ++ (game_key, game_data) :: after ∧
         claims_id igdb_id (game_key, game_data) ∧
         ∀ item, item ∈ after → ¬ claims_id igdb_id item) ∧
    (∀ igdb_id item, item ∈ games → claims_id igdb_id item →
       is_Some (dict_get igdb_mapping igdb_id)).
Proof.
  destruct (extract_igdb_ids_lookup games) as (m & Hm & _ & Hget).
  exists m. split; [done|]. split.
  - intros igdb_id game_key. rewrite Hget.
    destruct (last (filter (claims_id igdb_id) games)) as [[g data]|] eqn:Hlast;
      [|done].
    intros [= <-].
    destruct (last_filter_split _ _ _ Hlast) as (l1 & l2 & -> & Hc & Hl2).
    by exists l1, data, l2.
  - intros igdb_id item Hin Hc. rewrite Hget.
    assert (Hin2 : item ∈ filter (claims_id igdb_id) games)
      by (by apply list_elem_of_filter).
    destruct (last (filter (claims_id igdb_id) games)) eqn:Hlast; [by eexists|].
    apply last_None in Hlast. rewrite Hlast in Hin2. by apply elem_of_nil in Hin2.
Qed.

(** X4. A game whose identifier is set, and that no later game of the file
    repeats, is found under its identifier; and two different integer
    identifiers never read as the same key. *)
Theorem extract_igdb_ids_finds (before after : dict (dict json_scalar))
    (game_key : string) (game_data : dict json_scalar) (v : json_scalar) :
  dict_get game_data "igdb_id" = Some v →
  py_truthy v = true →
  (∀ item, item ∈ after → ¬ claims_id (py_str v) item) →
  (∃ igdb_mapping,
     extract_igdb_ids (before ++ (game_key, game_data) :: after) = Ok igdb_mapping ∧
     dict_get igdb_mapping (py_str v) = Some game_key) ∧
  (∀ z1 z2 : Z, py_str (JInt z1) = py_str (JInt z2) → z1 = z2).
Proof.
  intros Hv Ht Hafter. split.
  - destruct (extract_igdb_ids_lookup (before ++ (game_key, game_data) :: after))
      as (m & Hm & _ & Hget).
    exists m. split; [done|]. rewrite Hget, filter_app, filter_cons_True.
    2:{ by exists v. }
    assert (Hnil : filter (claims_id (py_str v)) after = []).
    { clear Hget Hm. induction after as [|item rest IH]; [done|].
      rewrite filter_cons_False by (apply Hafter; by left).
      apply IH. intros item2 Hin. apply Hafter. by right. }
    rewrite Hnil. by rewrite last_snoc.
  - intros z1 z2 Hstr. simpl in Hstr. by apply (inj (pretty : Z → string)) in Hstr.
Qed.

Lemma extract_igdb_ids_finds_witness :
  (∃ igdb_mapping,
     extract_igdb_ids sample_game_ids = Ok igdb_mapping ∧
     dict_get igdb_mapping "379" = Some "doom") ∧
  (∀ z1 z2 : Z, py_str (JInt z1) = py_str (JInt z2) → z1 = z2).
Proof.
  apply (extract_igdb_ids_finds []
           [ ("nameless", [("igdb_id", JInt 0)]);
             ("celeste", [("steam_id", JInt 504230); ("igdb_id", JStr "26226")]) ]
           "doom" [("igdb_id", JInt 379); ("steam_id", JInt 2280)] (JInt 379)).
  - reflexivity.
  - reflexivity.
  - intros item Hin (v2 & Hv2 & Ht2 & Hs2).
    apply elem_of_cons in Hin as [->|Hin];
      [|apply elem_of_cons in Hin as [->|Hin]; [|by apply elem_of_nil in Hin]];
      simpl in Hv2; injection Hv2 as <-; by vm_compute in Hs2.
Defined.

(** ** Fetching the metrics *)

Lemma dict_set_set {V : Type} (d : dict V) (k : string) (v1 v2 : V) :
  dict_set (dict_set d k v1) k v2 = dict_set d k v2.
Proof.
  induction d as [|[k0 v0] d IH]; simpl.
  - by rewrite decide_True.
  - destruct (decide (k0 = k)) as [->|Hne]; simpl.
    + by rewrite decide_True.
    + rewrite decide_False by done. by rewrite IH.
Qed.

Lemma dict_set_not_nil {V : Type} (d : dict V) (k : string) (v : V) :
  dict_set d k v ≠ [].
Proof. destruct d as [|[k0 v0] d]; simpl; [done|]. by destruct (decide (k0 = k)). Qed.

Section fetcher_facts.
Variable primitives_of : response → result (list primitive).
Variable types_of : response → result (list type_record).
Variable token_of : response → result string.

Lemma metrics_of_not_nil (primitives : list primitive) (entry : dict pynum) :
  primitives ≠ [] ∨ entry ≠ [] → metrics_of primitives entry ≠ [].
Proof.
  unfold metrics_of. revert entry.
  induction primitives as [|p ps IH]; intros entry Hne; simpl.
  - by destruct Hne.
  - apply IH. right. apply dict_set_not_nil.
Qed.

Lemma metrics_of_lookup (primitives : list primitive) (entry : dict pynum)
    (tid : string) (v : pynum) :
  dict_get (metrics_of primitives entry) tid = Some v →
  (∃ p, p ∈ primitives ∧ pretty (popularity_type p) = tid) ∨
  dict_get entry tid = Some v.
Proof.
  unfold metrics_of. revert entry.
  induction primitives as [|p ps IH]; intros entry Hget; simpl in *; [by right|].
  destruct (IH _ Hget) as [(q & Hq & Htid)|Hset].
  - left. exists q. split; [by right | done].
  - rewrite dict_get_set in Hset. destruct (decide _) as [Heq|_]; [|by right].
    left. exists p. split; [by left | done].
Qed.

Lemma record_primitive_spec (game_key : string) (st : fetched) (p : primitive)
    (entry : dict pynum) :
  dict_get (fst st) game_key = Some entry →
  record_primitive game_key st p =
  Ok (dict_set (fst st) game_key
        (dict_set entry (pretty (popularity_type p)) (value p)),
      {[ popularity_type p ]} ∪ snd st).
Proof.
  intros Hget. unfold record_primitive, dict_getitem. by rewrite Hget.
Qed.

(** The inner loop writes the records into the entry of the game. *)
Lemma record_primitives_loop (game_key : string) (primitives : list primitive)
    (st : fetched) (entry : dict pynum) :
  dict_get (fst st) game_key = Some entry →
  for_each (record_primitive game_key) primitives st =
  Ok (dict_set (fst st) game_key (metrics_of primitives entry),
      list_to_set (map popularity_type primitives) ∪ snd st).
Proof.
  revert st entry. induction primitives as [|p ps IH]; intros [mbg tids] entry Hget.
  - simpl in *. f_equal. f_equal.
    + symmetry. by apply dict_set_same.
    + by rewrite (left_id_L ∅ (∪)).
  - simpl for_each. rewrite (record_primitive_spec _ _ _ entry) by done.
    cbn [mbind result_bind fst snd].
    rewrite (IH _ (dict_set entry (pretty (popularity_type p)) (value p))).
    2:{ cbn [fst]. by rewrite dict_get_set, decide_True. }
    cbn [fst snd]. rewrite dict_set_set. f_equal. f_equal. simpl.
    rewrite (assoc_L (∪)). f_equal. apply (comm_L (∪)).
Qed.

Lemma type_collected (primitives : list primitive) (q : primitive)
    (type_ids : gset Z) :
  q ∈ primitives →
  popularity_type q ∈ list_to_set (map popularity_type primitives) ∪ type_ids.
Proof.
  intros Hq. apply elem_of_union. left. apply elem_of_list_to_set.
  by apply (list_elem_of_fmap_2 (B := Z)).
Qed.

Lemma fetch_game_bound (t : transport) (w : world) (st : fetched)
    (item : string * string) :
  (requests_made (fst (fetch_game primitives_of t w st item))
     ≤ requests_made w + 5)%nat.
Proof.
  unfold fetch_game, retry_request.
  pose proof (retry_loop_bounded t (seq 0 5) (sleep 1 w)) as [Hle _].
  destruct (retry_loop t (seq 0 5) (sleep 1 w)) as [w1 [[resp|]|e]];
    simpl in *; try lia.
  destruct (negb (response_ok resp)); simpl; lia.
Qed.

Lemma fetch_game_inv (names : list string) (t : transport) (w w1 : world)
    (st st1 : fetched) (item : string * string) :
  snd item ∈ names →
  fetch_inv names st →
  fetch_game primitives_of t w st item = (w1, Ok st1) →
  fetch_inv names st1.
Proof.
  intros Hname [Hwf Hinv]. unfold fetch_game.
  destruct (retry_request t (sleep 1 w)) as [w2 [[resp|]|e]];
    [|by intros [= <- <-]|done].
  destruct (negb (response_ok resp)); [by intros [= <- <-]|].
  destruct (primitives_of resp) as [[|p ps]|e]; cbn [mbind result_bind];
    [by intros [= <- <-]| |done].
  rewrite (record_primitives_loop _ _ _ []).
  2:{ cbn [fst]. by rewrite dict_get_set, decide_True. }
  cbn [fst snd]. rewrite dict_set_set. intros [= <- <-]. split.
  - by apply dict_wf_set.
  - cbn [fst snd]. intros g m. rewrite dict_get_set.
    destruct (decide (snd item = g)) as [<-|Hne].
    + intros [= <-]. split; [done|]. split.
      * apply metrics_of_not_nil. by right.
      * intros tid v Hget.
        assert (Hq : ∃ q, q ∈ p :: ps ∧ pretty (popularity_type q) = tid).
        { destruct (metrics_of_lookup _ _ _ _ Hget) as [(q & Hq & Htid)|Hone].
          - exists q. split; [by right | done].
          - simpl in Hone. destruct (decide _) as [Heq|_]; [|done].
            exists p. split; [by left | done]. }
        destruct Hq as (q & Hq & Htid).
        exists (popularity_type q). split; [|done].
        by apply (type_collected (p :: ps)).
    + intros Hget. destruct (Hinv g m Hget) as (Hg & Hm & Hty).
      split; [done|]. split; [done|]. intros tid v Htid.
      destruct (Hty tid v Htid) as (z & Hz & Hp). exists z. split; [|done].
      apply elem_of_union. by right.
Qed.

Lemma fetch_games_bound (t : transport) (items : list (string * string))
    (w : world) (st : fetched) :
  (requests_made (fst (fetch_games primitives_of t items w st))
     ≤ requests_made w + 5 * length items)%nat.
Proof.
  revert w st. induction items as [|item rest IH]; intros w st; simpl; [lia|].
  pose proof (fetch_game_bound t w st item) as Hb.
  destruct (fetch_game primitives_of t w st item) as [w1 [st1|e]]; simpl in *;
    [|lia].
  specialize (IH w1 st1). lia.
Qed.

Lemma fetch_games_inv (names : list string) (t : transport)
    (items : list (string * string)) (w w1 : world) (st st1 : fetched) :
  (∀ item, item ∈ items → snd item ∈ names) →
  fetch_inv names st →
  fetch_games primitives_of t items w st = (w1, Ok st1) →
  fetch_inv names st1.
Proof.
  revert w st. induction items as [|item rest IH]; intros w st Hnames Hinv; simpl.
  - by intros [= <- <-].
  - destruct (fetch_game primitives_of t w st item) as [w2 [st2|e]] eqn:Hgame;
      [|done].
    apply IH.
    + intros item2 Hin. apply Hnames. by right.
    + eapply fetch_game_inv; [|done|done]. apply Hnames. by left.
Qed.

(** X5. The sweep issues at most five requests for each identifier, whatever
    the network does and however the run ends. *)
Theorem fetch_popularity_data_bounded (t : transport) (igdb_mapping : dict string)
    (w : world) :
  (requests_made (fst (fetch_popularity_data primitives_of t igdb_mapping w))
     ≤ requests_made w + 5 * length igdb_mapping)%nat.
Proof. unfold fetch_popularity_data, dict_items. apply fetch_games_bound. Qed.

(** X6. What the sweep returns: the keys of the fetched metrics are unique
    and are entry names of the identifier mapping; no fetched entry is an
    empty mapping; and every metric code of an entry is the decimal of a
    type code collected in [type_ids]. *)
Theorem fetch_popularity_data_sound (t : transport) (igdb_mapping : dict string)
    (w w1 : world) (metrics_by_game : dict (dict pynum)) (type_ids : gset Z) :
  fetch_popularity_data primitives_of t igdb_mapping w
    = (w1, Ok (metrics_by_game, type_ids)) →
  dict_wf metrics_by_game ∧
  ∀ game_key metrics, dict_get metrics_by_game game_key = Some metrics →
    game_key ∈ dict_values igdb_mapping ∧ metrics ≠ [] ∧
    ∀ tid v, dict_get metrics tid = Some v →
      ∃ z, z ∈ type_ids ∧ pretty z = tid.
Proof.
  unfold fetch_popularity_data, dict_items. intros Hrun.
  apply (fetch_games_inv (dict_values igdb_mapping)) in Hrun; [done| |].
  - intros item Hin. unfold dict_values. by apply (list_elem_of_fmap_2 (B := string)).
  - split; [apply NoDup_nil_2 | done].
Qed.

(** The sweep through a network without answers. *)
Lemma fetch_games_outage (t : transport) (items : list (string * string))
    (w : world) (st : fetched) :
  (∀ n, (requests_made w ≤ n)%nat → failed (t n)) →
  fetch_games primitives_of t items w st =
  ({| requests_made := requests_made w + 5 * length items;
      slept := slept w ++ mjoin (replicate (length items) [1; 1; 2; 4; 8; 16]%Z) |},
   Ok st).
Proof.
  revert w. induction items as [|item rest IH]; intros w Hfail; simpl.
  - rewrite Nat.add_0_r, app_nil_r. by destruct w.
  - unfold fetch_game, retry_request.
    rewrite retry_loop_all_failed by (intros i _; apply Hfail; simpl; lia).
    rewrite IH by (intros n Hn; apply Hfail; simpl in Hn; lia).
    simpl. f_equal. f_equal; [lia|].
    by rewrite <- !app_assoc.
Qed.

(** X7. Through a network without answers the sweep raises nothing and
    fetches nothing: it returns no metrics and no type codes, after five
    requests and 32 seconds of sleep for each identifier. *)
Theorem fetch_popularity_data_outage (t : transport) (igdb_mapping : dict string)
    (w : world) :
  (∀ n, failed (t n)) →
  fetch_popularity_data primitives_of t igdb_mapping w =
  ({| requests_made := requests_made w + 5 * length igdb_mapping;
      slept := slept w ++
               mjoin (replicate (length igdb_mapping) [1; 1; 2; 4; 8; 16]%Z) |},
   Ok ([], ∅)).
Proof.
  intros Hfail. unfold fetch_popularity_data, dict_items.
  apply fetch_games_outage. intros n _. apply Hfail.
Qed.

(** The sweep through a network that answers every request. *)
Lemma fetch_games_answered (t : transport) (items : list (string * string))
    (w w1 : world) (st st1 : fetched) :
  (∀ n, ∃ resp, t n = Responds resp ∧ raise_for_status resp = Ok tt) →
  fetch_games primitives_of t items w st = (w1, Ok st1) →
  requests_made w1 = (requests_made w + length items)%nat ∧
  slept w1 = slept w ++ replicate (length items) 1%Z.
Proof.
  intros Hans. revert w st. induction items as [|item rest IH]; intros w st; simpl.
  - intros [= <- <-]. rewrite Nat.add_0_r, app_nil_r. done.
  - unfold fetch_game at 1, retry_request. simpl retry_loop.
    destruct (Hans (requests_made (sleep 1 w))) as (resp & Ht & Hok).
    rewrite (attempt_body_accepted t 0 (sleep 1 w) resp Ht Hok).
    unfold response_ok. rewrite Hok. cbn [negb].
    set (w2 := {| requests_made := S (requests_made (sleep 1 w));
                  slept := slept (sleep 1 w) |}).
    destruct (primitives_of resp) as [[|p ps]|e]; cbn [mbind result_bind];
      [| |done].
    + intros Hrest. destruct (IH w2 st Hrest) as [Hreq Hslept].
      rewrite Hreq, Hslept. simpl. split; [lia|]. by rewrite <- app_assoc.
    + destruct (for_each _ _ _) as [st2|e]; [|done].
      intros Hrest. destruct (IH w2 st2 Hrest) as [Hreq Hslept].
      rewrite Hreq, Hslept. simpl. split; [lia|]. by rewrite <- app_assoc.
Qed.

(** X8. When every request is answered with an accepted response, a sweep
    that returns has issued exactly one request for each identifier, none
    twice, and has slept one second before each. *)
Theorem fetch_popularity_data_answered (t : transport)
    (igdb_mapping : dict string) (w w1 : world) (st1 : fetched) :
  (∀ n, ∃ resp, t n = Responds resp ∧ raise_for_status resp = Ok tt) →
  fetch_popularity_data primitives_of t igdb_mapping w = (w1, Ok st1) →
  requests_made w1 = (requests_made w + length igdb_mapping)%nat ∧
  slept w1 = slept w ++ replicate (length igdb_mapping) 1%Z.
Proof.
  intros Hans. unfold fetch_popularity_data, dict_items.
  by apply fetch_games_answered.
Qed.

(** ** The run of [main] *)

Lemma dict_all_None {V : Type} (d : dict V) :
  (∀ k, dict_get d k = None) → d = [].
Proof.
  destruct d as [|[k v] d]; [done|]. intros Hnone. specialize (Hnone k).
  simpl in Hnone. by rewrite decide_True in Hnone.
Qed.

(** A canonical key of the prior metrics in the merged output. *)
Lemma merge_metrics_canonical {M : Type} (igdb : dict string) (fresh : dict M)
    (types : dict string) (e : existing_data_t M) (out : output_t M)
    (x : string) (m : M) :
  dict_wf (default [] (existing_metrics e)) →
  dict_wf fresh →
  isdigit x = false →
  dict_get (default [] (existing_metrics e)) x = Some m →
  merge igdb fresh types e = Ok out →
  dict_get (popularity_metrics out) x =
  match dict_get fresh x with Some new => Some new | None => Some m end.
Proof.
  intros Hwf Hwff Hd Hx. unfold merge, has_members.
  destruct (existing_metrics e) as [prior|] eqn:He; [|done].
  rewrite (bool_decide_eq_true_2 (is_Some (Some prior))) by done.
  rewrite orb_true_r. cbn [default from_option id] in *.
  destruct (reconcile_keys_spec igdb prior Hwf) as (em1 & -> & _ & Hkeep & _).
  cbn [mbind result_bind]. intros [= <-]. cbn [popularity_metrics].
  rewrite overlay_lookup by done. destruct (dict_get fresh x); [done|].
  apply Hkeep; [done|]. unfold legacy. by rewrite Hd.
Qed.

(** The token request that is answered with a token, and the one that
    fails. *)
Lemma get_access_token_granted (t : transport) (w : world) (resp : response)
    (token : string) :
  t (requests_made w) = Responds resp →
  raise_for_status resp = Ok tt →
  token_of resp = Ok token →
  get_access_token token_of t w =
  ({| requests_made := S (requests_made w); slept := slept w |}, Ok (Some token)).
Proof.
  intros Ht Hs Htok. unfold get_access_token, request. rewrite Ht, Hs. simpl.
  by rewrite Htok.
Qed.

Lemma get_access_token_failed (t : transport) (w : world) :
  failed (t (requests_made w)) →
  get_access_token token_of t w =
  ({| requests_made := S (requests_made w); slept := slept w |}, Ok None).
Proof.
  unfold get_access_token, request, failed.
  destruct (t (requests_made w)) as [resp|]; [|done]. by intros ->.
Qed.

(** X9. A run that gets its token and whose requests then all fail still
    ends by writing the store, and loses nothing that was canonical: after
    the token request, five requests for each identifier and five for the
    type names, every entry of the prior store whose key is not numeric is
    written with its prior metrics, and the type names written are exactly
    the prior ones. *)
Theorem main_run_outage (t : transport) (games : dict (dict json_scalar))
    (igdb_mapping : dict string)
    (e : existing_data_t (list (string * pynum))) (w : world)
    (resp : response) (token : string) :
  t (requests_made w) = Responds resp →
  raise_for_status resp = Ok tt →
  token_of resp = Ok token →
  (∀ n, (requests_made w < n)%nat → failed (t n)) →
  extract_igdb_ids games = Ok igdb_mapping →
  igdb_mapping ≠ [] →
  dict_wf (default [] (existing_metrics e)) →
  dict_wf (default [] (existing_types e)) →
  ∃ w1 out,
    main_run primitives_of types_of token_of t (Some games) e w
    = (w1, Ok (Wrote out)) ∧
    requests_made w1
    = (requests_made w + 1 + 5 * (length igdb_mapping + 1))%nat ∧
    (∀ x m, isdigit x = false →
       dict_get (default [] (existing_metrics e)) x = Some m →
       dict_get (popularity_metrics out) x = Some m) ∧
    (∀ k, dict_get (popularity_types out) k =
          dict_get (default [] (existing_types e)) k).
Proof.
  intros Ht Hs Htok Hfail Hmap Hne Hwm Hwt. unfold main_run.
  rewrite (get_access_token_granted t w resp token) by done. rewrite Hmap.
  destruct igdb_mapping as [|item rest] eqn:Hig; [done|]. rewrite <- Hig in *.
  unfold fetch_popularity_data, dict_items.
  rewrite fetch_games_outage by (intros n Hn; apply Hfail; simpl in Hn; lia).
  unfold fetch_popularity_types, retry_request.
  rewrite retry_loop_all_failed by (intros i _; apply Hfail; simpl; lia).
  destruct (merge_ok igdb_mapping [] [] e Hwm) as [out Hout].
  rewrite Hout. cbn [mbind result_bind]. eexists _, out. split; [done|].
  split; [simpl; lia|]. split.
  - intros x m Hd Hx.
    rewrite (merge_metrics_canonical igdb_mapping [] [] e out x m); try done.
    apply NoDup_nil_2.
  - intros k. rewrite (merge_types_lookup igdb_mapping [] [] e out k) by done.
    by destruct (dict_get (default [] (existing_types e)) k).
Qed.

(** X10. The run asks for its token first. When that request fails, the
    run exits with code 1; when the token is granted and no game of the
    index has an identifier set, or the index file is missing or is not
    JSON, it exits with code 1 as well. Either way it has issued the token request and no
    other, has not slept, and writes nothing. *)
Theorem main_run_no_ids (t : transport) (games : dict (dict json_scalar))
    (e : existing_data_t (list (string * pynum))) (w : world) :
  (∀ item igdb_id, item ∈ games → ¬ claims_id igdb_id item) →
  (failed (t (requests_made w)) →
   ∀ game_ids_json,
     main_run primitives_of types_of token_of t game_ids_json e w =
     ({| requests_made := S (requests_made w); slept := slept w |},
      Ok (Exit 1))) ∧
  (∀ resp token,
     t (requests_made w) = Responds resp →
     raise_for_status resp = Ok tt →
     token_of resp = Ok token →
     main_run primitives_of types_of token_of t (Some games) e w =
     ({| requests_made := S (requests_made w); slept := slept w |},
      Ok (Exit 1)) ∧
     main_run primitives_of types_of token_of t None e w =
     ({| requests_made := S (requests_made w); slept := slept w |},
      Ok (Exit 1))).
Proof.
  intros Hnone. split.
  - intros Hfail game_ids_json. unfold main_run.
    by rewrite get_access_token_failed.
  - intros resp token Ht Hs Htok. unfold main_run.
    rewrite (get_access_token_granted t w resp token) by done.
    split; [|done].
    destruct (extract_igdb_ids_lookup games) as (m & -> & _ & Hget).
    assert (m = []) as ->; [|done].
    apply dict_all_None. intros k. rewrite Hget.
    destruct (last (filter (claims_id k) games)) as [item|] eqn:Hlast; [|done].
    destruct (last_filter_split _ _ _ Hlast) as (l1 & l2 & -> & Hc & _).
    exfalso. apply (Hnone item k); [|done]. apply elem_of_app. right. by left.
Qed.

End fetcher_facts.

(** ** Ranking *)

(** *** The order of the scores *)

(** A score is the integer 0 or a [float]; the scores that are not NaN are
    totally ordered by [<]. The order is that of the keys below, compared
    lexicographically. *)
Definition valid_score (x : pynum) : Prop :=
  match x with
  | PyInt z => z = 0%Z
  | PyFloat f => is_nan f = false
  end.

Definition sf_key (x : spec_float) : Z * Z * Z :=
  match x with
  | S754_zero _ | S754_nan => (0, 0, 0)
  | S754_infinity s => (if s then -2 else 2, 0, 0)
  | S754_finite s m e => if s then (-1, - e, Zneg m) else (1, e, Zpos m)
  end%Z.

Definition score_key (x : pynum) : Z * Z * Z :=
  match x with
  | PyInt _ => (0, 0, 0)%Z
  | PyFloat f => sf_key (Prim2SF f)
  end.

Definition key_lt (k1 k2 : Z * Z * Z) : Prop :=
  (k1.1.1 < k2.1.1 ∨
   (k1.1.1 = k2.1.1 ∧
    (k1.1.2 < k2.1.2 ∨ (k1.1.2 = k2.1.2 ∧ k1.2 < k2.2))))%Z.

Lemma Prim2SF_nan (f : float) : Prim2SF f = S754_nan → is_nan f = true.
Proof.
  unfold Prim2SF. destruct (is_nan f); [done|].
  destruct (PrimFloat.is_zero f); [done|].
  destruct (PrimFloat.is_infinity f); [done|].
  destruct (Z.frexp f) as [r ex].
  destruct (shr_fexp _ _ _ _ _) as [mrs e']. by destruct (shr_m mrs).
Qed.

Lemma SFltb_key (a b : spec_float) :
  a ≠ S754_nan → b ≠ S754_nan →
  SFltb a b = true ↔ key_lt (sf_key a) (sf_key b).
Proof.
  intros Ha Hb. unfold SFltb, key_lt.
  destruct a as [sa|sa| |sa ma ea], b as [sb|sb| |sb mb eb]; try done;
    destruct sa, sb; cbn [SFcompare sf_key fst snd];
    try (split; [done|lia]); try (split; [lia|done]); try (split; [intros; lia|done]).
  - change (Pos.compare_cont Eq ma mb) with (Pos.compare ma mb).
    destruct (Z.compare_spec ea eb) as [He|He|He];
      destruct (Pos.compare_spec ma mb) as [Hm|Hm|Hm]; cbn [CompOpp];
      (split; [try done; intros _; lia | try done; intros; lia]).
  - change (Pos.compare_cont Eq ma mb) with (Pos.compare ma mb).
    destruct (Z.compare_spec ea eb) as [He|He|He];
      destruct (Pos.compare_spec ma mb) as [Hm|Hm|Hm];
      (split; [try done; intros _; lia | try done; intros; lia]).
Qed.

Lemma valid_score_not_nan (f : float) :
  valid_score (PyFloat f) → Prim2SF f ≠ S754_nan.
Proof. intros Hv Hn%Prim2SF_nan. simpl in Hv. congruence. Qed.

Lemma int_compare_float_0 (f : float) :
  valid_score (PyFloat f) →
  (int_compare_float 0 f = Some Lt ↔ key_lt (0, 0, 0)%Z (sf_key (Prim2SF f))) ∧
  (int_compare_float 0 f = Some Gt ↔ key_lt (sf_key (Prim2SF f)) (0, 0, 0)%Z).
Proof.
  intros Hv%valid_score_not_nan. unfold int_compare_float, key_lt.
  destruct (Prim2SF f) as [s|s| |s m e]; [| |done|]; cbn [sf_key fst snd].
  - split; (split; [done|lia]).
  - destruct s; cbn [fst snd]; split; (split; [try done; intros; lia|try done; intros; lia]).
  - assert (Hp : ∀ k, (0 ≤ k → 0 < Zpos m * 2 ^ k)%Z).
    { intros k Hk. pose proof (Z.pow_pos_nonneg 2 k ltac:(lia) Hk). lia. }
    assert (Hn : ∀ k, (0 ≤ k → Zneg m * 2 ^ k < 0)%Z).
    { intros k Hk. pose proof (Z.pow_pos_nonneg 2 k ltac:(lia) Hk). lia. }
    destruct s; cbn [fst snd]; destruct (0 <=? e)%Z eqn:He.
    + apply Z.leb_le in He. specialize (Hn e He).
      rewrite (proj2 (Z.compare_gt_iff _ _)) by lia.
      split; (split; [try done; intros; lia|try done; intros; lia]).
    + rewrite Z.mul_0_l. change (0 ?= Zneg m)%Z with Gt.
      split; (split; [try done; intros; lia|try done; intros; lia]).
    + apply Z.leb_le in He. specialize (Hp e He).
      rewrite (proj2 (Z.compare_lt_iff _ _)) by lia.
      split; (split; [try done; intros; lia|try done; intros; lia]).
    + rewrite Z.mul_0_l. change (0 ?= Zpos m)%Z with Lt.
      split; (split; [try done; intros; lia|try done; intros; lia]).
Qed.

(** [<] on the scores is the order of their keys. *)
Lemma py_lt_key (x y : pynum) :
  valid_score x → valid_score y →
  py_lt x y = true ↔ key_lt (score_key x) (score_key y).
Proof.
  intros Hx Hy. destruct x as [a|a], y as [b|b]; cbn [py_lt score_key].
  - simpl in Hx, Hy. subst. unfold key_lt. simpl. split; [done|lia].
  - simpl in Hx. subst. rewrite bool_decide_eq_true.
    apply (int_compare_float_0 b Hy).
  - simpl in Hy. subst. rewrite bool_decide_eq_true.
    apply (int_compare_float_0 a Hx).
  - rewrite FloatAxioms.ltb_spec.
    apply SFltb_key; by apply valid_score_not_nan.
Qed.

Lemma py_lt_asym (x y : pynum) :
  valid_score x → valid_score y → py_lt x y = true → py_lt y x = false.
Proof.
  intros Hx Hy Hlt. apply not_true_is_false. intros Hgt.
  apply py_lt_key in Hlt; [|done|done]. apply py_lt_key in Hgt; [|done|done].
  unfold key_lt in *. lia.
Qed.

Lemma py_lt_negtrans (x y z : pynum) :
  valid_score x → valid_score y → valid_score z →
  py_lt x y = false → py_lt y z = false → py_lt x z = false.
Proof.
  intros Hx Hy Hz Hxy Hyz. apply not_true_is_false. intros Hxz.
  apply py_lt_key in Hxz; [|done|done].
  assert (Hxy' : ¬ key_lt (score_key x) (score_key y)).
  { intros H. apply py_lt_key in H; [|done|done]. congruence. }
  assert (Hyz' : ¬ key_lt (score_key y) (score_key z)).
  { intros H. apply py_lt_key in H; [|done|done]. congruence. }
  unfold key_lt in *. lia.
Qed.

#[local] Instance py_eq_dec (x y : pynum) : Decision (py_eq x y).
Proof. unfold py_eq. apply _. Defined.

Lemma py_eq_not_lt (x y s : pynum) :
  valid_score x → valid_score y → valid_score s →
  py_eq x s → py_eq y s → py_lt x y = false.
Proof.
  intros Hx Hy Hs [Hxs Hsx] [Hys Hsy].
  by apply (py_lt_negtrans x s y).
Qed.

(** *** The sort *)

Lemma insert_desc_perm (x : scored_port) (l : list scored_port) :
  insert_desc x l ≡ₚ x :: l.
Proof.
  induction l as [|y l IH]; simpl; [done|].
  destruct (py_lt (score x) (score y)); [|done].
  rewrite IH. apply Permutation_swap.
Qed.

Lemma foldr_insert_desc_perm (l : list scored_port) :
  foldr insert_desc [] l ≡ₚ l.
Proof.
  induction l as [|x l IH]; simpl; [done|].
  by rewrite insert_desc_perm, IH.
Qed.

Lemma insert_desc_sorted (x : scored_port) (l : list scored_port) :
  valid_score (score x) → Forall (fun y => valid_score (score y)) l →
  StronglySorted (fun a b => py_le (score b) (score a)) l →
  StronglySorted (fun a b => py_le (score b) (score a)) (insert_desc x l).
Proof.
  intros Hx. induction l as [|y l IH]; intros Hv Hs; simpl.
  - by repeat constructor.
  - apply StronglySorted_inv in Hs as [Hl Hy].
    apply Forall_cons in Hv as [Hvy Hvl].
    destruct (py_lt (score x) (score y)) eqn:Hlt.
    + constructor; [by apply IH|].
      rewrite insert_desc_perm. constructor; [|done].
      by apply py_lt_asym.
    + constructor; [by constructor|]. constructor; [done|].
      rewrite Forall_forall in Hy, Hvl. apply Forall_forall. intros z Hz.
      unfold py_le in *.
      apply (py_lt_negtrans _ (score y)); auto.
Qed.

Lemma foldr_insert_desc_sorted (l : list scored_port) :
  Forall (fun y => valid_score (score y)) l →
  StronglySorted (fun a b => py_le (score b) (score a)) (foldr insert_desc [] l).
Proof.
  induction l as [|x l IH]; intros Hv; simpl; [constructor|].
  apply Forall_cons in Hv as [Hx Hl].
  apply insert_desc_sorted; [done| |by apply IH].
  by rewrite foldr_insert_desc_perm.
Qed.

Lemma insert_desc_stable (s : pynum) (x : scored_port) (l : list scored_port) :
  valid_score s → valid_score (score x) →
  Forall (fun y => valid_score (score y)) l →
  filter (fun y => py_eq (score y) s) (insert_desc x l) =
  filter (fun y => py_eq (score y) s) (x :: l).
Proof.
  intros Hs Hx. induction l as [|y l IH]; intros Hv; simpl; [done|].
  apply Forall_cons in Hv as [Hvy Hvl].
  destruct (py_lt (score x) (score y)) eqn:Hlt; [|done].
  rewrite (filter_cons _ y), IH, !filter_cons by done.
  destruct (decide (py_eq (score y) s)) as [Hy|Hy];
    destruct (decide (py_eq (score x) s)) as [Hx'|Hx']; try done.
  exfalso. rewrite (py_eq_not_lt (score x) (score y) s) in Hlt; done.
Qed.

Lemma foldr_insert_desc_stable (s : pynum) (l : list scored_port) :
  valid_score s → Forall (fun y => valid_score (score y)) l →
  filter (fun y => py_eq (score y) s) (foldr insert_desc [] l) =
  filter (fun y => py_eq (score y) s) l.
Proof.
  intros Hs. induction l as [|x l IH]; intros Hv; simpl; [done|].
  apply Forall_cons in Hv as [Hx Hl].
  rewrite insert_desc_stable; [|done|done|by rewrite foldr_insert_desc_perm].
  by rewrite !filter_cons, IH.
Qed.

Lemma sorted_desc_valid (l : list scored_port) :
  Forall (fun y => valid_score (score y)) l →
  sorted_desc l = Some (foldr insert_desc [] l).
Proof.
  intros Hv. unfold sorted_desc.
  destruct (existsb _ l) eqn:He; [|done]. exfalso.
  apply existsb_exists in He as (x & Hx & Hnan). rewrite Forall_forall in Hv.
  apply list_elem_of_In, Hv in Hx. destruct (score x); simpl in *; congruence.
Qed.

(** *** The scores *)

Lemma score_port_spec popularity_data (p : port) :
  in_float_range (port_metrics popularity_data p) →
  score_port popularity_data p = Ok (scored_entry popularity_data p).
Proof.
  intros Hr. unfold score_port, scored_entry, entry_score.
  fold (port_metrics popularity_data p). by rewrite score_shipped.
Qed.

Lemma score_port_overflow popularity_data (p : port) :
  ¬ in_float_range (port_metrics popularity_data p) →
  score_port popularity_data p = Raise OverflowError.
Proof.
  intros Hr. unfold score_port. fold (port_metrics popularity_data p).
  rewrite score_overflow; [done| |done].
  intros Hnil. apply Hr. rewrite Hnil. split; [|by eexists].
  intros kv Hkv. by apply elem_of_nil in Hkv.
Qed.

Lemma score_ports_loop popularity_data (port_data : list port)
    (acc : list scored_port) :
  (∀ p, p ∈ port_data → in_float_range (port_metrics popularity_data p)) →
  for_each (fun acc p => s ← score_port popularity_data p ; Ok (acc ++ [s]))
           port_data acc
  = Ok (acc ++ map (scored_entry popularity_data) port_data).
Proof.
  revert acc. induction port_data as [|p rest IH]; intros acc Hr; simpl.
  - by rewrite app_nil_r.
  - rewrite score_port_spec by (apply Hr; by left).
    cbn [mbind result_bind]. rewrite IH by (intros q Hq; apply Hr; by right).
    by rewrite <- app_assoc.
Qed.

Lemma score_ports_loop_overflow popularity_data (port_data : list port)
    (acc : list scored_port) :
  (∃ p, p ∈ port_data ∧ ¬ in_float_range (port_metrics popularity_data p)) →
  for_each (fun acc p => s ← score_port popularity_data p ; Ok (acc ++ [s]))
           port_data acc
  = Raise OverflowError.
Proof.
  revert acc. induction port_data as [|p rest IH]; intros acc (q & Hq & Hr).
  - by apply elem_of_nil in Hq.
  - simpl.
    destruct (decide (in_float_range (port_metrics popularity_data p)))
      as [Hp|Hp].
    + rewrite score_port_spec by done. cbn [mbind result_bind]. apply IH.
      apply elem_of_cons in Hq as [->|Hq]; [done|]. by exists q.
    + by rewrite score_port_overflow.
Qed.

Lemma rankable_valid popularity_data (p : port) :
  rankable popularity_data p → valid_score (entry_score popularity_data p).
Proof.
  intros [_ Hnan]. unfold entry_score, spec_score in *.
  by destruct (port_metrics popularity_data p).
Qed.

Lemma rankable_entries popularity_data (port_data : list port) :
  (∀ p, p ∈ port_data → rankable popularity_data p) →
  Forall (fun y => valid_score (score y))
         (map (scored_entry popularity_data) port_data).
Proof.
  intros Hr. apply Forall_forall. intros x Hx.
  apply (list_elem_of_fmap_1 (B := scored_port)) in Hx as (p & -> & Hp).
  by apply rankable_valid, Hr.
Qed.

Lemma rank_ports_spec (port_data : list port) popularity_data :
  (∀ p, p ∈ port_data → rankable popularity_data p) →
  rank_ports_by_popularity port_data popularity_data =
  Ok (Some (foldr insert_desc [] (map (scored_entry popularity_data) port_data))).
Proof.
  intros Hr. unfold rank_ports_by_popularity.
  rewrite score_ports_loop by (intros p Hp; by apply Hr).
  cbn [mbind result_bind app]. f_equal.
  by apply sorted_desc_valid, rankable_entries.
Qed.

Lemma strongly_sorted_lookup {A : Type} (R : A → A → Prop) (l : list A)
    (i j : nat) (x y : A) :
  StronglySorted R l → (i < j)%nat → l !! i = Some x → l !! j = Some y → R x y.
Proof.
  intros Hs. revert i j. induction Hs as [|a l Hl IH Ha]; intros i j Hij Hx Hy.
  - done.
  - destruct j as [|j]; [lia|]. destruct i as [|i]; simpl in *.
    + injection Hx as <-. rewrite Forall_forall in Ha. apply Ha.
      by eapply list_elem_of_lookup_2.
    + apply (IH i j); [lia|done|done].
Qed.

(** X11. When every port can be ranked (the numbers of its metrics are
    within the range of a [float] and its score is not NaN), the ranking
    raises nothing, ranks every given port exactly once, and lists the ports
    by descending score. *)
Theorem rank_ports_sorted (port_data : list port)
    (popularity_data : existing_data_t (list (string * pynum))) :
  (∀ p, p ∈ port_data → rankable popularity_data p) →
  ∃ ranked,
    rank_ports_by_popularity port_data popularity_data = Ok (Some ranked) ∧
    map port_of ranked ≡ₚ port_data ∧
    ∀ i j x y, (i < j)%nat → ranked !! i = Some x → ranked !! j = Some y →
               py_le (score y) (score x).
Proof.
  intros Hr. rewrite rank_ports_spec by done. eexists. split; [done|]. split.
  - rewrite foldr_insert_desc_perm, map_map. simpl. by rewrite map_id.
  - intros i j x y Hij Hx Hy.
    pose proof (foldr_insert_desc_sorted _ (rankable_entries _ _ Hr)) as Hs.
    by apply (strongly_sorted_lookup _ _ i j x y Hs).
Qed.

(** X12. The ranking is stable: when every port can be ranked, the ports
    whose score equals a given number appear in the order in which they
    were given. *)
Theorem rank_ports_stable (port_data : list port)
    (popularity_data : existing_data_t (list (string * pynum))) (s : float) :
  (∀ p, p ∈ port_data → rankable popularity_data p) →
  is_nan s = false →
  ∃ ranked,
    rank_ports_by_popularity port_data popularity_data = Ok (Some ranked) ∧
    map port_of (filter (fun x => py_eq (score x) (PyFloat s)) ranked) =
    filter (fun p => py_eq (entry_score popularity_data p) (PyFloat s)) port_data.
Proof.
  intros Hr Hs. rewrite rank_ports_spec by done. eexists. split; [done|].
  rewrite foldr_insert_desc_stable by (done || by apply rankable_entries).
  clear. induction port_data as [|p rest IH]; [done|].
  simpl map. rewrite !filter_cons. cbn [score scored_entry].
  destruct (decide (py_eq (entry_score popularity_data p) (PyFloat s)));
    simpl; by rewrite IH.
Qed.

(** X13. When every port can be ranked, every ranked entry is one of the
    given ports and carries the score the scorer gives to the metrics
    stored under the port's name; a port without stored metrics is ranked
    with the integer score 0 and no metrics. When the metrics of some port
    hold an integer beyond the range of a [float], the ranking raises
    [OverflowError]. *)
Theorem rank_ports_scores (port_data : list port)
    (popularity_data : existing_data_t (list (string * pynum))) :
  ((∀ p, p ∈ port_data → rankable popularity_data p) →
   ∃ ranked,
     rank_ports_by_popularity port_data popularity_data = Ok (Some ranked) ∧
     ∀ x, x ∈ ranked →
       port_of x ∈ port_data ∧
       calculate_popularity_score (port_metrics popularity_data (port_of x))
       = Ok (score x) ∧
       (dict_get (default [] (existing_metrics popularity_data))
          (name (port_of x)) = None →
        score x = PyInt 0 ∧ metrics x = [])) ∧
  ((∃ p, p ∈ port_data ∧ ¬ in_float_range (port_metrics popularity_data p)) →
   rank_ports_by_popularity port_data popularity_data = Raise OverflowError).
Proof.
  split.
  - intros Hr. rewrite rank_ports_spec by done. eexists. split; [done|].
    intros x Hx. rewrite foldr_insert_desc_perm in Hx.
    apply (list_elem_of_fmap_1 (B := scored_port)) in Hx as (p & -> & Hp).
    cbn [port_of score metrics scored_entry]. split; [done|]. split.
    + apply score_shipped, Hr, Hp.
    + intros Hnone. unfold entry_score, port_metrics. rewrite Hnone. by simpl.
  - intros Hbad. unfold rank_ports_by_popularity.
    by rewrite score_ports_loop_overflow.
Qed.

(** X14. The report of a run: with both files loaded, the script returns
    without writing exactly when no catalogue entry passes the filters;
    otherwise, when the entries that pass can be ranked, the ranking it
    writes lists them, each once, by descending score. *)
Theorem main_rank_report
    (popularity_data : existing_data_t (list (string * pynum)))
    (entries : dict port_info_t) (only_rtr : bool)
    (genre_filter : option string) :
  match filter (retained only_rtr genre_filter) entries with
  | [] =>
      main_rank (Some popularity_data) (Some (PortsInfo (Some entries)))
        only_rtr genre_filter = Ok None
  | kept =>
      main_rank (Some popularity_data) (Some (PortsInfo (Some entries)))
        only_rtr genre_filter ≠ Ok None ∧
      ((∀ item, item ∈ kept → rankable popularity_data (make_port item)) →
       ∃ ranked,
         main_rank (Some popularity_data) (Some (PortsInfo (Some entries)))
           only_rtr genre_filter = Ok (Some (Some ranked)) ∧
         map port_of ranked ≡ₚ map make_port kept ∧
         ∀ i j x y, (i < j)%nat → ranked !! i = Some x → ranked !! j = Some y →
                    py_le (score y) (score x))
  end.
Proof.
  unfold main_rank, get_port_data. cbn [ports]. unfold dict_items.
  rewrite get_port_data_loop. cbn [app].
  destruct (filter (retained only_rtr genre_filter) entries) as [|item kept];
    [done|].
  set (port_data := map make_port (item :: kept)).
  assert (Hcons : port_data = make_port item :: map make_port kept) by done.
  rewrite Hcons. rewrite <- Hcons. split.
  - by destruct (rank_ports_by_popularity port_data popularity_data).
  - intros Hr.
    assert (Hr' : ∀ p, p ∈ port_data → rankable popularity_data p).
    { intros p Hp.
      apply (list_elem_of_fmap_1 (B := port)) in Hp as (it & -> & Hit).
      by apply Hr. }
    rewrite rank_ports_spec by done.
    cbn [mbind result_bind]. eexists. split; [done|]. split.
    + rewrite foldr_insert_desc_perm, map_map. simpl. by rewrite map_id.
    + intros i j x y Hij Hx Hy.
      pose proof (foldr_insert_desc_sorted _ (rankable_entries _ _ Hr')) as Hs.
      by apply (strongly_sorted_lookup _ _ i j x y Hs).
Qed.

(** ** Scanning the ports for identifiers *)

Section scan_facts.
Context {V : Type} `{EqDecision V} {R : Type}.
Implicit Types (a : dict V) (fs : gmap (string * string) (file_content V R)).

Lemma port_ids_of_lookup a (field : string) :
  dict_get (port_ids_of a) field =
  if decide (field ∈ id_fields) then dict_get a field else None.
Proof.
  unfold port_ids_of, id_fields. simpl.
  destruct (decide (field ∈ _)) as [Hin|Hnin].
  - repeat (apply elem_of_cons in Hin as [->|Hin]);
      [| | |by apply elem_of_nil in Hin];
      destruct (dict_get a "igdb_id"), (dict_get a "steam_id"),
        (dict_get a "itchio_url"); reflexivity.
  - assert (field ≠ "igdb_id" ∧ field ≠ "steam_id" ∧ field ≠ "itchio_url")
      as (H1 & H2 & H3).
    { repeat split; intros ->; apply Hnin;
        apply (bool_decide_eq_true_1 _); reflexivity. }
    destruct (dict_get a "igdb_id"), (dict_get a "steam_id"),
      (dict_get a "itchio_url"); simpl;
      repeat (rewrite decide_False by done); done.
Qed.

Lemma port_ids_of_wf a : dict_wf (port_ids_of a).
Proof.
  unfold port_ids_of, id_fields, dict_wf, dict_keys. simpl.
  destruct (dict_get a "igdb_id"), (dict_get a "steam_id"),
    (dict_get a "itchio_url"); simpl;
    apply (bool_decide_eq_true_1 _); reflexivity.
Qed.

Lemma extract_field_spec (port_data : port_json V R) (port_ids : dict V)
    (stats : dict nat) (field : string) (n : nat) :
  dict_get stats field = Some n →
  extract_field port_data (port_ids, stats) field =
  Ok match dict_get (default [] (attr port_data)) field with
     | Some v => (dict_set port_ids field v, dict_set stats field (S n))
     | None => (port_ids, stats)
     end.
Proof.
  intros Hn. unfold extract_field, dict_mem, dict_getitem. cbn [fst snd].
  destruct (attr port_data) as [a|]; cbn [default from_option id]; [|done].
  destruct (dict_get a field) as [v|]; [|done].
  cbn [mbind result_bind]. by rewrite Hn.
Qed.

Lemma extract_fields_loop (port_data : port_json V R) (fields : list string)
    (port_ids : dict V) (stats : dict nat) :
  (∀ f, is_Some (dict_get stats f) ∨ f ∉ fields) →
  ∃ stats1,
    for_each (extract_field port_data) fields (port_ids, stats) =
    Ok (fold_left
          (fun ids f =>
             match dict_get (default [] (attr port_data)) f with
             | Some v => dict_set ids f v
             | None => ids
             end) fields port_ids, stats1) ∧
    ∀ f, is_Some (dict_get stats f) → is_Some (dict_get stats1 f).
Proof.
  revert port_ids stats. induction fields as [|field rest IH];
    intros port_ids stats Hstats.
  - by exists stats.
  - destruct (Hstats field) as [[n Hn]|Hnin]; [|exfalso; apply Hnin; by left].
    simpl for_each. rewrite (extract_field_spec _ _ _ _ n) by done.
    cbn [mbind result_bind fold_left].
    destruct (dict_get (default [] (attr port_data)) field) as [v|].
    + destruct (IH (dict_set port_ids field v) (dict_set stats field (S n)))
        as (stats1 & -> & Hkeep).
      { intros f. destruct (Hstats f) as [Hf|Hf].
        - left. rewrite dict_get_set. by destruct (decide (field = f)).
        - right. intros Hin. apply Hf. by right. }
      exists stats1. split; [done|]. intros f Hf. apply Hkeep.
      rewrite dict_get_set. by destruct (decide (field = f)).
    + destruct (IH port_ids stats) as (stats1 & -> & Hkeep).
      { intros f. destruct (Hstats f) as [Hf|Hf]; [by left|].
        right. intros Hin. apply Hf. by right. }
      by exists stats1.
Qed.

Lemma extract_id_fields (port_data : port_json V R) (stats : dict nat) :
  stats_ok stats →
  ∃ stats1,
    for_each (extract_field port_data) id_fields ([], stats) =
    Ok (port_ids_of (default [] (attr port_data)), stats1) ∧
    stats_ok stats1.
Proof.
  intros Hok.
  destruct (extract_fields_loop port_data id_fields [] stats)
    as (stats1 & Hloop & Hkeep).
  { intros f. destruct (decide (f ∈ id_fields)); [left; by apply Hok | by right]. }
  exists stats1. split.
  - rewrite Hloop. f_equal. f_equal. unfold port_ids_of, id_fields. simpl.
    destruct (dict_get (default [] (attr port_data)) "igdb_id"),
      (dict_get (default [] (attr port_data)) "steam_id"),
      (dict_get (default [] (attr port_data)) "itchio_url"); reflexivity.
  - intros f Hf. by apply Hkeep, Hok.
Qed.

(** One port of the listing. *)
Lemma scan_port_unreadable (is_dir : string → bool) fs (st : scan_state V)
    (port_name : string) :
  unreadable is_dir fs port_name = true →
  scan_port is_dir fs st port_name = Raise UnicodeDecodeError.
Proof.
  unfold unreadable, scan_port. destruct (is_dir port_name); [|done].
  cbn [andb negb].
  by destruct (fs !! (port_name, "port.json")) as [[| |port_data]|].
Qed.

Lemma scan_port_spec (is_dir : string → bool) fs (st : scan_state V)
    (port_name : string) :
  stats_ok (stats st) →
  unreadable is_dir fs port_name = false →
  ∃ st1, scan_port is_dir fs st port_name = Ok st1 ∧
    stats_ok (stats st1) ∧
    new_game_ids st1 =
    match scanned_ids is_dir fs port_name with
    | Some port_ids => dict_set (new_game_ids st) port_name port_ids
    | None => new_game_ids st
    end.
Proof.
  intros Hok. unfold scan_port, scanned_ids, unreadable.
  destruct (is_dir port_name); cbn [negb andb]; [|by exists st].
  destruct (fs !! (port_name, "port.json")) as [[| |port_data]|];
    [by eexists|done| |by exists st].
  destruct (extract_id_fields port_data (stats st) Hok) as (stats1 & -> & Hok1).
  destruct (port_ids_of (default [] (attr port_data))); by eexists.
Qed.

(** The scan from any state. *)
Lemma scan_loop (is_dir : string → bool) fs (names : list string)
    (st : scan_state V) :
  stats_ok (stats st) →
  (∀ q, q ∈ names → unreadable is_dir fs q = false) →
  ∃ st1, for_each (scan_port is_dir fs) names st = Ok st1 ∧
    (dict_wf (new_game_ids st) → dict_wf (new_game_ids st1)) ∧
    ∀ p, dict_get (new_game_ids st1) p =
         match (if decide (p ∈ names) then scanned_ids is_dir fs p else None) with
         | Some port_ids => Some port_ids
         | None => dict_get (new_game_ids st) p
         end.
Proof.
  revert st. induction names as [|q rest IH]; intros st Hok Hread.
  - exists st. split; [done|]. split; [done|]. intros p.
    by rewrite decide_False by apply not_elem_of_nil.
  - simpl for_each.
    destruct (scan_port_spec is_dir fs st q Hok) as (st1 & -> & Hok1 & Hnew);
      [apply Hread; by left|].
    cbn [mbind result_bind].
    destruct (IH st1 Hok1) as (st2 & Hloop & Hwf & Hget);
      [intros q' Hq'; apply Hread; by right|].
    exists st2. split; [done|]. split.
    + intros Hst. apply Hwf. rewrite Hnew.
      destruct (scanned_ids is_dir fs q); [by apply dict_wf_set | done].
    + intros p. rewrite Hget, Hnew.
      destruct (decide (p = q)) as [->|Hne].
      * rewrite (decide_True (P := q ∈ q :: rest)) by (by left).
        destruct (decide (q ∈ rest)).
        { by destruct (scanned_ids is_dir fs q). }
        destruct (scanned_ids is_dir fs q) as [ids|]; [|done].
        by rewrite dict_get_set, decide_True.
      * assert (Hsame : dict_get
                  match scanned_ids is_dir fs q with
                  | Some port_ids => dict_set (new_game_ids st) q port_ids
                  | None => new_game_ids st
                  end p = dict_get (new_game_ids st) p).
        { destruct (scanned_ids is_dir fs q); [|done].
          by rewrite dict_get_set, decide_False. }
        rewrite Hsame.
        destruct (decide (p ∈ rest)) as [Hin|Hnin].
        { by rewrite decide_True by (by right). }
        by rewrite decide_False by (by intros [?|?]%elem_of_cons).
Qed.

Lemma stats_ok_init :
  stats_ok (map (fun field => (field, 0%nat)) id_fields).
Proof.
  intros field Hin. unfold id_fields in *. simpl.
  repeat (apply elem_of_cons in Hin as [->|Hin]); try (by eexists).
  by apply elem_of_nil in Hin.
Qed.

(** The scan ends at the first port whose metadata cannot be read. *)
Lemma scan_loop_unreadable (is_dir : string → bool) fs (names : list string)
    (st : scan_state V) (q : string) :
  stats_ok (stats st) →
  q ∈ names → unreadable is_dir fs q = true →
  for_each (scan_port is_dir fs) names st = Raise UnicodeDecodeError.
Proof.
  revert st. induction names as [|q0 rest IH]; intros st Hok Hin Hq.
  - by apply elem_of_nil in Hin.
  - simpl for_each. destruct (unreadable is_dir fs q0) eqn:Hq0.
    + by rewrite scan_port_unreadable.
    + destruct (scan_port_spec is_dir fs st q0 Hok Hq0) as (st1 & -> & Hok1 & _).
      cbn [mbind result_bind]. apply IH; [done| |done].
      apply elem_of_cons in Hin as [->|Hin]; [congruence|done].
Qed.

Lemma scan_ports_lookup (d : ports_dir V R) :
  all_readable d →
  ∃ st, scan_ports d = Ok st ∧ dict_wf (new_game_ids st) ∧
    ∀ p, dict_get (new_game_ids st) p =
         if decide (p ∈ listing d) then scanned_ids (isdir d) (files d) p
         else None.
Proof.
  intros Hread. unfold scan_ports.
  destruct (scan_loop (isdir d) (files d) (listing d)
              {| new_game_ids := []; stats := map (fun f => (f, 0%nat)) id_fields;
                 total_ports := 0; ports_with_ids := 0 |} stats_ok_init Hread)
    as (st & Hloop & Hwf & Hget).
  exists st. split; [done|]. split; [apply Hwf, NoDup_nil_2|].
  intros p. rewrite Hget. cbn [new_game_ids dict_get].
  destruct (decide (p ∈ listing d)); [|done].
  by destruct (scanned_ids (isdir d) (files d) p).
Qed.

Lemma scanned_ids_Some (is_dir : string → bool) fs (p : string)
    (port_ids : dict V) :
  scanned_ids is_dir fs p = Some port_ids →
  is_dir p = true ∧ port_ids ≠ [] ∧
  ∃ port_data, fs !! (p, "port.json") = Some (Json port_data) ∧
    port_ids = port_ids_of (default [] (attr port_data)).
Proof.
  unfold scanned_ids. destruct (is_dir p); [|done].
  destruct (fs !! (p, "port.json")) as [[| |port_data]|]; try done.
  destruct (port_ids_of (default [] (attr port_data))) as [|kv l] eqn:Hids;
    [done|].
  intros [= <-]. split; [done|]. split; [done|]. by exists port_data.
Qed.

(** X15. The scan is field-selective: when the metadata of every listed
    port can be read, it records a port exactly when its metadata parses
    and has one of the three identifier fields, and records of such a port
    the identifier fields with their values and nothing else. When the
    metadata of a listed port cannot be read, the scan raises
    [UnicodeDecodeError]. *)
Theorem scan_ports_field_selective (d : ports_dir V R) :
  (all_readable d →
   ∃ st, scan_ports d = Ok st ∧
     dict_wf (new_game_ids st) ∧
     (∀ p port_ids, dict_get (new_game_ids st) p = Some port_ids →
        p ∈ listing d ∧ isdir d p = true ∧ port_ids ≠ [] ∧
        ∃ port_data, files d !! (p, "port.json") = Some (Json port_data) ∧
          ∀ field, dict_get port_ids field =
                   if decide (field ∈ id_fields)
                   then dict_get (default [] (attr port_data)) field
                   else None) ∧
     (∀ p port_data field v,
        p ∈ listing d → isdir d p = true →
        files d !! (p, "port.json") = Some (Json port_data) →
        field ∈ id_fields →
        dict_get (default [] (attr port_data)) field = Some v →
        ∃ port_ids, dict_get (new_game_ids st) p = Some port_ids ∧
                    dict_get port_ids field = Some v)) ∧
  (∀ q, q ∈ listing d → unreadable (isdir d) (files d) q = true →
        scan_ports d = Raise UnicodeDecodeError).
Proof.
  split.
  - intros Hread.
    destruct (scan_ports_lookup d Hread) as (st & Hscan & Hwf & Hget).
    exists st. split; [done|]. split; [done|]. split.
    + intros p port_ids. rewrite Hget.
      destruct (decide (p ∈ listing d)) as [Hin|]; [|done].
      intros (Hdir & Hne & port_data & Hfile & ->)%scanned_ids_Some.
      split; [done|]. split; [done|]. split; [done|].
      exists port_data. split; [done|]. intros field. apply port_ids_of_lookup.
    + intros p port_data field v Hin Hdir Hfile Hfield Hv.
      rewrite Hget, decide_True by done. unfold scanned_ids.
      rewrite Hdir, Hfile.
      assert (Hlook : dict_get (port_ids_of (default [] (attr port_data))) field
                      = Some v).
      { by rewrite port_ids_of_lookup, decide_True. }
      destruct (port_ids_of (default [] (attr port_data))) as [|kv l] eqn:Hids;
        [done|].
      by eexists.
  - intros q Hin Hq. unfold scan_ports.
    apply (scan_loop_unreadable _ _ _ _ q); [apply stats_ok_init|done|done].
Qed.

(** ** Running the extraction and the removal again *)

Lemma dict_get_of_elem {A : Type} (d : dict A) (k : string) (x : A) :
  dict_wf d → (k, x) ∈ d → dict_get d k = Some x.
Proof.
  unfold dict_wf, dict_keys. induction d as [|[k0 x0] d IH]; intros Hwf Hin.
  - by apply elem_of_nil in Hin.
  - simpl in Hwf. apply NoDup_cons in Hwf as [Hnin Hnd]. simpl.
    apply elem_of_cons in Hin as [[= -> ->]|Hin].
    + by rewrite decide_True.
    + rewrite decide_False; [by apply IH|]. intros ->. apply Hnin.
      by apply (list_elem_of_fmap_2' fst) with (k, x).
Qed.

Lemma dict_update_same (entry port_ids : dict V) :
  (∀ f v, (f, v) ∈ port_ids → dict_get entry f = Some v) →
  dict_update entry port_ids = entry ∧ changed_fields entry port_ids = 0%nat.
Proof.
  unfold dict_update, dict_items, changed_fields.
  induction port_ids as [|[f v] rest IH]; intros Hsame; [done|].
  simpl fold_left. rewrite dict_set_same by (apply Hsame; by left).
  rewrite filter_cons_False.
  2:{ cbn [fst snd]. intros Hne. apply Hne. apply Hsame. by left. }
  apply IH. intros f2 v2 Hin. apply Hsame. by right.
Qed.

(** The merge loop leaves alone an index that already has the entries. *)
Lemma merge_loop_fixed (new : dict (dict V)) (st : merge_state V) :
  (∀ p port_ids, (p, port_ids) ∈ new →
     dict_wf port_ids ∧
     ∃ entry, dict_get (merged_game_ids st) p = Some entry ∧
       ∀ f v, (f, v) ∈ port_ids → dict_get entry f = Some v) →
  for_each merge_entry new st = Ok st.
Proof.
  induction new as [|[p port_ids] rest IH]; intros Hhas; [done|].
  destruct (Hhas p port_ids) as (Hwf & entry & Hentry & Hsame); [by left|].
  simpl for_each. rewrite merge_entry_spec by done. rewrite Hentry.
  destruct (dict_update_same entry port_ids Hsame) as [-> ->].
  rewrite dict_set_same by done. rewrite Nat.add_0_r.
  cbn [mbind result_bind].
  replace {| merged_game_ids := merged_game_ids st;
             new_entries := new_entries st;
             updated_entries := updated_entries st |} with st by (by destruct st).
  apply IH. intros q ids Hin. apply Hhas. by right.
Qed.

Lemma merge_game_ids_twice (existing new : dict (dict V)) :
  dict_wf new →
  (∀ item, item ∈ new → dict_wf (snd item)) →
  ∃ st, merge_game_ids existing new = Ok st ∧
    merge_game_ids (merged_game_ids st) new =
    Ok {| merged_game_ids := merged_game_ids st;
          new_entries := 0; updated_entries := 0 |}.
Proof.
  intros Hwf Hinner. unfold merge_game_ids, dict_items.
  destruct (merge_loop new
              {| merged_game_ids := existing; new_entries := 0;
                 updated_entries := 0 |} Hwf Hinner)
    as (st & Hloop & Hget & _).
  exists st. split; [done|]. apply merge_loop_fixed.
  cbn [merged_game_ids] in *. intros p port_ids Hin.
  assert (Hwfi : dict_wf port_ids) by (apply (Hinner (p, port_ids)); done).
  split; [done|]. rewrite Hget, (dict_get_of_elem new p port_ids) by done.
  eexists. split; [done|]. intros f v Hfv.
  pose proof (dict_get_of_elem port_ids f v Hwfi Hfv) as Hf.
  destruct (dict_get existing p) as [entry|]; [|done].
  by rewrite dict_get_update, Hf.
Qed.

Lemma scan_ports_wf (d : ports_dir V R) :
  all_readable d →
  ∃ st, scan_ports d = Ok st ∧ dict_wf (new_game_ids st) ∧
    ∀ item, item ∈ new_game_ids st → dict_wf (snd item).
Proof.
  intros Hread.
  destruct (scan_ports_lookup d Hread) as (st & Hscan & Hwf & Hget).
  exists st. split; [done|]. split; [done|]. intros [p port_ids] Hin.
  apply dict_get_of_elem in Hin; [|done]. rewrite Hget in Hin.
  destruct (decide (p ∈ listing d)); [|done].
  apply scanned_ids_Some in Hin as (_ & _ & port_data & _ & ->).
  apply port_ids_of_wf.
Qed.

(** X16. Extracting twice from an unchanged ports directory whose
    metadata can be read is the same as extracting once: the second run, on
    the index the first one wrote, writes the same index and counts no new
    and no updated entry. *)
Theorem extract_game_ids_idempotent (d : ports_dir V R)
    (existing_game_ids : dict (dict V)) :
  all_readable d →
  ∃ st, extract_game_ids d existing_game_ids = Ok st ∧
    extract_game_ids d (merged_game_ids st) =
    Ok {| merged_game_ids := merged_game_ids st;
          new_entries := 0; updated_entries := 0 |}.
Proof.
  intros Hread. unfold extract_game_ids.
  destruct (scan_ports_wf d Hread) as (scanned & -> & Hwf & Hinner).
  cbn [mbind result_bind]. by apply merge_game_ids_twice.
Qed.

Lemma port_ids_of_nil a :
  (∀ field, field ∈ id_fields → dict_get a field = None) →
  port_ids_of a = [].
Proof.
  intros Hnone. unfold port_ids_of, id_fields in *. simpl.
  rewrite !Hnone; [done|..]; apply (bool_decide_eq_true_1 _); reflexivity.
Qed.

Lemma has_removal_field_false (port_data : port_json V R) (field : string) :
  has_removal_field port_data = false →
  field ∈ removal_fields →
  dict_get (default [] (attr port_data)) field = None.
Proof.
  unfold has_removal_field. intros Hex Hin. apply dict_mem_false.
  apply not_true_is_false. intros Hmem.
  assert (Hex2 : existsb (dict_mem (default [] (attr port_data))) removal_fields
                 = true).
  { apply existsb_exists. exists field. split; [by apply list_elem_of_In | done]. }
  congruence.
Qed.

Lemma id_fields_removed (field : string) :
  field ∈ id_fields → field ∈ removal_fields.
Proof.
  unfold id_fields. intros Hin.
  repeat (apply elem_of_cons in Hin as [->|Hin]);
    [..|by apply elem_of_nil in Hin]; apply (bool_decide_eq_true_1 _); reflexivity.
Qed.

(** After the removal, no port it got to has anything left to scan. *)
Lemma scanned_after_removal (is_dir : string → bool) fs fs1
    (names : list string) (p : string) :
  (∀ q f, fs1 !! (q, f) =
          if decide (q ∈ names) then processed is_dir q fs !! (q, f)
          else fs !! (q, f)) →
  p ∈ names →
  scanned_ids is_dir fs1 p = None ∧
  ∀ port_data, is_dir p = true →
    fs1 !! (p, "port.json") = Some (Json port_data) →
    has_removal_field port_data = false.
Proof.
  intros Hget Hin.
  assert (Hclean : ∀ port_data, is_dir p = true →
            fs1 !! (p, "port.json") = Some (Json port_data) →
            has_removal_field port_data = false).
  { intros port_data Hdir. rewrite Hget, decide_True by done. unfold processed.
    rewrite Hdir.
    destruct (fs !! (p, "port.json")) as [[| |pd]|] eqn:Hfile;
      rewrite ?Hfile; try done.
    destruct (has_removal_field pd) eqn:Hhas.
    - rewrite lookup_insert_eq. intros [= <-].
      apply without_removal_fields_clean.
    - rewrite Hfile. by intros [= <-]. }
  split; [|done]. unfold scanned_ids.
  destruct (is_dir p) eqn:Hdir; [|done].
  destruct (fs1 !! (p, "port.json")) as [[| |port_data]|] eqn:Hfile;
    try done.
  rewrite port_ids_of_nil; [done|]. intros field Hfield.
  apply has_removal_field_false; [by apply Hclean | by apply id_fields_removed].
Qed.

(** The removal leaves the metadata that cannot be read as it is. *)
Lemma unreadable_after_removal (is_dir : string → bool) fs fs1
    (names : list string) (p : string) :
  (∀ q f, fs1 !! (q, f) =
          if decide (q ∈ names) then processed is_dir q fs !! (q, f)
          else fs !! (q, f)) →
  unreadable is_dir fs1 p = unreadable is_dir fs p.
Proof.
  intros Hget. rewrite <- (processed_unreadable is_dir fs p p).
  unfold unreadable. rewrite Hget.
  destruct (decide (p ∈ names)); [done|].
  destruct (is_dir p) eqn:Hdir; [|done]. cbn [andb].
  unfold processed. rewrite Hdir.
  destruct (fs !! (p, "port.json")) as [[| |pd]|] eqn:Hfile;
    rewrite ?Hfile; try done.
  destruct (has_removal_field pd); [|by rewrite Hfile].
  by rewrite lookup_insert_eq.
Qed.

(** X17. After a removal over metadata that can be read, an extraction
    finds nothing: run on the ports directory the removal left, it writes
    the index it loaded, unchanged, and counts no new and no updated
    entry. *)
Theorem extract_after_removal (d : ports_dir V R)
    (existing_game_ids : dict (dict V)) :
  all_readable d →
  ∃ fs1 n, remove_ids_from_ports d = ((fs1, n), Ok tt) ∧
    extract_game_ids
      {| listing := listing d; isdir := isdir d; files := fs1 |}
      existing_game_ids =
    Ok {| merged_game_ids := existing_game_ids;
          new_entries := 0; updated_entries := 0 |}.
Proof.
  intros Hread. unfold remove_ids_from_ports.
  destruct (remove_ids_loop (isdir d) (listing d) (files d) 0)
    as (fs1 & n & Hrun & Hget).
  rewrite (handled_all _ _ _ Hread) in Hrun, Hget.
  rewrite decide_True in Hrun by done.
  exists fs1, n. split; [done|]. unfold extract_game_ids.
  destruct (scan_ports_lookup
              {| listing := listing d; isdir := isdir d; files := fs1 |})
    as (st & -> & _ & Hnew).
  { intros q Hq. cbn [listing isdir files] in *.
    rewrite (unreadable_after_removal _ (files d) fs1 (listing d)) by done.
    by apply Hread. }
  cbn [mbind result_bind listing isdir files] in *.
  assert (new_game_ids st = []) as ->; [|done].
  apply dict_all_None. intros p. rewrite Hnew.
  destruct (decide (p ∈ listing d)) as [Hin|]; [|done].
  by destruct (scanned_after_removal (isdir d) (files d) fs1 (listing d) p Hget Hin).
Qed.

(** A port with nothing to remove is passed over. *)
Lemma remove_ids_from_port_clean (is_dir : string → bool) fs (n : nat)
    (p : string) :
  unreadable is_dir fs p = false →
  (∀ port_data, is_dir p = true →
     fs !! (p, "port.json") = Some (Json port_data) →
     has_removal_field port_data = false) →
  remove_ids_from_port is_dir (fs, n) p = Ok (fs, n).
Proof.
  intros Hread Hclean. unfold remove_ids_from_port, unreadable in *.
  cbn [fst snd]. destruct (is_dir p); [|done]. cbn [negb andb] in *.
  destruct (fs !! (p, "port.json")) as [[| |port_data]|] eqn:Hfile;
    try done.
  rewrite remove_fields_loop. cbn [orb].
  fold (has_removal_field port_data). by rewrite (Hclean port_data).
Qed.

Lemma remove_ids_from_port_unreadable (is_dir : string → bool) fs (n : nat)
    (p : string) :
  unreadable is_dir fs p = true →
  remove_ids_from_port is_dir (fs, n) p = Raise UnicodeDecodeError.
Proof.
  intros Hp. pose proof (remove_ids_from_port_spec is_dir fs n p) as Hs.
  by rewrite Hp in Hs.
Qed.

(** X18. Removing twice is the same as removing once: the second run ends
    as the first did, rewrites no file and makes no backup, so the backups
    of the first run still hold the original metadata. *)
Theorem remove_ids_idempotent (d : ports_dir V R) :
  ∃ fs1 n r, remove_ids_from_ports d = ((fs1, n), r) ∧
    remove_ids_from_ports
      {| listing := listing d; isdir := isdir d; files := fs1 |} =
    ((fs1, 0%nat), r).
Proof.
  unfold remove_ids_from_ports at 1.
  destruct (remove_ids_loop (isdir d) (listing d) (files d) 0)
    as (fs1 & n & Hrun & Hget).
  eexists fs1, n, _. split; [exact Hrun|]. unfold remove_ids_from_ports.
  cbn [listing isdir files].
  assert (Hun : ∀ p, unreadable (isdir d) fs1 p = unreadable (isdir d) (files d) p).
  { intros p. by apply (unreadable_after_removal _ _ _ _ _ Hget). }
  revert Hget. generalize (listing d) as names. clear Hrun.
  intros names Hget.
  assert (Hall : ∀ rest,
            (∀ p, p ∈ handled (isdir d) (files d) rest →
                  p ∈ handled (isdir d) (files d) names) →
            for_each_state (remove_ids_from_port (isdir d)) rest (fs1, 0%nat)
            = ((fs1, 0%nat),
               if decide (handled (isdir d) (files d) rest = rest) then Ok tt
               else Raise UnicodeDecodeError)).
  { induction rest as [|p rest IH]; intros Hsub; [done|].
    simpl for_each_state. simpl handled in *.
    destruct (unreadable (isdir d) (files d) p) eqn:Hp.
    - rewrite remove_ids_from_port_unreadable by (by rewrite Hun). done.
    - rewrite remove_ids_from_port_clean.
      + rewrite IH by (intros q Hq; apply Hsub; by right).
        f_equal.
        destruct (decide (handled (isdir d) (files d) rest = rest)) as [He|He].
        * by rewrite decide_True by (by rewrite He).
        * rewrite decide_False; [done|]. by intros [= ?].
      + by rewrite Hun.
      + apply (scanned_after_removal _ _ _ _ p Hget). apply Hsub. by left. }
  by apply Hall.
Qed.

(** X19. With [--remove], over metadata that can be read, no identifier is
    lost: an identifier field that a listed port's metadata holds is in the
    written index under the port's name with its value, while the metadata
    file is rewritten without the removal fields and its backup holds the
    metadata as it was. *)
Theorem main_update_moves_ids (d : ports_dir V R)
    (existing_game_ids : dict (dict V)) (p : string)
    (port_data : port_json V R) (field : string) (v : V) :
  all_readable d →
  p ∈ listing d →
  isdir d p = true →
  files d !! (p, "port.json") = Some (Json port_data) →
  field ∈ id_fields →
  dict_get (default [] (attr port_data)) field = Some v →
  ∃ index fs1,
    main_update d existing_game_ids true = (Some index, fs1, Ok tt) ∧
    (∃ entry, dict_get index p = Some entry ∧ dict_get entry field = Some v) ∧
    fs1 !! (p, "port.json") = Some (Json (without_removal_fields port_data)) ∧
    fs1 !! (p, "port.json.bak") = Some (Json port_data).
Proof.
  intros Hread Hin Hdir Hfile Hfield Hv. unfold main_update, extract_game_ids.
  destruct (scan_ports_wf d Hread) as (scanned & Hscan & Hwf & Hinner).
  destruct (scan_ports_lookup d Hread) as (scanned2 & Hscan2 & _ & Hnew).
  assert (scanned2 = scanned) as -> by congruence.
  rewrite Hscan. cbn [mbind result_bind]. unfold merge_game_ids, dict_items.
  destruct (merge_loop (new_game_ids scanned)
              {| merged_game_ids := existing_game_ids; new_entries := 0;
                 updated_entries := 0 |} Hwf Hinner)
    as (st & -> & Hget & _).
  cbn [mbind result_bind merged_game_ids] in *.
  unfold remove_ids_from_ports.
  destruct (remove_ids_loop (isdir d) (listing d) (files d) 0)
    as (fs1 & n & -> & Hfs).
  rewrite (handled_all _ _ _ Hread) in Hfs.
  rewrite (handled_all _ _ _ Hread), decide_True by done.
  cbn [fst snd]. exists (merged_game_ids st), fs1.
  split; [done|].
  assert (Hids : dict_get (new_game_ids scanned) p =
                 Some (port_ids_of (default [] (attr port_data))) ∧
                 dict_get (port_ids_of (default [] (attr port_data))) field
                 = Some v).
  { assert (Hlook : dict_get (port_ids_of (default [] (attr port_data))) field
                    = Some v) by (by rewrite port_ids_of_lookup, decide_True).
    split; [|done]. rewrite Hnew, decide_True by done. unfold scanned_ids.
    rewrite Hdir, Hfile.
    by destruct (port_ids_of (default [] (attr port_data))). }
  destruct Hids as [Hp Hf].
  assert (Hhas : has_removal_field port_data = true).
  { unfold has_removal_field. apply existsb_exists. exists field. split.
    - by apply list_elem_of_In, id_fields_removed.
    - apply dict_mem_true. by eexists. }
  split; [|split].
  - rewrite Hget, Hp. eexists. split; [done|].
    destruct (dict_get existing_game_ids p) as [entry|]; [|done].
    rewrite dict_get_update by apply port_ids_of_wf. by rewrite Hf.
  - rewrite Hfs, decide_True by done. unfold processed.
    rewrite Hdir, Hfile, Hhas. by rewrite lookup_insert_eq.
  - rewrite Hfs, decide_True by done. unfold processed.
    rewrite Hdir, Hfile, Hhas. rewrite lookup_insert_ne by done.
    by rewrite lookup_insert_eq.
Qed.

End scan_facts.

(** ** The port key *)

Lemma remove_zip_other (c : ascii) (s : string) :
  Ascii.eqb c "." = false → remove_zip (String c s) = String c (remove_zip s).
Proof.
  destruct c as [[] [] [] [] [] [] [] []]; try done; by intros _.
Qed.

(** X20. The key of a catalogue name: a name without a dot is its own key,
    and a name made of a dot-free stem and the extension [.zip] has the stem
    for its key, which is the key the popularity store is read by. *)
Theorem remove_zip_stem (stem : string) :
  has_dot stem = false →
  remove_zip stem = stem ∧ remove_zip (stem +:+ ".zip") = stem.
Proof.
  induction stem as [|c s IH]; intros Hdot; [done|].
  simpl in Hdot. apply orb_false_iff in Hdot as [Hc Hs].
  destruct (IH Hs) as [IH1 IH2]. split.
  - by rewrite remove_zip_other, IH1.
  - change (String c s +:+ ".zip") with (String c (s +:+ ".zip")).
    by rewrite remove_zip_other, IH2.
Qed.

Lemma remove_zip_stem_witness :
  remove_zip "celeste" = "celeste" ∧ remove_zip ("celeste" +:+ ".zip") = "celeste".
Proof. apply (remove_zip_stem "celeste"). reflexivity. Defined.

(** ** The properties above at the sample data *)

Lemma fetch_popularity_data_sound_witness :
  dict_wf [("doom", [("3", PyFloat 12)])] ∧
  ∀ game_key metrics,
    dict_get [("doom", [("3", PyFloat 12)])] game_key = Some metrics →
    game_key ∈ dict_values [("379", "doom")] ∧ metrics ≠ [] ∧
    ∀ tid v, dict_get metrics tid = Some v →
      ∃ z, z ∈ ({[ 3%Z ]} : gset Z) ∧ pretty z = tid.
Proof.
  apply (fetch_popularity_data_sound sample_primitives_of sample_transport
           [("379", "doom")] (World 0 []) (World 1 [1%Z])
           [("doom", [("3", PyFloat 12)])] {[ 3%Z ]}).
  vm_compute. reflexivity.
Defined.

Lemma fetch_popularity_data_outage_witness :
  fetch_popularity_data sample_primitives_of dead_transport
    [("379", "doom"); ("26226", "celeste")] (World 0 []) =
  ({| requests_made := 10;
      slept := [1; 1; 2; 4; 8; 16; 1; 1; 2; 4; 8; 16]%Z |}, Ok ([], ∅)).
Proof.
  apply (fetch_popularity_data_outage sample_primitives_of dead_transport
           [("379", "doom"); ("26226", "celeste")] (World 0 [])).
  intros n. exact I.
Defined.

Lemma main_run_outage_witness :
  ∃ w1 out,
    main_run sample_primitives_of sample_types_of sample_token_of
      token_transport (Some sample_game_ids) sample_prior (World 0 [])
    = (w1, Ok (Wrote out)) ∧
    requests_made w1 = 16%nat ∧
    dict_get (popularity_metrics out) "celeste" = Some sample_metrics ∧
    dict_get (popularity_types out) "3" = Some "Playing".
Proof.
  destruct (main_run_outage sample_primitives_of sample_types_of
              sample_token_of token_transport
              sample_game_ids [("379", "doom"); ("26226", "celeste")]
              sample_prior (World 0 []) (Response 200 "{...}") "token")
    as (w1 & out & Hrun & Hreq & Hmetrics & Htypes).
  - reflexivity.
  - reflexivity.
  - reflexivity.
  - intros n Hn. destruct n as [|n]; [simpl in Hn; lia|exact I].
  - reflexivity.
  - discriminate.
  - apply sample_wf. reflexivity.
  - apply sample_wf. reflexivity.
  - exists w1, out. split; [exact Hrun|]. split; [exact Hreq|]. split.
    + apply Hmetrics; reflexivity.
    + rewrite Htypes. reflexivity.
Defined.

Lemma main_run_no_ids_witness :
  main_run sample_primitives_of sample_types_of sample_token_of
    sample_transport
    (Some [("nameless", [("igdb_id", JInt 0)]); ("bare", [])]) sample_prior
    (World 0 []) = (World 1 [], Ok (Exit 1)) ∧
  main_run sample_primitives_of sample_types_of sample_token_of
    sample_transport None sample_prior (World 0 [])
  = (World 1 [], Ok (Exit 1)).
Proof.
  apply (proj2 (main_run_no_ids sample_primitives_of sample_types_of
                  sample_token_of sample_transport
                  [("nameless", [("igdb_id", JInt 0)]); ("bare", [])]
                  sample_prior (World 0 [])
                  ltac:(intros item igdb_id Hin (v & Hv & Ht & _);
                        apply elem_of_cons in Hin as [->|Hin];
                        [|apply elem_of_cons in Hin as [->|Hin];
                           [|by apply elem_of_nil in Hin]];
                        [simpl in Hv; injection Hv as <-; discriminate Ht
                        |discriminate Hv]))
           (Response 200 "[...]") "token"); reflexivity.
Defined.

Lemma sample_ports_rankable (p : port) :
  p ∈ sample_ports → rankable sample_prior p.
Proof.
  unfold sample_ports. intros Hp.
  repeat (apply elem_of_cons in Hp as [->|Hp]);
    [| | |by apply elem_of_nil in Hp];
    (split; [split; [|by eexists]|vm_compute; reflexivity]);
    vm_compute port_metrics; intros kv Hkv;
    repeat (apply elem_of_cons in Hkv as [->|Hkv]; [by eexists|]);
    by apply elem_of_nil in Hkv.
Qed.

Lemma rank_ports_sorted_witness :
  ∃ ranked,
    rank_ports_by_popularity sample_ports sample_prior = Ok (Some ranked) ∧
    map port_of ranked ≡ₚ sample_ports ∧
    ∀ i j x y, (i < j)%nat → ranked !! i = Some x → ranked !! j = Some y →
               py_le (score y) (score x).
Proof.
  apply (rank_ports_sorted sample_ports sample_prior sample_ports_rankable).
Defined.

Lemma rank_ports_stable_witness :
  ∃ ranked,
    rank_ports_by_popularity sample_ports sample_prior = Ok (Some ranked) ∧
    map name (map port_of (filter (fun x => py_eq (score x) (PyFloat 0)) ranked))
    = ["quake"; "doom"].
Proof.
  destruct (rank_ports_stable sample_ports sample_prior 0%float
              sample_ports_rankable eq_refl) as (ranked & Hrank & Hstable).
  exists ranked. split; [exact Hrank|]. rewrite Hstable. vm_compute. reflexivity.
Defined.

Lemma sample_ports_dir_readable : all_readable sample_ports_dir.
Proof.
  intros q Hq. unfold sample_ports_dir in Hq. cbn [listing] in Hq.
  repeat (apply elem_of_cons in Hq as [->|Hq]; [vm_compute; reflexivity|]).
  by apply elem_of_nil in Hq.
Qed.

Lemma extract_game_ids_idempotent_witness :
  ∃ st, extract_game_ids sample_ports_dir sample_index = Ok st ∧
    extract_game_ids sample_ports_dir (merged_game_ids st) =
    Ok {| merged_game_ids := merged_game_ids st;
          new_entries := 0; updated_entries := 0 |}.
Proof.
  apply (extract_game_ids_idempotent sample_ports_dir sample_index
           sample_ports_dir_readable).
Defined.

Lemma extract_after_removal_witness :
  ∃ fs1 n, remove_ids_from_ports sample_ports_dir = ((fs1, n), Ok tt) ∧
    extract_game_ids
      {| listing := listing sample_ports_dir; isdir := isdir sample_ports_dir;
         files := fs1 |}
      sample_index =
    Ok {| merged_game_ids := sample_index;
          new_entries := 0; updated_entries := 0 |}.
Proof.
  apply (extract_after_removal sample_ports_dir sample_index
           sample_ports_dir_readable).
Defined.

Lemma main_update_moves_ids_witness :
  ∃ index fs1,
    main_update sample_ports_dir sample_index true = (Some index, fs1, Ok tt) ∧
    (∃ entry, dict_get index "doom" = Some entry ∧
              dict_get entry "igdb_id" = Some "379") ∧
    fs1 !! ("doom", "port.json") =
      Some (Json (without_removal_fields sample_port_json)) ∧
    fs1 !! ("doom", "port.json.bak") = Some (Json sample_port_json).
Proof.
  apply (main_update_moves_ids sample_ports_dir sample_index "doom"
           sample_port_json "igdb_id" "379").
  - exact sample_ports_dir_readable.
  - apply (bool_decide_eq_true_1 _). reflexivity.
  - reflexivity.
  - reflexivity.
  - apply (bool_decide_eq_true_1 _). reflexivity.
  - reflexivity.
Defined.

(** ** More on the merge *)

Lemma elem_of_dict_remove {V : Type} (d : dict V) (k : string) (x : string * V) :
  x ∈ dict_remove d k → x ∈ d.
Proof.
  induction d as [|[k0 v0] d IH]; simpl; [done|].
  destruct (decide (k0 = k)).
  - intros Hx. right. by apply IH.
  - intros [->|Hx]%elem_of_cons; [by left | right; by apply IH].
Qed.

Lemma elem_of_dict_set {V : Type} (d : dict V) (k : string) (v : V)
    (x : string * V) :
  x ∈ dict_set d k v → x ∈ d ∨ x = (k, v).
Proof.
  induction d as [|[k0 v0] d IH]; simpl.
  - intros ->%list_elem_of_singleton. by right.
  - destruct (decide (k0 = k)).
    + intros [->|Hx]%elem_of_cons; [by right | left; by right].
    + intros [->|Hx]%elem_of_cons; [left; by left|].
      destruct (IH Hx) as [Hd| ->]; [left; by right | by right].
Qed.

Section merge_more.
Context {M : Type}.

(** One iteration moves a sub-mapping or leaves the store: it makes none. *)
Lemma reconcile_key_values (igdb : dict string) (em em1 : dict M) (key : string) :
  reconcile_key igdb em key = Ok em1 →
  ∀ v, v ∈ dict_values em1 → v ∈ dict_values em.
Proof.
  unfold reconcile_key, dict_getitem, dict_del.
  destruct (isdigit key); [|by intros [= <-]].
  destruct (dict_mem igdb key); [|by intros [= <-]].
  destruct (dict_get igdb key) as [g|]; [|done]. cbn [mbind result_bind].
  destruct (dict_mem em g); cbn [negb mbind result_bind].
  - destruct (dict_mem em key); [|done]. intros [= <-] v.
    unfold dict_values. intros Hv.
    apply (list_elem_of_fmap_1 (B := M)) in Hv as ([y u] & Hvu & Hyu).
    simpl in Hvu. subst v.
    apply elem_of_dict_remove in Hyu.
    by apply (list_elem_of_fmap_2' snd) with (y, u).
  - destruct (dict_get em key) as [m|] eqn:Hm; [|done]. cbn [mbind result_bind].
    destruct (dict_mem _ key); [|done]. intros [= <-] v.
    unfold dict_values. intros Hv.
    apply (list_elem_of_fmap_1 (B := M)) in Hv as ([y u] & Hvu & Hyu).
    simpl in Hvu. subst v.
    apply elem_of_dict_remove, elem_of_dict_set in Hyu as [Hyu|[= -> ->]].
    + by apply (list_elem_of_fmap_2' snd) with (y, u).
    + by eapply dict_get_values.
Qed.

Lemma reconcile_loop_values (igdb : dict string) (ks : list string)
    (em em1 : dict M) :
  for_each (reconcile_key igdb) ks em = Ok em1 →
  ∀ v, v ∈ dict_values em1 → v ∈ dict_values em.
Proof.
  revert em. induction ks as [|key rest IH]; intros em; simpl.
  - by intros [= <-].
  - destruct (reconcile_key igdb em key) as [em2|] eqn:Hstep; [|done].
    cbn [mbind result_bind]. intros Hloop v Hv.
    eapply reconcile_key_values; [done|]. by eapply IH.
Qed.

(** X21. The merge fabricates nothing and the latest fetch wins: every
    freshly fetched entry is in the output with its fetched sub-mapping, and
    every sub-mapping of the output is a fetched one or a sub-mapping of the
    prior store. *)
Theorem merge_fetched_wins (igdb : dict string) (fresh : dict M)
    (types : dict string) (e : existing_data_t M) :
  dict_wf fresh →
  dict_wf (default [] (existing_metrics e)) →
  ∃ out, merge igdb fresh types e = Ok out ∧
    (∀ x v, dict_get fresh x = Some v →
            dict_get (popularity_metrics out) x = Some v) ∧
    (∀ x v, dict_get (popularity_metrics out) x = Some v →
            dict_get fresh x = Some v ∨
            v ∈ dict_values (default [] (existing_metrics e))).
Proof.
  intros Hwff Hwfm. unfold merge. destruct (has_members e).
  - destruct (reconcile_keys_spec igdb _ Hwfm) as (em1 & Hrec & _).
    rewrite Hrec. cbn [mbind result_bind]. eexists. split; [done|].
    cbn [popularity_metrics]. split.
    + intros x v Hx. by rewrite overlay_lookup, Hx.
    + intros x v. rewrite overlay_lookup by done.
      destruct (dict_get fresh x) as [u|]; [by left|].
      intros Hx. right. unfold reconcile_keys in Hrec.
      eapply reconcile_loop_values; [done|]. by eapply dict_get_values.
  - eexists. split; [done|]. cbn [popularity_metrics].
    split; [done | by left].
Qed.

(** X22. Reconciliation clears the legacy keys: when no entry name of the
    run is itself a numeric key of the identifier mapping, the output has no
    key that is all digits and known to the identifier mapping. *)
Theorem merge_clears_legacy (igdb : dict string) (fresh : dict M)
    (types : dict string) (e : existing_data_t M) :
  dict_wf fresh → dict_wf types →
  dict_wf (default [] (existing_metrics e)) →
  names_not_legacy igdb fresh →
  ∃ out, merge igdb fresh types e = Ok out ∧
    ∀ key, isdigit key = true → is_Some (dict_get igdb key) →
           dict_get (popularity_metrics out) key = None.
Proof.
  intros Hwff Hwft Hwfm Hnames.
  destruct (merge_first igdb fresh types e Hwff Hwft Hwfm Hnames)
    as (out & Hout & _ & _ & Hleg & _).
  exists out. split; [done|]. intros key Hd Hk.
  destruct (dict_get (popularity_metrics out) key) as [v|] eqn:Hget; [|done].
  assert (Hin : key ∈ dict_keys (popularity_metrics out)).
  { apply dict_mem_keys, dict_mem_true. by eexists. }
  specialize (Hleg key Hin). unfold legacy in Hleg. rewrite Hd in Hleg.
  apply dict_mem_true in Hk. simpl in Hleg. congruence.
Qed.

End merge_more.

Lemma merge_fetched_wins_witness :
  ∃ out, merge sample_mapping sample_fresh sample_types sample_prior = Ok out ∧
    dict_get (popularity_metrics out) "celeste" = Some sample_fresh_metrics.
Proof.
  destruct (merge_fetched_wins sample_mapping sample_fresh sample_types
              sample_prior) as (out & Hout & Hwins & _).
  - apply sample_wf. reflexivity.
  - apply sample_wf. reflexivity.
  - exists out. split; [exact Hout|]. apply Hwins. reflexivity.
Defined.

Lemma merge_clears_legacy_witness :
  ∃ out, merge sample_mapping sample_fresh sample_types sample_prior = Ok out ∧
    dict_get (popularity_metrics out) "123" = None.
Proof.
  destruct (merge_clears_legacy sample_mapping sample_fresh sample_types
              sample_prior) as (out & Hout & Hclear).
  - apply sample_wf. reflexivity.
  - apply sample_wf. reflexivity.
  - apply sample_wf. reflexivity.
  - exact sample_names_not_legacy.
  - exists out. split; [exact Hout|]. apply Hclear; [reflexivity|].
    by eexists.
Defined.

Lemma fetch_popularity_data_answered_witness :
  requests_made (World 2 [1; 1]%Z) = (0 + 2)%nat ∧
  slept (World 2 [1; 1]%Z) = [] ++ replicate 2 1%Z.
Proof.
  apply (fetch_popularity_data_answered sample_primitives_of sample_transport
           [("379", "doom"); ("26226", "celeste")] (World 0 [])
           (World 2 [1; 1]%Z)
           ([("doom", [("3", PyFloat 12)]); ("celeste", [("3", PyFloat 12)])], {[ 3%Z ]})).
  - intros n. exists (Response 200 "[...]"). split; reflexivity.
  - vm_compute. reflexivity.
Defined.
